(** * align_videos_by_soundtrack/align.py: signature extraction, delay
      finding and multi-file delay resolution

    A shallow embedding of [_mk_freq_trans_summary], [_find_delay] and
    [SyncDetector._align], followed by the properties proved about them.

    Conventions of the embedding:
    - the code is read with the semantics of Python 3: [/] is true division,
      and [dict] / [defaultdict] keep insertion order.  A dictionary is an
      insertion-ordered association list ([Dict]); an update of an existing
      key keeps its position.
    - Python [int] is [Z]; list and file indices are [nat] where the code
      obtains them from [list.index] or [range(len(..))].
    - Python [float] values (seconds, intensities, time stamps) are exact
      rationals [Q]; [float('nan')] as "no bound" is [None].  Rounding of
      binary64 arithmetic is not modelled.
    - a raised exception is the [Raise] branch of [result].
    - the order in which a Python [set] is iterated, the FFT, the decoder,
      the state of the file system and [_cache.make_cache_key] are
      parameters. *)

From Stdlib Require Import String.
From Stdlib Require Import List ZArith QArith Qminmax Lia Lqa Bool.
From Stdlib Require Import Permutation Sorted Arith.
Import ListNotations.

Set Implicit Arguments.

(* ================================================================== *)
(** * Part I: the model *)
(* ================================================================== *)

(** ** Exceptions *)

Inductive exn : Type :=
| NoCorrelation      (* Exception("I could not find a match. ...") *)
| IndexError
| KeyError
| ZeroDivisionError
| ValueError.

Inductive result (A : Type) : Type :=
| Ok (a : A)
| Raise (e : exn).

Arguments Ok {A} a.
Arguments Raise {A} e.

Definition bind {A B : Type} (c : result A) (k : A -> result B) : result B :=
  match c with
  | Ok a => k a
  | Raise e => Raise e
  end.

Notation "x <- c ;; k" := (bind c (fun x => k))
  (at level 61, c at next level, right associativity).
Notation "' pat <- c ;; k" := (bind c (fun x => match x with pat => k end))
  (at level 61, pat pattern, c at next level, right associativity).

(** A [for] loop whose body may raise: the first exception ends the loop. *)
Fixpoint for_each {S A : Type} (body : S -> A -> result S) (xs : list A) (s : S)
  : result S :=
  match xs with
  | [] => Ok s
  | x :: xs' => s' <- body s x ;; for_each body xs' s'
  end.

(** ** Insertion-ordered dictionaries *)

Module Dict.

Section Defs.
Variables K V : Type.
Variable eqb : K -> K -> bool.

Definition t : Type := list (K * V).

Definition empty : t := [].

Fixpoint get (d : t) (k : K) : option V :=
  match d with
  | [] => None
  | (k', v) :: d' => if eqb k k' then Some v else get d' k
  end.

(** [d[k] = v]: an existing key keeps its place, a new key goes last. *)
Fixpoint set (d : t) (k : K) (v : V) : t :=
  match d with
  | [] => [(k, v)]
  | (k', v') :: d' => if eqb k k' then (k', v) :: d' else (k', v') :: set d' k v
  end.

Definition contains (d : t) (k : K) : bool :=
  match get d k with
  | Some _ => true
  | None => false
  end.

Definition keys (d : t) : list K := map fst d.

(** [d[k]] on a [defaultdict] whose factory yields [dflt]. *)
Definition get_default (dflt : V) (d : t) (k : K) : V :=
  match get d k with
  | Some v => v
  | None => dflt
  end.

End Defs.

Arguments empty {K V}.

End Dict.

Definition pair_eqb (a b : nat * nat) : bool :=
  (fst a =? fst b)%nat && (snd a =? snd b)%nat.

Definition cell_eqb (a b : Z * Z) : bool :=
  (fst a =? fst b)%Z && (snd a =? snd b)%Z.

(** A frequency signature: frequency index -> times (window indices). *)
Definition signature : Type := Dict.t Z (list Z).

Definition sig_get (fd : signature) (key : Z) : list Z :=
  Dict.get_default Z.eqb [] fd key.

(** ** Python built-ins used by the code *)

Definition len {A : Type} (l : list A) : Z := Z.of_nat (length l).

(** [a // b] on ints. *)
Definition floordiv (a b : Z) : result Z :=
  if (b =? 0)%Z then Raise ZeroDivisionError else Ok (a / b)%Z.

(** [range(start, stop, step)]. *)
Definition py_range (start stop step : Z) : result (list Z) :=
  if (step =? 0)%Z then Raise ValueError
  else
    let n := if (0 <? step)%Z
             then ((stop - start + step - 1) / step)%Z
             else ((start - stop - step - 1) / (- step))%Z in
    Ok (map (fun i => (start + Z.of_nat i * step)%Z) (seq 0 (Z.to_nat n))).

(** [enumerate(l)]. *)
Definition enumerate {A : Type} (l : list A) : list (Z * A) :=
  combine (map Z.of_nat (seq 0 (length l))) l.

(** Normalisation of one slice bound against a sequence of length [n]. *)
Definition slice_index (n i : Z) : Z :=
  if (i <? 0)%Z then Z.max 0 (i + n) else Z.min i n.

(** [data[a:b]]. *)
Definition py_slice {A : Type} (data : list A) (a b : Z) : list A :=
  let lo := slice_index (len data) a in
  let hi := slice_index (len data) b in
  firstn (Z.to_nat (hi - lo)) (skipn (Z.to_nat lo) data).

(** [l[-1]]. *)
Fixpoint last_item {A : Type} (l : list A) : result A :=
  match l with
  | [] => Raise IndexError
  | [x] => Ok x
  | _ :: l' => last_item l'
  end.

(** [l.index(x)], the first position of [x]. *)
Fixpoint index {A : Type} (eqb : A -> A -> bool) (l : list A) (x : A)
  : result nat :=
  match l with
  | [] => Raise ValueError
  | y :: l' => if eqb y x then Ok 0%nat else i <- index eqb l' x ;; Ok (S i)
  end.

(** [sorted(l, key=...)] / [sorted(l)]: a stable sort for the order [leb]. *)
Section Sorted.
Variable A : Type.
Variable leb : A -> A -> bool.

Fixpoint insert_sorted (x : A) (l : list A) : list A :=
  match l with
  | [] => [x]
  | y :: l' => if leb x y then x :: l else y :: insert_sorted x l'
  end.

Fixpoint sorted (l : list A) : list A :=
  match l with
  | [] => []
  | x :: l' => insert_sorted x (sorted l')
  end.

End Sorted.

(** The order relation decided by [leb]. *)
Definition le_of {A : Type} (leb : A -> A -> bool) (a b : A) : Prop :=
  leb a b = true.

(** ** The Delay Finder: [_find_delay] *)

Definition histogram : Type := Dict.t Z nat.

(** [math.isnan(min_delay) or delta_t >= min_delay] *)
Definition mincond_ok (min_delay : option Q) (delta_t : Z) : bool :=
  match min_delay with
  | None => true
  | Some m => Qle_bool m (inject_Z delta_t)
  end.

(** [math.isnan(max_delay) or delta_t <= max_delay] *)
Definition maxcond_ok (max_delay : option Q) (delta_t : Z) : bool :=
  match max_delay with
  | None => true
  | Some m => Qle_bool (inject_Z delta_t) m
  end.

Definition in_bounds (min_delay max_delay : option Q) (delta_t : Z) : bool :=
  mincond_ok min_delay delta_t && maxcond_ok max_delay delta_t.

(** [t_diffs[delta_t] += inc] on a [defaultdict(int)]. *)
Definition add_vote (t_diffs : histogram) (delta_t : Z) (inc : nat) : histogram :=
  Dict.set Z.eqb t_diffs delta_t (Dict.get_default Z.eqb 0%nat t_diffs delta_t + inc)%nat.

(** The body of the innermost loop (lines 87-91). *)
Definition vote (min_delay max_delay : option Q) (x_i : Z)
  (t_diffs : histogram) (x_j : Z) : histogram :=
  let delta_t := (x_i - x_j)%Z in
  let inc := if in_bounds min_delay max_delay delta_t then 1%nat else 0%nat in
  add_vote t_diffs delta_t inc.

(** The body of [for key in keys] (lines 85-91). *)
Definition vote_key (vote_fn : Z -> histogram -> Z -> histogram)
  (freqs_dict_orig freqs_dict_sample : signature)
  (t_diffs : histogram) (key : Z) : histogram :=
  fold_left
    (fun td x_i => fold_left (vote_fn x_i) (sig_get freqs_dict_orig key) td)
    (sig_get freqs_dict_sample key) t_diffs.

Definition count_leb (a b : Z * nat) : bool := (snd a <=? snd b)%nat.

Section DelayFinder.

(** The order in which CPython iterates over a [set] with the given
    members. *)
Variable set_iter : list Z -> list Z.

(** [set(freqs_dict_sample.keys()) & set(freqs_dict_orig.keys())], as
    iterated. *)
Definition common_keys (freqs_dict_orig freqs_dict_sample : signature) : list Z :=
  set_iter
    (filter (fun k => Dict.contains Z.eqb freqs_dict_orig k)
            (Dict.keys freqs_dict_sample)).

(** The histogram [t_diffs] after the loops of lines 83-91. *)
Definition t_diffs_of (freqs_dict_orig freqs_dict_sample : signature)
  (min_delay max_delay : option Q) : histogram :=
  fold_left
    (vote_key (vote min_delay max_delay) freqs_dict_orig freqs_dict_sample)
    (common_keys freqs_dict_orig freqs_dict_sample) Dict.empty.

Definition _find_delay (freqs_dict_orig freqs_dict_sample : signature)
  (min_delay max_delay : option Q) : result Z :=
  match common_keys freqs_dict_orig freqs_dict_sample with
  | [] => Raise NoCorrelation
  | _ :: _ =>
      let t_diffs := t_diffs_of freqs_dict_orig freqs_dict_sample min_delay max_delay in
      let t_diffs_sorted := sorted count_leb t_diffs in
      entry <- last_item t_diffs_sorted ;;
      Ok (fst entry)
  end.

(** The variant the specification allows instead: a delta outside the bounds
    is not recorded at all. *)
Definition vote_skip (min_delay max_delay : option Q) (x_i : Z)
  (t_diffs : histogram) (x_j : Z) : histogram :=
  let delta_t := (x_i - x_j)%Z in
  if in_bounds min_delay max_delay delta_t then add_vote t_diffs delta_t 1
  else t_diffs.

Definition t_diffs_skip (freqs_dict_orig freqs_dict_sample : signature)
  (min_delay max_delay : option Q) : histogram :=
  fold_left
    (vote_key (vote_skip min_delay max_delay) freqs_dict_orig freqs_dict_sample)
    (common_keys freqs_dict_orig freqs_dict_sample) Dict.empty.

Definition find_delay_skip (freqs_dict_orig freqs_dict_sample : signature)
  (min_delay max_delay : option Q) : result Z :=
  match common_keys freqs_dict_orig freqs_dict_sample with
  | [] => Raise NoCorrelation
  | _ :: _ =>
      entry <- last_item
                 (sorted count_leb
                    (t_diffs_skip freqs_dict_orig freqs_dict_sample min_delay max_delay)) ;;
      Ok (fst entry)
  end.

End DelayFinder.

(** ** The Signature Extractor: [_mk_freq_trans_summary] *)

(** An entry of a box: [(intensities[y], x, y)]. *)
Definition triple : Type := (Q * Z * Z)%type.

Definition boxes_t : Type := Dict.t (Z * Z) (list triple).

(** Python's [<] on the tuples [(intensity, x, y)]: lexicographic. *)
Definition triple_ltb (a b : triple) : bool :=
  let '(ia, xa, ya) := a in
  let '(ib, xb, yb) := b in
  match (ia ?= ib)%Q with
  | Lt => true
  | Gt => false
  | Eq => match (xa ?= xb)%Z with
          | Lt => true
          | Gt => false
          | Eq => (ya <? yb)%Z
          end
  end.

(** Python's [==] on the tuples. *)
Definition triple_eqb (a b : triple) : bool :=
  let '(ia, xa, ya) := a in
  let '(ib, xb, yb) := b in
  Qeq_bool ia ib && (xa =? xb)%Z && (ya =? yb)%Z.

(** [min(l)] scans from the left and keeps the first smallest item. *)
Fixpoint min_from (best : triple) (l : list triple) : triple :=
  match l with
  | [] => best
  | t :: l' => min_from (if triple_ltb t best then t else best) l'
  end.

Definition py_min (l : list triple) : result triple :=
  match l with
  | [] => Raise ValueError
  | t :: l' => Ok (min_from t l')
  end.

(** [l.remove(v)]: drops the first item equal to [v]. *)
Fixpoint list_remove (v : triple) (l : list triple) : result (list triple) :=
  match l with
  | [] => Raise ValueError
  | t :: l' => if triple_eqb t v then Ok l'
               else r <- list_remove v l' ;; Ok (t :: r)
  end.

(** Lines 59-61: append to the box of the cell, then drop the minimum when
    the box holds more than [maxes_per_box] entries. *)
Definition box_append (maxes_per_box : Z) (boxes : boxes_t) (cell : Z * Z)
  (entry : triple) : result boxes_t :=
  let appended := Dict.get_default cell_eqb [] boxes cell ++ [entry] in
  if (maxes_per_box <? len appended)%Z
  then m <- py_min appended ;;
       kept <- list_remove m appended ;;
       Ok (Dict.set cell_eqb boxes cell kept)
  else Ok (Dict.set cell_eqb boxes cell appended).

(** [freqs_dict[y].append(x)] on a [defaultdict(list)]. *)
Definition sig_append (freqs_dict : signature) (y x : Z) : signature :=
  Dict.set Z.eqb freqs_dict y (sig_get freqs_dict y ++ [x]).

(** Lines 63-65. *)
Definition flatten_boxes (boxes : boxes_t) : signature :=
  fold_left
    (fun fd (box : (Z * Z) * list triple) =>
       fold_left (fun fd' (e : triple) => let '(_, x, y) := e in sig_append fd' y x)
                 (snd box) fd)
    boxes Dict.empty.

(** The window read for the start position [j] (line 51). *)
Definition window_at (data : list Z) (fft_bin_size j : Z) : list Z :=
  py_slice data (Z.max 0 j) (Z.max 0 j + fft_bin_size).

(** All windows the loop of line 50 visits, with their index [x]. *)
Definition windows (data : list Z) (fft_bin_size overlap : Z)
  : result (list (Z * list Z)) :=
  js <- py_range (- overlap) (len data) (fft_bin_size - overlap) ;;
  Ok (map (fun xj => (fst xj, window_at data fft_bin_size (snd xj))) (enumerate js)).

(** Those that pass the test of line 52. *)
Definition full_windows (data : list Z) (fft_bin_size overlap : Z)
  : result (list (Z * list Z)) :=
  ws <- windows data fft_bin_size overlap ;;
  Ok (filter (fun w => (len (snd w) =? fft_bin_size)%Z) ws).

Section Extractor.

(** [np.abs(np.fft.fft(sample_data))]. *)
Variable fft_abs : list Z -> list Q.

(** Lines 53-61 for one full window. *)
Definition add_window (box_height box_width maxes_per_box : Z)
  (boxes : boxes_t) (x : Z) (sample_data : list Z) : result boxes_t :=
  let intensities := fft_abs sample_data in
  box_x <- floordiv x box_width ;;
  ys <- py_range 0 (len intensities / 2) 1 ;;
  for_each
    (fun bs y =>
       box_y <- floordiv y box_height ;;
       box_append maxes_per_box bs (box_x, box_y)
                  (nth (Z.to_nat y) intensities 0%Q, x, y))
    ys boxes.

(** The body of the loop of line 50. *)
Definition window_step (data : list Z)
  (fft_bin_size box_height box_width maxes_per_box : Z)
  (boxes : boxes_t) (xj : Z * Z) : result boxes_t :=
  let '(x, j) := xj in
  let sample_data := window_at data fft_bin_size j in
  if (len sample_data =? fft_bin_size)%Z
  then add_window box_height box_width maxes_per_box boxes x sample_data
  else Ok boxes.

(** The boxes after the loop of lines 50-61. *)
Definition boxes_of (data : list Z)
  (fft_bin_size overlap box_height box_width maxes_per_box : Z) : result boxes_t :=
  js <- py_range (- overlap) (len data) (fft_bin_size - overlap) ;;
  for_each (window_step data fft_bin_size box_height box_width maxes_per_box)
           (enumerate js) Dict.empty.

Definition _mk_freq_trans_summary (data : list Z)
  (fft_bin_size overlap box_height box_width maxes_per_box : Z) : result signature :=
  boxes <- boxes_of data fft_bin_size overlap box_height box_width maxes_per_box ;;
  Ok (flatten_boxes boxes).

End Extractor.

(** ** The Multi-File Delay Resolver: [SyncDetector._align] *)

(** One value of [known_delay_map]: [{"base": .., "min": .., "max": ..}];
    ["min"] and ["max"] may be missing. *)
Record kdm_t : Type := {
  kdm_base : string;
  kdm_min : option Q;
  kdm_max : option Q
}.

(** [exaud_args] (lines 159-162). *)
Record exaud_args : Type := {
  ea_sample_rate : Z;
  ea_video_file : string;
  ea_duration : Q;
  ea_afilter : string
}.

(** [for_cache] (lines 166-174): the keyword arguments of
    [_cache.make_cache_key]. *)
Record for_cache_t : Type := {
  fc_exaud : exaud_args;
  fc_fft_bin_size : Z;
  fc_overlap : Z;
  fc_box_height : Z;
  fc_box_width : Z;
  fc_samples_per_box : Z;
  fc_atime : Q
}.

(** What the file system records about a file. *)
Record file_stat : Type := {
  st_atime : Q;   (* time of last access *)
  st_mtime : Q    (* time of last modification *)
}.

(** The fields of [self] that [_align] reads. *)
Record SyncDetector : Type := {
  _sample_rate : Z;
  _dont_cache : bool
}.

Definition pair_leb (a b : nat * nat) : bool :=
  (fst a <? fst b)%nat || ((fst a =? fst b)%nat && (snd a <=? snd b)%nat).

(** [d[k]] on a plain [dict]. *)
Definition lookup (d : Dict.t (nat * nat) Q) (k : nat * nat) : result Q :=
  match Dict.get pair_eqb d k with
  | Some v => Ok v
  | None => Raise KeyError
  end.

(** [a / b] on floats. *)
Definition truediv (a b : Q) : result Q :=
  if Qeq_bool b 0 then Raise ZeroDivisionError else Ok (a / b)%Q.

(** [kdm.get("min", float("nan")) * samps_per_sec] *)
Definition scale_bound (b : option Q) (samps_per_sec : Q) : option Q :=
  option_map (fun s => (s * samps_per_sec)%Q) b.

(** [a.min()] and [a.max()] of a numpy array. *)
Definition np_min (a : list Q) : result Q :=
  match a with
  | [] => Raise ValueError
  | x :: a' => Ok (fold_left Qmin a' x)
  end.

Definition np_max (a : list Q) : result Q :=
  match a with
  | [] => Raise ValueError
  | x :: a' => Ok (fold_left Qmax a' x)
  end.

(** Lines 235-236. *)
Definition pad_trim (delays : list Q) : result (list Q * list Q) :=
  m <- np_min delays ;;
  let pad_pre := map (fun d => (d - m)%Q) delays in
  mx <- np_max pad_pre ;;
  let trim_pre := map (fun p => (- (p - mx))%Q) pad_pre in
  Ok (pad_pre, trim_pre).

(** Lines 145-156: the duration handed to the decoder. *)
Definition maxmisal_of (sample_rate fft_bin_size overlap : Z) (max_misalignment : Q)
  : result Q :=
  if Qeq_bool max_misalignment 0 then Ok 0%Q
  else
    q <- truediv (inject_Z (fft_bin_size - overlap)) (inject_Z sample_rate) ;;
    Ok (max_misalignment + 512 * q)%Q.

Section Resolver.

Variable set_iter : list Z -> list Z.
Variable fft_abs : list Z -> list Q.

(** [os.path.abspath]. *)
Variable abspath : string -> string.
(** The state of the file system. *)
Variable os_stat : string -> file_stat.
(** [_extract_audio] followed by [communicate.read_audio]: the decoded
    samples and their rate. *)
Variable decode : exaud_args -> list Z * Z.
(** [_cache.make_cache_key]. *)
Variable cache_key : Type.
Variable key_eqb : cache_key -> cache_key -> bool.
Variable make_cache_key : for_cache_t -> cache_key.

(** The "_align" name space of the cache. *)
Definition cache_t : Type := Dict.t cache_key (Z * signature).

Variable self : SyncDetector.
Variables (sample_rate : Z) (files : list string).
Variables (fft_bin_size overlap box_height box_width samples_per_box : Z).
Variable max_misalignment : Q.
Variable known_delay_map : Dict.t string kdm_t.
Variable afilter : string.

(** Lines 166-175: the cache key of one file. *)
Definition cache_key_of (exaud : exaud_args) : cache_key :=
  make_cache_key
    {| fc_exaud := exaud;
       fc_fft_bin_size := fft_bin_size;
       fc_overlap := overlap;
       fc_box_height := box_height;
       fc_box_width := box_width;
       fc_samples_per_box := samples_per_box;
       fc_atime := st_atime (os_stat (ea_video_file exaud)) |}.

(** Lines 183-188. *)
Definition extract (exaud : exaud_args) : result (Z * signature) :=
  let '(raw_audio, rate) := decode exaud in
  ft_dict <- _mk_freq_trans_summary fft_abs raw_audio fft_bin_size overlap
               box_height box_width samples_per_box ;;
  Ok (rate, ft_dict).

(** The local function [_each] (lines 144-192), threading the cache. *)
Definition _each (cache : cache_t) (idx : nat) : result (signature * cache_t) :=
  maxmisal <- maxmisal_of sample_rate fft_bin_size overlap max_misalignment ;;
  let exaud_args :=
    {| ea_sample_rate := sample_rate;
       ea_video_file := nth idx files EmptyString;
       ea_duration := maxmisal;
       ea_afilter := afilter |} in
  if negb (_dont_cache self) then
    let ck := cache_key_of exaud_args in
    match Dict.get key_eqb cache ck with
    | Some cv => Ok (snd cv, cache)
    | None =>
        cv <- extract exaud_args ;;
        Ok (snd cv, Dict.set key_eqb cache ck cv)
    end
  else
    cv <- extract exaud_args ;;
    Ok (snd cv, Dict.empty).

(** Line 195: [ftds], one signature per file, in file order. *)
Definition ftds_of (cache : cache_t) : result (list signature) :=
  r <- for_each
         (fun (acc : list signature * cache_t) idx =>
            ' (ft, cache') <- _each (snd acc) idx ;;
            Ok (fst acc ++ [ft], cache'))
         (seq 0 (length files)) ([], cache) ;;
  Ok (fst r).

Definition ftd (ftds : list signature) (i : nat) : signature := nth i ftds Dict.empty.

(** The body of the loop of lines 197-208. *)
Definition known_step (ftds : list signature) (samps_per_sec : Q)
  (_result1 : Dict.t (nat * nat) Q) (item : string * kdm_t)
  : result (Dict.t (nat * nat) Q) :=
  let '(kdm_key, kdm) := item in
  match index String.eqb files (abspath kdm_key) with
  | Raise _ => Ok _result1
  | Ok it =>
      match index String.eqb files (abspath (kdm_base kdm)) with
      | Raise _ => Ok _result1
      | Ok ib =>
          delay <- _find_delay set_iter (ftd ftds ib) (ftd ftds it)
                     (scale_bound (kdm_min kdm) samps_per_sec)
                     (scale_bound (kdm_max kdm) samps_per_sec) ;;
          v <- truediv (- inject_Z delay) samps_per_sec ;;
          Ok (Dict.set pair_eqb _result1 (ib, it) v)
      end
  end.

(** The body of the loop of lines 211-218. *)
Definition base_step (ftds : list signature) (samps_per_sec : Q)
  (_result1 : Dict.t (nat * nat) Q)
  (_result2 : Dict.t (nat * nat) Q) (i : nat) : result (Dict.t (nat * nat) Q) :=
  if Dict.contains pair_eqb _result1 (0, i + 1)%nat then
    v <- lookup _result1 (0, i + 1)%nat ;;
    Ok (Dict.set pair_eqb _result2 (0, i + 1)%nat v)
  else if Dict.contains pair_eqb _result1 (i + 1, 0)%nat then
    v <- lookup _result1 (i + 1, 0)%nat ;;
    Ok (Dict.set pair_eqb _result2 (0, i + 1)%nat (- v)%Q)
  else
    delay <- _find_delay set_iter (ftd ftds 0) (ftd ftds (i + 1)) None None ;;
    v <- truediv (- inject_Z delay) samps_per_sec ;;
    Ok (Dict.set pair_eqb _result2 (0, i + 1)%nat v).

(** Lines 210-218. *)
Definition base_relative (ftds : list signature) (samps_per_sec : Q)
  (_result1 : Dict.t (nat * nat) Q) : result (Dict.t (nat * nat) Q) :=
  for_each (base_step ftds samps_per_sec _result1)
           (seq 0 (length files - 1))
           (Dict.set pair_eqb Dict.empty (0, 0)%nat 0%Q).

(** The body of the inner loop of lines 227-231. *)
Definition chain_step (_result1 : Dict.t (nat * nat) Q) (edge : nat * nat)
  (_result2 : Dict.t (nat * nat) Q) (i : nat) : result (Dict.t (nat * nat) Q) :=
  let '(ib, it) := edge in
  let unlinked :=
    negb (Dict.contains pair_eqb _result1 (0, i + 1)%nat)
    && negb (Dict.contains pair_eqb _result1 (i + 1, 0)%nat) in
  if (0 <? ib)%nat && (it =? i + 1)%nat && unlinked then
    a <- lookup _result2 (0, ib)%nat ;;
    b <- lookup _result1 (ib, it) ;;
    Ok (Dict.set pair_eqb _result2 (0, it)%nat (a - b)%Q)
  else if (0 <? it)%nat && (ib =? i + 1)%nat && unlinked then
    a <- lookup _result2 (0, it)%nat ;;
    b <- lookup _result1 (ib, it) ;;
    Ok (Dict.set pair_eqb _result2 (0, ib)%nat (a + b)%Q)
  else Ok _result2.

(** Lines 226-231. *)
Definition chain_propagate (_result1 _result2 : Dict.t (nat * nat) Q)
  : result (Dict.t (nat * nat) Q) :=
  for_each
    (fun r2 edge => for_each (chain_step _result1 edge) (seq 0 (length files - 1)) r2)
    (sorted pair_leb (Dict.keys _result1)) _result2.

(** Lines 196-208: the delays of the constrained pairs. *)
Definition known_delays (ftds : list signature) (samps_per_sec : Q)
  : result (Dict.t (nat * nat) Q) :=
  for_each (known_step ftds samps_per_sec) known_delay_map Dict.empty.

(** Lines 196-231: [_result2] when the loops are done. *)
Definition resolve (ftds : list signature) (samps_per_sec : Q)
  : result (Dict.t (nat * nat) Q) :=
  _result1 <- known_delays ftds samps_per_sec ;;
  _result2 <- base_relative ftds samps_per_sec _result1 ;;
  chain_propagate _result1 _result2.

(** Line 234: [[_result2[k] for k in sorted(_result2.keys())]]. *)
Definition result_array (_result2 : Dict.t (nat * nat) Q) : result (list Q) :=
  for_each (fun acc k => v <- lookup _result2 k ;; Ok (acc ++ [v]))
           (sorted pair_leb (Dict.keys _result2)) [].

(** The delays relative to file 0 that [_align] normalises (line 234). *)
Definition delays_of (cache : cache_t) : result (list Q) :=
  samps_per_sec <- truediv (inject_Z (_sample_rate self)) (inject_Z fft_bin_size) ;;
  ftds <- ftds_of cache ;;
  _result2 <- resolve ftds samps_per_sec ;;
  result_array _result2.

Definition _align (cache : cache_t) : result (list Q * list Q) :=
  delays <- delays_of cache ;;
  pad_trim delays.

End Resolver.

(** ** Notions used in the statements *)

(** Every box holds at most [maxes_per_box] entries. *)
Definition boxes_bounded (maxes_per_box : Z) (boxes : boxes_t) : Prop :=
  forall cell l, In (cell, l) boxes -> (len l <= maxes_per_box)%Z.

(** The cell [(box_x, box_y)] of the window index [x] and the frequency
    index [y] (lines 54 and 56). *)
Definition cell_of (box_height box_width x y : Z) : Z * Z :=
  ((x / box_width)%Z, (y / box_height)%Z).

(** The [(y, x)] pairs a signature consists of: key [y], time [x]. *)
Definition sig_entries (fd : signature) : list (Z * Z) :=
  flat_map (fun kv => map (fun x => (fst kv, x)) (snd kv)) fd.

(** How many entries of a signature come from one cell. *)
Definition entries_of_cell (box_height box_width : Z) (cell : Z * Z)
  (fd : signature) : nat :=
  length
    (filter (fun yx => cell_eqb (cell_of box_height box_width (snd yx) (fst yx)) cell)
            (sig_entries fd)).

(** The start position of the window with index [x] (line 50). *)
Definition window_start (fft_bin_size overlap x : Z) : Z :=
  (- overlap + x * (fft_bin_size - overlap))%Z.

(** ** Concrete instances of the parameters, for evaluating the model *)

(** A set iterated in first-insertion order, without repetition. *)
Definition set_iter_first : list Z -> list Z := nodup Z.eq_dec.

(** The magnitude spectrum of a window of at most two samples, where the
    discrete Fourier transform is exact on rationals: [|a|] and
    [|a+b|, |a-b|].  Longer windows are outside this instance. *)
Definition dft_abs_2 (w : list Z) : list Q :=
  match w with
  | [a] => [inject_Z (Z.abs a)]
  | [a; b] => [inject_Z (Z.abs (a + b)); inject_Z (Z.abs (a - b))]
  | _ => []
  end.

(** Paths that are absolute already. *)
Definition abspath_id (path : string) : string := path.

(** Cache keys that are the key arguments themselves. *)
Definition Q_eqb (a b : Q) : bool :=
  (Qnum a =? Qnum b)%Z && (Qden a =? Qden b)%positive.

Definition exaud_eqb (a b : exaud_args) : bool :=
  (ea_sample_rate a =? ea_sample_rate b)%Z
  && String.eqb (ea_video_file a) (ea_video_file b)
  && Q_eqb (ea_duration a) (ea_duration b)
  && String.eqb (ea_afilter a) (ea_afilter b).

Definition for_cache_eqb (a b : for_cache_t) : bool :=
  exaud_eqb (fc_exaud a) (fc_exaud b)
  && (fc_fft_bin_size a =? fc_fft_bin_size b)%Z
  && (fc_overlap a =? fc_overlap b)%Z
  && (fc_box_height a =? fc_box_height b)%Z
  && (fc_box_width a =? fc_box_width b)%Z
  && (fc_samples_per_box a =? fc_samples_per_box b)%Z
  && Q_eqb (fc_atime a) (fc_atime b).

Definition cache_key_id (fc : for_cache_t) : for_cache_t := fc.

(** Three recordings of one event, decoded at 2 samples per second: the
    loud window is window 0 of "/a", window 2 of "/b" and window 5 of "/c".
    "/d" is too short for a window. *)
Definition ex_samples (path : string) : list Z :=
  if String.eqb path "/a" then [9; 9; 0; 0; 0; 0; 0; 0; 0; 0; 0; 0]%Z
  else if String.eqb path "/b" then [0; 0; 0; 0; 9; 9; 0; 0; 0; 0; 0; 0]%Z
  else if String.eqb path "/c" then [0; 0; 0; 0; 0; 0; 0; 0; 0; 0; 9; 9]%Z
  else [7]%Z.

Definition ex_decode (a : exaud_args) : list Z * Z :=
  (ex_samples (ea_video_file a), ea_sample_rate a).

Definition ex_stat (path : string) : file_stat :=
  {| st_atime := 100; st_mtime := 50 |}.

Definition ex_self : SyncDetector :=
  {| _sample_rate := 2; _dont_cache := true |}.

(** [_align] on these recordings: windows of 2 samples without overlap, one
    box for all windows, one entry per box, no limit on the duration. *)
Definition ex_align (files : list string) (known_delay_map : Dict.t string kdm_t)
  : result (list Q * list Q) :=
  _align set_iter_first dft_abs_2 abspath_id ex_stat ex_decode
         for_cache_eqb cache_key_id ex_self
         2 files 2 0 1 1000 1 0 known_delay_map "" Dict.empty.

Definition ex_delays (files : list string) (known_delay_map : Dict.t string kdm_t)
  : result (list Q) :=
  delays_of set_iter_first dft_abs_2 abspath_id ex_stat ex_decode
            for_cache_eqb cache_key_id ex_self
            2 files 2 0 1 1000 1 0 known_delay_map "" Dict.empty.

(** The constraint "the delay of /c is measured against /b", without
    bounds. *)
Definition ex_known : Dict.t string kdm_t :=
  [("/c"%string, {| kdm_base := "/b"; kdm_min := None; kdm_max := None |})].

(** ** Further notions used in the statements *)

(** The differences [x_i - x_j] that the loops of lines 85-87 go through
    for one key, and for all common keys, in the order of the loops. *)
Definition deltas_of_key (freqs_dict_orig freqs_dict_sample : signature) (key : Z)
  : list Z :=
  flat_map (fun x_i => map (fun x_j => (x_i - x_j)%Z) (sig_get freqs_dict_orig key))
           (sig_get freqs_dict_sample key).

Definition all_deltas (set_iter : list Z -> list Z)
  (freqs_dict_orig freqs_dict_sample : signature) : list Z :=
  flat_map (deltas_of_key freqs_dict_orig freqs_dict_sample)
           (common_keys set_iter freqs_dict_orig freqs_dict_sample).

(** A signature with every time moved by [k] windows. *)
Definition shift_sig (k : Z) (fd : signature) : signature :=
  map (fun kv => (fst kv, map (fun x => (x + k)%Z) (snd kv))) fd.

(** A bound moved by [k] windows. *)
Definition shift_bound (k : Z) (b : option Q) : option Q :=
  option_map (fun m => (m + inject_Z k)%Q) b.

(** ** The public interface: [get_media_info], [align],
       [summarize_stream_infos] and the report of [main] *)

(** [l[i]] for an index that is not negative. *)
Definition getitem {A : Type} (l : list A) (i : nat) : result A :=
  match nth_error l i with
  | Some x => Ok x
  | None => Raise IndexError
  end.

(** [a op b] on numpy arrays of one dimension: element by element, an
    array of length 1 being stretched to the length of the other. *)
Definition np_broadcast (op : Q -> Q -> Q) (a b : list Q) : result (list Q) :=
  if (length a =? length b)%nat then
    Ok (map (fun p => op (fst p) (snd p)) (combine a b))
  else
    match a, b with
    | [x], _ => Ok (map (fun y => op x y) b)
    | _, [y] => Ok (map (fun x => op x y) a)
    | _, _ => Raise ValueError
    end.

(** The value of ["streams_summary"] in what [communicate.get_media_info]
    returns, as far as this module reads it. *)
Record stream_summary : Type := {
  max_resol_width : Z;
  max_resol_height : Z;
  max_sample_rate : Z;
  max_fps : Q;
  num_video_streams : Z;
  num_audio_streams : Z }.

(** What [communicate.get_media_info] returns; the value of ["streams"] is
    only passed on. *)
Record media_info (streams_t : Type) : Type := {
  duration : Q;
  streams : streams_t;
  streams_summary : stream_summary }.

(** One element of the list that [align] returns. *)
Record align_result (streams_t : Type) : Type := {
  trim : Q;
  pad : Q;
  orig_duration : Q;
  trim_post : Q;
  pad_post : Q;
  orig_streams : streams_t;
  orig_streams_summary : stream_summary }.

(** The dictionary that [summarize_stream_infos] returns. *)
Module Summary.
Record t : Type := {
  max_width : Z;
  max_height : Z;
  max_sample_rate : Z;
  max_fps : Q;
  has_video : list bool;
  has_audio : list bool }.
End Summary.

Section MediaInfo.

Variable streams_t : Type.

(** Whatever ffprobe looks at and changes. *)
Variable world : Type.
(** [communicate.get_media_info]: one run of ffprobe. *)
Variable communicate_get_media_info :
  string -> world -> result (media_info streams_t) * world.

(** [self._orig_infos], together with the world outside. *)
Definition infos_state : Type := Dict.t string (media_info streams_t) * world.

(** Lines 134-137. *)
Definition _get_media_info (fn : string) (st : infos_state)
  : result (media_info streams_t) * infos_state :=
  match Dict.get String.eqb (fst st) fn with
  | Some inf => (Ok inf, st)
  | None =>
      match communicate_get_media_info fn (snd st) with
      | (Raise e, w) => (Raise e, (fst st, w))
      | (Ok inf, w) => (Ok inf, (Dict.set String.eqb (fst st) fn inf, w))
      end
  end.

(** Line 252. *)
Fixpoint get_media_info (files : list string) (st : infos_state)
  : result (list (media_info streams_t)) * infos_state :=
  match files with
  | [] => (Ok [], st)
  | fn :: files' =>
      match _get_media_info fn st with
      | (Raise e, st') => (Raise e, st')
      | (Ok inf, st') =>
          match get_media_info files' st' with
          | (Raise e, st'') => (Raise e, st'')
          | (Ok infos, st'') => (Ok (inf :: infos), st'')
          end
      end
  end.

(** Lines 264-281: the list that [align] builds from the result of
    [_align] and the media informations. *)
Definition edit_list (files : list string) (pad_pre trim_pre : list Q)
  (infos : list (media_info streams_t)) : result (list (align_result streams_t)) :=
  let orig_dur := map (@duration streams_t) infos in
  let strms_info := map (fun inf => (streams inf, streams_summary inf)) infos in
  padded <- np_broadcast Qplus pad_pre orig_dur ;;
  mx <- np_max padded ;;
  let pad_post := map (fun v => (mx - v)%Q) padded in
  kept <- np_broadcast Qminus orig_dur trim_pre ;;
  mn <- np_min kept ;;
  let trim_post := map (fun v => (v - mn)%Q) kept in
  for_each
    (fun acc i =>
       t <- getitem trim_pre i ;;
       p <- getitem pad_pre i ;;
       od <- getitem orig_dur i ;;
       tp <- getitem trim_post i ;;
       pp <- getitem pad_post i ;;
       si <- getitem strms_info i ;;
       Ok (acc ++ [{| trim := t; pad := p; orig_duration := od;
                      trim_post := tp; pad_post := pp;
                      orig_streams := fst si;
                      orig_streams_summary := snd si |}]))
    (seq 0 (length files)) [].

Variable set_iter : list Z -> list Z.
Variable fft_abs : list Z -> list Q.
Variable abspath : string -> string.
Variable os_stat : string -> file_stat.
Variable decode : exaud_args -> list Z * Z.
Variable cache_key : Type.
Variable key_eqb : cache_key -> cache_key -> bool.
Variable make_cache_key : for_cache_t -> cache_key.
Variable self : SyncDetector.

(** [SyncDetector.align] (lines 254-281). *)
Definition align (files : list string)
  (fft_bin_size overlap box_height box_width samples_per_box : Z)
  (max_misalignment : Q) (known_delay_map : Dict.t string kdm_t) (afilter : string)
  (cache : cache_t cache_key) (st : infos_state)
  : result (list (align_result streams_t)) * infos_state :=
  match _align set_iter fft_abs abspath os_stat decode key_eqb make_cache_key self
               (_sample_rate self) files fft_bin_size overlap box_height box_width
               samples_per_box max_misalignment known_delay_map afilter cache with
  | Raise e => (Raise e, st)
  | Ok (pad_pre, trim_pre) =>
      match get_media_info files st with
      | (Raise e, st') => (Raise e, st')
      | (Ok infos, st') => (edit_list files pad_pre trim_pre infos, st')
      end
  end.

(** One turn of the loop of [summarize_stream_infos] (lines 305-320). *)
Definition summarize_step (result : Summary.t) (ares : align_result streams_t)
  : Summary.t :=
  let summary := orig_streams_summary ares in
  {| Summary.max_width := Z.max (Summary.max_width result) (max_resol_width summary);
     Summary.max_height := Z.max (Summary.max_height result) (max_resol_height summary);
     Summary.max_sample_rate :=
       Z.max (Summary.max_sample_rate result) (max_sample_rate summary);
     Summary.max_fps := Qmax (Summary.max_fps result) (max_fps summary);
     Summary.has_video :=
       Summary.has_video result ++ [(0 <? num_video_streams summary)%Z];
     Summary.has_audio :=
       Summary.has_audio result ++ [(0 <? num_audio_streams summary)%Z] |}.

(** [SyncDetector.summarize_stream_infos] (lines 283-321). *)
Definition summarize_stream_infos (result_from_align : list (align_result streams_t))
  : Summary.t :=
  fold_left summarize_step result_from_align
    {| Summary.max_width := 0; Summary.max_height := 0;
       Summary.max_sample_rate := 0; Summary.max_fps := 0;
       Summary.has_video := []; Summary.has_audio := [] |}.

(** The [%]-formatting of one line of the report (lines 417-419). *)
Variable format_line : string -> Q -> Q -> string.

(** Lines 412-419 of [main]: the lines of the report. *)
Definition report_of (file_specs : list string) (res : list (align_result streams_t))
  : result (list string) :=
  for_each
    (fun report (ip : nat * string) =>
       r <- getitem res (fst ip) ;;
       if negb (negb (Qle_bool (trim r) 0)) then Ok report
       else Ok (report ++ [format_line (snd ip) (trim r) (pad r)]))
    (combine (seq 0 (length file_specs)) file_specs) [].

(** Lines 420-423 of [main]: what is printed. *)
Definition report_text (report : list string) : string :=
  match report with
  | [] => "files are in sync already"%string
  | _ :: _ => String.concat (String (Ascii.ascii_of_nat 10) EmptyString) report
  end.

End MediaInfo.

(** Concrete media informations: the world is the number of runs of
    ffprobe so far. *)
Definition ex_summary (w h : Z) : stream_summary :=
  {| max_resol_width := w; max_resol_height := h; max_sample_rate := 44100;
     max_fps := 25; num_video_streams := (if (0 <? w)%Z then 1 else 0);
     num_audio_streams := 1 |}.

Definition ex_probe (fn : string) (runs : nat) : result (media_info unit) * nat :=
  if String.eqb fn "/missing" then (Raise KeyError, S runs)
  else
    (Ok {| duration := (if String.eqb fn "/a" then 10 else 7)%Q;
           streams := tt;
           streams_summary := (if String.eqb fn "/a" then ex_summary 640 480
                               else ex_summary 0 0) |},
     S runs).

Definition ex_public_align (files : list string) (known_delay_map : Dict.t string kdm_t)
  : result (list (align_result unit)) * infos_state unit nat :=
  align ex_probe set_iter_first dft_abs_2 abspath_id ex_stat ex_decode
        for_cache_eqb cache_key_id ex_self
        files 2 0 1 1000 1 0 known_delay_map "" Dict.empty (Dict.empty, 0%nat).

Definition ex_format_line (path : string) (t p : Q) : string := path.

(* ================================================================== *)
(** * Part II: properties *)
(* ================================================================== *)

(** ** The [result] monad and [for_each] *)

Lemma bind_Ok_inv {A B : Type} (c : result A) (k : A -> result B) (b : B) :
  bind c k = Ok b -> exists a, c = Ok a /\ k a = Ok b.
Proof.
  destruct c as [a|e]; simpl; intros H; [exists a; auto | discriminate].
Qed.


(** An invariant of the loop body holds after the loop. *)
Lemma for_each_inv {S A : Type} (P : S -> Prop) (body : S -> A -> result S) :
  (forall s x s', P s -> body s x = Ok s' -> P s') ->
  forall xs s s', P s -> for_each body xs s = Ok s' -> P s'.
Proof.
  intros Hstep xs; induction xs as [|x xs IH]; intros s s' Hs H; simpl in H.
  - inversion H; subst; assumption.
  - apply bind_Ok_inv in H as (s1 & H1 & H2). eauto.
Qed.

(** A loop whose body raises somewhere raises. *)
Lemma for_each_raise {S A : Type} (body : S -> A -> result S) (xs : list A) (x : A) :
  In x xs ->
  (forall s, exists e, body s x = Raise e) ->
  forall s, exists e, for_each body xs s = Raise e.
Proof.
  intros Hin Hx. induction xs as [|y xs IH]; [contradiction|].
  intros s; simpl. destruct (body s y) as [s1|e] eqn:Hy; simpl.
  - destruct Hin as [->|Hin].
    + destruct (Hx s) as (e & He); congruence.
    + apply IH; assumption.
  - eauto.
Qed.

(** ** Dictionaries *)

Module DictFacts.

Section Facts.
Variables K V : Type.
Variable eqb : K -> K -> bool.
Hypothesis eqb_eq : forall a b, eqb a b = true <-> a = b.

Lemma eqb_refl (a : K) : eqb a a = true.
Proof. apply eqb_eq; reflexivity. Qed.

Lemma eqb_neq (a b : K) : a <> b -> eqb a b = false.
Proof.
  intros H; destruct (eqb a b) eqn:E; [|reflexivity].
  apply eqb_eq in E; contradiction.
Qed.

Lemma get_set_same (d : Dict.t K V) (k : K) (v : V) :
  Dict.get eqb (Dict.set eqb d k v) k = Some v.
Proof.
  induction d as [|[k' v'] d IH]; simpl.
  - rewrite eqb_refl; reflexivity.
  - destruct (eqb k k') eqn:E; simpl; rewrite E; auto.
Qed.

Lemma get_set_other (d : Dict.t K V) (k k' : K) (v : V) :
  k <> k' -> Dict.get eqb (Dict.set eqb d k v) k' = Dict.get eqb d k'.
Proof.
  intros Hne; induction d as [|[k0 v0] d IH]; simpl.
  - rewrite eqb_neq; auto.
  - destruct (eqb k k0) eqn:E; simpl.
    + apply eqb_eq in E; subst k0. rewrite eqb_neq by auto. reflexivity.
    + rewrite IH; reflexivity.
Qed.

Lemma get_None_keys (d : Dict.t K V) (k : K) :
  Dict.get eqb d k = None <-> ~ In k (Dict.keys d).
Proof.
  induction d as [|[k' v'] d IH]; simpl.
  - tauto.
  - destruct (eqb k k') eqn:E.
    + apply eqb_eq in E; subst. split; [discriminate | intros H; exfalso; auto].
    + rewrite IH. split.
      * intros H [H1|H1]; [subst; rewrite eqb_refl in E; discriminate | auto].
      * intros H H1; auto.
Qed.

Lemma get_Some_In (d : Dict.t K V) (k : K) (v : V) :
  Dict.get eqb d k = Some v -> In (k, v) d.
Proof.
  induction d as [|[k' v'] d IH]; simpl; [discriminate|].
  destruct (eqb k k') eqn:E.
  - apply eqb_eq in E; subst. intros H; inversion H; auto.
  - auto.
Qed.

Lemma contains_keys (d : Dict.t K V) (k : K) :
  Dict.contains eqb d k = true <-> In k (Dict.keys d).
Proof.
  unfold Dict.contains. destruct (Dict.get eqb d k) eqn:E.
  - split; [intros _|reflexivity].
    apply get_Some_In in E. apply (in_map fst) in E; exact E.
  - apply get_None_keys in E. split; [discriminate | contradiction].
Qed.

Lemma In_get_NoDup (d : Dict.t K V) (k : K) (v : V) :
  NoDup (Dict.keys d) -> In (k, v) d -> Dict.get eqb d k = Some v.
Proof.
  induction d as [|[k' v'] d IH]; simpl; [contradiction|].
  intros Hnd [H|H].
  - inversion H; subst. rewrite eqb_refl; reflexivity.
  - inversion Hnd as [|? ? Hnot Hnd']; subst.
    destruct (eqb k k') eqn:E.
    + apply eqb_eq in E; subst. exfalso; apply Hnot.
      apply (in_map fst) in H; exact H.
    + auto.
Qed.

Lemma keys_set_in (d : Dict.t K V) (k : K) (v : V) :
  In k (Dict.keys d) -> Dict.keys (Dict.set eqb d k v) = Dict.keys d.
Proof.
  induction d as [|[k' v'] d IH]; simpl; [contradiction|].
  intros H. destruct (eqb k k') eqn:E; simpl; [reflexivity|].
  f_equal. apply IH. destruct H as [H|H]; [|exact H].
  subst; rewrite eqb_refl in E; discriminate.
Qed.

Lemma keys_set_notin (d : Dict.t K V) (k : K) (v : V) :
  ~ In k (Dict.keys d) -> Dict.keys (Dict.set eqb d k v) = Dict.keys d ++ [k].
Proof.
  induction d as [|[k' v'] d IH]; simpl; [reflexivity|].
  intros H. rewrite eqb_neq by (intros ->; auto). simpl. f_equal. auto.
Qed.

Lemma keys_set_NoDup (d : Dict.t K V) (k : K) (v : V) :
  NoDup (Dict.keys d) -> NoDup (Dict.keys (Dict.set eqb d k v)).
Proof.
  intros Hnd. destruct (Dict.contains eqb d k) eqn:E.
  - apply contains_keys in E. rewrite keys_set_in; assumption.
  - assert (Hk : ~ In k (Dict.keys d)).
    { intros H; apply contains_keys in H; congruence. }
    rewrite keys_set_notin by assumption.
    apply NoDup_app; [assumption | repeat constructor; auto |].
    intros x Hx [<-|[]]; auto.
Qed.

(** The entries of an updated dictionary: the update, or an old entry. *)
Lemma In_set_inv (d : Dict.t K V) (k k' : K) (v v' : V) :
  In (k', v') (Dict.set eqb d k v) -> (k' = k /\ v' = v) \/ In (k', v') d.
Proof.
  induction d as [|[k0 v0] d IH]; simpl.
  - intros [H|[]]; inversion H; auto.
  - destruct (eqb k k0) eqn:E; simpl.
    + apply eqb_eq in E; subst k0. intros [H|H]; [inversion H|]; auto.
    + intros [H|H]; [auto|]. destruct (IH H); auto.
Qed.

Lemma In_set_same (d : Dict.t K V) (k : K) (v : V) :
  In (k, v) (Dict.set eqb d k v).
Proof. apply get_Some_In, get_set_same. Qed.

Lemma set_not_nil (d : Dict.t K V) (k : K) (v : V) : Dict.set eqb d k v <> [].
Proof.
  destruct d as [|[k' v'] d]; simpl; [discriminate|].
  destruct (eqb k k'); discriminate.
Qed.

End Facts.

End DictFacts.

Lemma Z_eqb_eq (a b : Z) : (a =? b)%Z = true <-> a = b.
Proof. apply Z.eqb_eq. Qed.

Lemma pair_eqb_eq (a b : nat * nat) : pair_eqb a b = true <-> a = b.
Proof.
  destruct a as [a1 a2], b as [b1 b2]; unfold pair_eqb; simpl.
  rewrite andb_true_iff, !Nat.eqb_eq. split; [intros [-> ->]; reflexivity|].
  intros H; inversion H; auto.
Qed.

Lemma cell_eqb_eq (a b : Z * Z) : cell_eqb a b = true <-> a = b.
Proof.
  destruct a as [a1 a2], b as [b1 b2]; unfold cell_eqb; simpl.
  rewrite andb_true_iff, !Z.eqb_eq. split; [intros [-> ->]; reflexivity|].
  intros H; inversion H; auto.
Qed.

(** ** [sorted] is a stable sort *)

Module SortFacts.

Section Facts.
Variable A : Type.
Variable leb : A -> A -> bool.

Local Abbreviation le_of := (le_of leb).

Lemma insert_sorted_perm (x : A) (l : list A) :
  Permutation (insert_sorted leb x l) (x :: l).
Proof.
  induction l as [|y l IH]; simpl; [reflexivity|].
  destruct (leb x y); [reflexivity|].
  rewrite IH. apply perm_swap.
Qed.

Lemma sorted_perm (l : list A) : Permutation (sorted leb l) l.
Proof.
  induction l as [|x l IH]; simpl; [reflexivity|].
  rewrite insert_sorted_perm, IH; reflexivity.
Qed.

(** Items that the order does not separate keep their relative order. *)
Lemma insert_sorted_filter (p : A -> bool) (x : A) (l : list A) :
  (forall a b, p a = true -> p b = true -> leb a b = true) ->
  filter p (insert_sorted leb x l) = filter p (x :: l).
Proof.
  intros Hp; induction l as [|y l IH]; simpl; [reflexivity|].
  destruct (leb x y) eqn:E; [reflexivity|].
  simpl in *. rewrite IH.
  destruct (p x) eqn:Ex, (p y) eqn:Ey; try reflexivity.
  rewrite (Hp x y Ex Ey) in E; discriminate.
Qed.

Lemma sorted_stable (p : A -> bool) (l : list A) :
  (forall a b, p a = true -> p b = true -> leb a b = true) ->
  filter p (sorted leb l) = filter p l.
Proof.
  intros Hp; induction l as [|x l IH]; simpl; [reflexivity|].
  rewrite insert_sorted_filter by assumption. simpl. rewrite IH; reflexivity.
Qed.

Lemma insert_sorted_not_nil (x : A) (l : list A) : insert_sorted leb x l <> [].
Proof. destruct l as [|y l]; simpl; [|destruct (leb x y)]; discriminate. Qed.

Lemma insert_sorted_last (x : A) (l : list A) :
  (forall y, In y l -> leb x y = false) -> insert_sorted leb x l = l ++ [x].
Proof.
  induction l as [|y l IH]; simpl; intros H; [reflexivity|].
  rewrite (H y) by auto. f_equal; auto.
Qed.

Lemma last_item_snoc (l : list A) (x : A) : last_item (l ++ [x]) = Ok x.
Proof.
  induction l as [|y l IH]; simpl; [reflexivity|].
  destruct (l ++ [x]) eqn:E; [destruct l; discriminate | exact IH].
Qed.

Lemma last_item_cons (y : A) (l : list A) :
  l <> [] -> last_item (y :: l) = last_item l.
Proof. destruct l; [congruence | reflexivity]. Qed.

Lemma last_item_In (l : list A) (e : A) : last_item l = Ok e -> In e l.
Proof.
  induction l as [|y l IH]; simpl; [discriminate|].
  destruct l as [|z l]; [intros H; inversion H; auto | auto].
Qed.

Lemma last_item_nil_iff (l : list A) : last_item l = Raise IndexError <-> l = [].
Proof.
  split; [|intros ->; reflexivity].
  induction l as [|y l IH]; [reflexivity|].
  destruct l as [|z l]; [discriminate|].
  intros H; apply IH in H; discriminate.
Qed.

Lemma last_item_split (l : list A) (e : A) :
  last_item l = Ok e -> exists l', l = l' ++ [e].
Proof.
  induction l as [|y l IH]; [discriminate|].
  destruct l as [|z l].
  - intros H; inversion H; subst. exists []; reflexivity.
  - intros H. rewrite last_item_cons in H by discriminate.
    destruct (IH H) as (l' & ->). exists (y :: l'); reflexivity.
Qed.

(** Inserting an item that is not above the last one keeps the last one. *)
Lemma last_item_insert_le (a e : A) (s : list A) :
  last_item s = Ok e -> leb a e = true ->
  last_item (insert_sorted leb a s) = Ok e.
Proof.
  induction s as [|y s IH]; [discriminate|].
  intros Hl Ha. destruct s as [|z s].
  - inversion Hl; subst. simpl. rewrite Ha. reflexivity.
  - rewrite last_item_cons in Hl by discriminate.
    change (insert_sorted leb a (y :: z :: s))
      with (if leb a y then a :: y :: z :: s else y :: insert_sorted leb a (z :: s)).
    destruct (leb a y).
    + rewrite !last_item_cons by discriminate. exact Hl.
    + rewrite last_item_cons by apply insert_sorted_not_nil. auto.
Qed.

Hypothesis leb_total : forall a b, leb a b = true \/ leb b a = true.
Hypothesis leb_trans : forall a b c, leb a b = true -> leb b c = true -> leb a c = true.

Lemma insert_sorted_sorted (x : A) (l : list A) :
  StronglySorted le_of l -> StronglySorted le_of (insert_sorted leb x l).
Proof.
  induction l as [|y l IH]; simpl; intros Hs.
  - repeat constructor.
  - inversion Hs as [|? ? Hs' Hall]; subst.
    destruct (leb x y) eqn:E.
    + constructor; [assumption|]. constructor; [exact E|].
      eapply Forall_impl; [|exact Hall]. intros z Hz. eapply leb_trans; eauto.
    + constructor; [auto|].
      rewrite Forall_forall in *. intros z Hz.
      apply (Permutation_in _ (insert_sorted_perm x l)) in Hz.
      destruct Hz as [<-|Hz]; [|auto].
      destruct (leb_total x y) as [H|H]; [congruence | exact H].
Qed.

Lemma sorted_sorted (l : list A) : StronglySorted le_of (sorted leb l).
Proof.
  induction l as [|x l IH]; simpl; [constructor | apply insert_sorted_sorted, IH].
Qed.

(** Sorting a list that is in order already changes nothing. *)
Lemma sorted_id (l : list A) : StronglySorted le_of l -> sorted leb l = l.
Proof.
  induction l as [|x l IH]; simpl; [reflexivity|].
  intros Hs; inversion Hs as [|? ? Hs' Hall]; subst.
  rewrite IH by assumption.
  destruct l as [|y l]; [reflexivity|].
  simpl. inversion Hall as [|? ? Hxy _]; subst.
  unfold le_of in Hxy; rewrite Hxy; reflexivity.
Qed.

End Facts.

End SortFacts.

(** ** The Delay Finder *)

Lemma fold_left_inv {S A : Type} (P : S -> Prop) (f : S -> A -> S) :
  (forall s x, P s -> P (f s x)) ->
  forall l s, P s -> P (fold_left f l s).
Proof.
  intros Hstep l; induction l as [|x l IH]; simpl; auto.
Qed.

(** A property that one iteration establishes and the others keep. *)
Lemma fold_left_reach {S A : Type} (P : S -> Prop) (f : S -> A -> S) (x0 : A) :
  (forall s x, P s -> P (f s x)) ->
  (forall s, P (f s x0)) ->
  forall l s, In x0 l -> P (fold_left f l s).
Proof.
  intros Hkeep Hx0 l; induction l as [|x l IH]; simpl; intros s Hin; [contradiction|].
  destruct Hin as [->|Hin]; [|auto].
  apply fold_left_inv; auto.
Qed.

(** Two loops over the same items that keep a relation between their states. *)
Lemma fold_left_rel {S T A : Type} (R : S -> T -> Prop)
  (f : S -> A -> S) (g : T -> A -> T) :
  (forall s t x, R s t -> R (f s x) (g t x)) ->
  forall l s t, R s t -> R (fold_left f l s) (fold_left g l t).
Proof.
  intros Hstep l; induction l as [|x l IH]; simpl; auto.
Qed.

Lemma StronglySorted_snoc {A : Type} (R : A -> A -> Prop) (l : list A) (e x : A) :
  StronglySorted R (l ++ [e]) -> In x l -> R x e.
Proof.
  induction l as [|y l IH]; simpl; [contradiction|].
  intros Hs Hin. inversion Hs as [|? ? Hs' Hall]; subst.
  destruct Hin as [->|Hin]; [|auto].
  rewrite Forall_forall in Hall. apply Hall, in_or_app; right; left; reflexivity.
Qed.

Lemma count_leb_total (a b : Z * nat) : count_leb a b = true \/ count_leb b a = true.
Proof. unfold count_leb; rewrite !Nat.leb_le; lia. Qed.

Lemma count_leb_trans (a b c : Z * nat) :
  count_leb a b = true -> count_leb b c = true -> count_leb a c = true.
Proof. unfold count_leb; rewrite !Nat.leb_le; lia. Qed.

(** Entries of the histogram with the same count are not separated by the
    order, so the sort keeps their relative order. *)
Lemma sorted_by_count_stable (l : histogram) (n : nat) :
  filter (fun e => (snd e =? n)%nat) (sorted count_leb l)
  = filter (fun e => (snd e =? n)%nat) l.
Proof.
  apply SortFacts.sorted_stable. intros a b Ha Hb.
  apply Nat.eqb_eq in Ha, Hb. unfold count_leb. apply Nat.leb_le. lia.
Qed.

(** The entry that a stable ascending sort puts last: the right-most entry
    of maximal count. *)
Lemma winner_exists (l : histogram) :
  l <> [] ->
  exists l1 e l2, l = l1 ++ e :: l2
    /\ (forall e', In e' l1 -> (snd e' <= snd e)%nat)
    /\ (forall e', In e' l2 -> (snd e' < snd e)%nat).
Proof.
  induction l as [|a l IH]; [congruence|]. intros _.
  destruct l as [|b l].
  - exists [], a, []; simpl; repeat split; intros ? [].
  - destruct IH as (l1 & e & l2 & Heq & H1 & H2); [discriminate|].
    destruct (le_lt_dec (snd a) (snd e)) as [Hle|Hlt].
    + exists (a :: l1), e, l2. rewrite Heq. repeat split; auto.
      intros e' [<-|He']; auto.
    + exists [], a, (b :: l). repeat split; [intros ? []|].
      intros e' He'. rewrite Heq in He'. apply in_app_or in He'.
      destruct He' as [He'|[<-|He']].
      * specialize (H1 _ He'); lia.
      * exact Hlt.
      * specialize (H2 _ He'); lia.
Qed.

Lemma winner_last (l1 l2 : histogram) (e : Z * nat) :
  (forall e', In e' l1 -> (snd e' <= snd e)%nat) ->
  (forall e', In e' l2 -> (snd e' < snd e)%nat) ->
  last_item (sorted count_leb (l1 ++ e :: l2)) = Ok e.
Proof.
  intros H1 H2. induction l1 as [|a l1 IH]; simpl.
  - rewrite SortFacts.insert_sorted_last; [apply SortFacts.last_item_snoc|].
    intros y Hy. apply (Permutation_in _ (SortFacts.sorted_perm count_leb l2)) in Hy.
    specialize (H2 _ Hy). unfold count_leb. apply Nat.leb_gt. exact H2.
  - apply SortFacts.last_item_insert_le.
    + apply IH. intros e' He'; apply H1; right; exact He'.
    + unfold count_leb. apply Nat.leb_le. apply H1; left; reflexivity.
Qed.

(** Any stable ascending sort of the histogram ends with that entry. *)
Lemma stable_sort_last (l1 l2 s : histogram) (e : Z * nat) :
  (forall e', In e' l1 -> (snd e' <= snd e)%nat) ->
  (forall e', In e' l2 -> (snd e' < snd e)%nat) ->
  Permutation s (l1 ++ e :: l2) ->
  StronglySorted (le_of count_leb) s ->
  (forall n, filter (fun x => (snd x =? n)%nat) s
             = filter (fun x => (snd x =? n)%nat) (l1 ++ e :: l2)) ->
  last_item s = Ok e.
Proof.
  intros H1 H2 Hperm Hsorted Hstable.
  destruct (last_item s) as [e'|ex] eqn:Hlast.
  - destruct (SortFacts.last_item_split _ Hlast) as (s' & ->).
    assert (He'in : In e' (l1 ++ e :: l2)).
    { apply (Permutation_in _ Hperm), in_or_app; right; left; reflexivity. }
    assert (Hle : (snd e' <= snd e)%nat).
    { apply in_app_or in He'in. destruct He'in as [H|[<-|H]]; auto.
      specialize (H2 _ H); lia. }
    assert (Hein : In e (s' ++ [e'])).
    { apply (Permutation_in _ (Permutation_sym Hperm)), in_or_app; right; left; reflexivity. }
    assert (Hge : (snd e <= snd e')%nat).
    { apply in_app_or in Hein. destruct Hein as [H|[<-|[]]]; [|lia].
      pose proof (@StronglySorted_snoc _ _ _ _ _ Hsorted H) as Hr.
      unfold le_of, count_leb in Hr. apply Nat.leb_le in Hr. exact Hr. }
    specialize (Hstable (snd e)).
    rewrite !filter_app in Hstable. simpl in Hstable.
    rewrite Nat.eqb_refl in Hstable.
    replace (snd e' =? snd e)%nat with true in Hstable
      by (symmetry; apply Nat.eqb_eq; lia).
    assert (Hl2 : filter (fun x => (snd x =? snd e)%nat) l2 = []).
    { clear -H2. induction l2 as [|a l2 IH]; simpl; [reflexivity|].
      replace (snd a =? snd e)%nat with false.
      - apply IH. intros; apply H2; right; assumption.
      - symmetry; apply Nat.eqb_neq. specialize (H2 a (or_introl eq_refl)). lia. }
    rewrite Hl2 in Hstable.
    apply app_inj_tail in Hstable. destruct Hstable as [_ ->]. reflexivity.
  - exfalso. assert (s = []) as ->.
    { destruct s as [|a s]; [reflexivity|]. exfalso.
      clear -Hlast. revert a Hlast. induction s as [|b s IH]; intros a H; [discriminate|].
      rewrite SortFacts.last_item_cons in H by discriminate. eauto. }
    apply Permutation_nil in Hperm. destruct l1; discriminate.
Qed.

(** *** The histogram *)

Lemma add_vote_In (td : histogram) (delta d : Z) (inc c : nat) :
  In (d, c) (add_vote td delta inc) ->
  (d = delta /\ c = (Dict.get_default Z.eqb 0%nat td delta + inc)%nat) \/ In (d, c) td.
Proof. unfold add_vote. apply (DictFacts.In_set_inv _ Z_eqb_eq). Qed.

Lemma add_vote_keys (td : histogram) (delta d : Z) (inc : nat) :
  In d (Dict.keys (add_vote td delta inc)) <-> d = delta \/ In d (Dict.keys td).
Proof.
  unfold add_vote.
  destruct (Dict.contains Z.eqb td delta) eqn:E.
  - apply (DictFacts.contains_keys _ Z_eqb_eq) in E.
    rewrite (DictFacts.keys_set_in _ Z_eqb_eq) by assumption.
    split; [auto | intros [->|H]; auto].
  - assert (H : ~ In delta (Dict.keys td)).
    { intros H; apply (DictFacts.contains_keys _ Z_eqb_eq) in H; congruence. }
    rewrite (DictFacts.keys_set_notin _ Z_eqb_eq) by assumption.
    rewrite in_app_iff; simpl. intuition.
Qed.

Lemma add_vote_NoDup (td : histogram) (delta : Z) (inc : nat) :
  NoDup (Dict.keys td) -> NoDup (Dict.keys (add_vote td delta inc)).
Proof. apply (DictFacts.keys_set_NoDup _ Z_eqb_eq). Qed.

Lemma get_default_In (td : histogram) (d : Z) :
  Dict.get_default Z.eqb 0%nat td d = 0%nat
  \/ In (d, Dict.get_default Z.eqb 0%nat td d) td.
Proof.
  unfold Dict.get_default. destruct (Dict.get Z.eqb td d) eqn:E; [|auto].
  right. apply (DictFacts.get_Some_In _ Z_eqb_eq); exact E.
Qed.

Section HistogramFacts.

Variable set_iter : list Z -> list Z.
Variables freqs_dict_orig freqs_dict_sample : signature.
Variables min_delay max_delay : option Q.

Local Abbreviation keys := (common_keys set_iter freqs_dict_orig freqs_dict_sample).
Local Abbreviation t_diffs :=
  (t_diffs_of set_iter freqs_dict_orig freqs_dict_sample min_delay max_delay).

(** A property of the histogram that every vote keeps holds in the end. *)
Lemma t_diffs_inv (P : histogram -> Prop) :
  (forall td x_i x_j, P td -> P (vote min_delay max_delay x_i td x_j)) ->
  P Dict.empty -> P t_diffs.
Proof.
  intros Hvote H0. unfold t_diffs_of.
  apply fold_left_inv; [|exact H0].
  intros td key Htd. unfold vote_key.
  apply fold_left_inv; [|exact Htd].
  intros td' x_i Htd'. apply fold_left_inv; auto.
Qed.

Lemma t_diffs_NoDup : NoDup (Dict.keys t_diffs).
Proof.
  apply t_diffs_inv; [|constructor].
  intros td x_i x_j H. apply add_vote_NoDup; exact H.
Qed.

(** Every delta of the histogram is a difference of a sample time and a
    reference time under a common key. *)
Lemma t_diffs_sound (d : Z) :
  In d (Dict.keys t_diffs) ->
  exists key x_i x_j,
    In key keys /\ In x_i (sig_get freqs_dict_sample key)
    /\ In x_j (sig_get freqs_dict_orig key) /\ d = (x_i - x_j)%Z.
Proof.
  unfold t_diffs_of.
  set (P := fun ks (td : histogram) =>
    forall d, In d (Dict.keys td) ->
    exists key x_i x_j,
      In key ks /\ In x_i (sig_get freqs_dict_sample key)
      /\ In x_j (sig_get freqs_dict_orig key) /\ d = (x_i - x_j)%Z).
  assert (Hgen : forall ks td, (forall k, In k ks -> In k keys) -> P keys td ->
            P keys (fold_left
              (vote_key (vote min_delay max_delay) freqs_dict_orig freqs_dict_sample)
              ks td)).
  { induction ks as [|key ks IH]; intros td Hsub Htd; simpl; [exact Htd|].
    apply IH; [intros; apply Hsub; right; assumption|].
    unfold vote_key.
    assert (Hin : forall xs td0, (forall x, In x xs -> In x (sig_get freqs_dict_sample key)) ->
              P keys td0 ->
              P keys (fold_left
                (fun td1 x_i => fold_left (vote min_delay max_delay x_i)
                                  (sig_get freqs_dict_orig key) td1) xs td0)).
    { induction xs as [|x_i xs IHx]; intros td0 Hxs Htd0; simpl; [exact Htd0|].
      apply IHx; [intros; apply Hxs; right; assumption|].
      assert (Hin2 : forall ys td1, (forall y, In y ys -> In y (sig_get freqs_dict_orig key)) ->
                P keys td1 -> P keys (fold_left (vote min_delay max_delay x_i) ys td1)).
      { induction ys as [|x_j ys IHy]; intros td1 Hys Htd1; simpl; [exact Htd1|].
        apply IHy; [intros; apply Hys; right; assumption|].
        intros d0 Hd0. unfold vote in Hd0. apply add_vote_keys in Hd0.
        destruct Hd0 as [->|Hd0]; [|apply Htd1; exact Hd0].
        exists key, x_i, x_j. repeat split.
        - apply Hsub; left; reflexivity.
        - apply Hxs; left; reflexivity.
        - apply Hys; left; reflexivity. }
      apply Hin2; auto. }
    apply Hin; auto. }
  intros Hd. apply (Hgen keys Dict.empty); auto.
  intros d0 [].
Qed.

(** Every such difference is a delta of the histogram. *)
Lemma t_diffs_complete (key x_i x_j : Z) :
  In key keys -> In x_i (sig_get freqs_dict_sample key) ->
  In x_j (sig_get freqs_dict_orig key) ->
  In (x_i - x_j)%Z (Dict.keys t_diffs).
Proof.
  intros Hkey Hxi Hxj. unfold t_diffs_of.
  set (P := fun td : histogram => In (x_i - x_j)%Z (Dict.keys td)).
  assert (Hvote : forall td a b, P td -> P (vote min_delay max_delay a td b)).
  { intros td a b H. unfold P, vote. apply add_vote_keys; right; exact H. }
  apply (fold_left_reach P) with (x0 := key); [| |exact Hkey].
  - intros td k H. unfold vote_key.
    apply fold_left_inv; [|exact H].
    intros td' a H'. apply fold_left_inv; auto.
  - intros td. unfold vote_key.
    apply (fold_left_reach P) with (x0 := x_i); [| |exact Hxi].
    + intros td' a H'. apply fold_left_inv; auto.
    + intros td'. apply (fold_left_reach P) with (x0 := x_j); [auto| |exact Hxj].
      intros td''. unfold P, vote. apply add_vote_keys; left; reflexivity.
Qed.

(** A delta within the bounds has at least one vote, a delta outside has
    none. *)
Lemma t_diffs_counts (d : Z) (c : nat) :
  In (d, c) t_diffs ->
  if in_bounds min_delay max_delay d then (1 <= c)%nat else c = 0%nat.
Proof.
  revert d c.
  apply (t_diffs_inv (fun td : histogram => forall d c, In (d, c) td ->
           if in_bounds min_delay max_delay d then (1 <= c)%nat else c = 0%nat));
    [|intros d c []].
  intros td x_i x_j Htd d c Hin. unfold vote in Hin.
  apply add_vote_In in Hin. destruct Hin as [[-> ->]|Hin]; [|exact (Htd _ _ Hin)].
  destruct (in_bounds min_delay max_delay (x_i - x_j)) eqn:E; [lia|].
  destruct (get_default_In td (x_i - x_j)) as [H|H]; [lia|].
  specialize (Htd _ _ H). rewrite E in Htd. lia.
Qed.

End HistogramFacts.

(** *** Selection *)

Lemma last_item_Raise {A : Type} (l : list A) (e : exn) :
  last_item l = Raise e -> e = IndexError /\ l = [].
Proof.
  induction l as [|a l IH]; simpl.
  - intros H; inversion H; auto.
  - destruct l as [|b l]; [discriminate|].
    intros H; destruct (IH H) as [_ ?]; discriminate.
Qed.

Section DelayFinderFacts.

Variable set_iter : list Z -> list Z.
Variables freqs_dict_orig freqs_dict_sample : signature.
Variables min_delay max_delay : option Q.

Local Abbreviation keys := (common_keys set_iter freqs_dict_orig freqs_dict_sample).
Local Abbreviation t_diffs :=
  (t_diffs_of set_iter freqs_dict_orig freqs_dict_sample min_delay max_delay).
Local Abbreviation find_delay :=
  (_find_delay set_iter freqs_dict_orig freqs_dict_sample min_delay max_delay).

(** What [_find_delay] returns: the right-most entry of maximal count of a
    histogram that is not empty. *)
Lemma find_delay_Ok_iff (d : Z) :
  find_delay = Ok d <->
  keys <> [] /\
  exists c l1 l2, t_diffs = l1 ++ (d, c) :: l2
    /\ (forall e', In e' l1 -> (snd e' <= c)%nat)
    /\ (forall e', In e' l2 -> (snd e' < c)%nat).
Proof.
  unfold _find_delay. split.
  - destruct keys as [|k ks] eqn:Ek; [discriminate|].
    intros H. split; [discriminate|].
    apply bind_Ok_inv in H as (entry & Hlast & Hd). inversion Hd; subst; clear Hd.
    destruct (winner_exists (l := t_diffs)) as (l1 & e & l2 & Heq & H1 & H2).
    { intros E. rewrite E in Hlast. discriminate. }
    rewrite Heq in Hlast. rewrite (winner_last l1 l2 e H1 H2) in Hlast.
    inversion Hlast; subst. destruct entry as [d c]. exists c, l1, l2. auto.
  - intros (Hk & c & l1 & l2 & Heq & H1 & H2).
    destruct keys as [|k ks] eqn:Ek; [congruence|].
    rewrite Heq, (winner_last l1 l2 (d, c) H1 H2). reflexivity.
Qed.

(** When the histogram is empty the last-element indexing fails. *)
Lemma find_delay_empty_histogram :
  keys <> [] -> t_diffs = [] -> find_delay = Raise IndexError.
Proof.
  intros Hk Ht. unfold _find_delay.
  destruct keys; [congruence|]. rewrite Ht. reflexivity.
Qed.

Lemma find_delay_histogram_nonempty :
  keys <> [] -> t_diffs <> [] -> exists d, find_delay = Ok d.
Proof.
  intros Hk Ht.
  destruct (winner_exists Ht) as (l1 & [d c] & l2 & Heq & H1 & H2).
  exists d. apply find_delay_Ok_iff. split; [exact Hk|].
  exists c, l1, l2. auto.
Qed.

Hypothesis set_iter_In : forall l k, In k (set_iter l) <-> In k l.

Lemma common_keys_In (k : Z) :
  In k keys <-> In k (Dict.keys freqs_dict_sample) /\ In k (Dict.keys freqs_dict_orig).
Proof.
  unfold common_keys. rewrite set_iter_In, filter_In.
  rewrite (DictFacts.contains_keys _ Z_eqb_eq). reflexivity.
Qed.

(** The "no correlation" error is raised exactly when no key is common. *)
Lemma find_delay_NoCorrelation_iff :
  find_delay = Raise NoCorrelation <->
  (forall k, ~ (In k (Dict.keys freqs_dict_sample) /\ In k (Dict.keys freqs_dict_orig))).
Proof.
  split.
  - intros H k Hk. apply common_keys_In in Hk.
    unfold _find_delay in H. destruct keys as [|k0 ks]; [contradiction|].
    destruct (last_item (sorted count_leb t_diffs)) as [e|ex] eqn:E; simpl in H.
    + discriminate.
    + apply last_item_Raise in E. destruct E as [-> _]. discriminate.
  - intros H. unfold _find_delay. destruct keys as [|k ks] eqn:E; [reflexivity|].
    exfalso. apply (H k). apply common_keys_In. rewrite E; left; reflexivity.
Qed.

End DelayFinderFacts.

(** *** The variant that skips deltas outside the bounds *)

Section SkipFacts.

Variable p : Z -> bool.

Local Abbreviation keep := (fun e : Z * nat => p (fst e)).

Lemma filter_set_true (d : histogram) (k : Z) (v : nat) :
  p k = true ->
  filter keep (Dict.set Z.eqb d k v) = Dict.set Z.eqb (filter keep d) k v.
Proof.
  intros Hk; induction d as [|[k' v'] d IH]; simpl.
  - rewrite Hk; reflexivity.
  - destruct (Z.eqb_spec k k') as [<-|Hne]; simpl.
    + rewrite Hk. simpl. rewrite Z.eqb_refl. reflexivity.
    + destruct (p k') eqn:Ek'; simpl; [|exact IH].
      apply Z.eqb_neq in Hne. rewrite Hne, IH. reflexivity.
Qed.

Lemma filter_set_false (d : histogram) (k : Z) (v : nat) :
  p k = false -> filter keep (Dict.set Z.eqb d k v) = filter keep d.
Proof.
  intros Hk; induction d as [|[k' v'] d IH]; simpl.
  - rewrite Hk; reflexivity.
  - destruct (Z.eqb_spec k k') as [<-|Hne]; simpl.
    + rewrite Hk. reflexivity.
    + rewrite IH. reflexivity.
Qed.

Lemma get_filter_true (d : histogram) (k : Z) :
  p k = true -> Dict.get Z.eqb (filter keep d) k = Dict.get Z.eqb d k.
Proof.
  intros Hk; induction d as [|[k' v'] d IH]; simpl; [reflexivity|].
  destruct (Z.eqb_spec k k') as [<-|Hne]; simpl.
  - rewrite Hk. simpl. rewrite Z.eqb_refl. reflexivity.
  - destruct (p k'); simpl; [|exact IH].
    apply Z.eqb_neq in Hne. rewrite Hne. exact IH.
Qed.

End SkipFacts.

Section SkipVariant.

Variable set_iter : list Z -> list Z.
Variables freqs_dict_orig freqs_dict_sample : signature.
Variables min_delay max_delay : option Q.

Local Abbreviation keys := (common_keys set_iter freqs_dict_orig freqs_dict_sample).
Local Abbreviation t_diffs :=
  (t_diffs_of set_iter freqs_dict_orig freqs_dict_sample min_delay max_delay).
Local Abbreviation keep := (fun e : Z * nat => in_bounds min_delay max_delay (fst e)).

(** The histogram of the skipping variant consists of the entries of
    [t_diffs] whose delta is within the bounds, in the same order. *)
Lemma t_diffs_skip_filter :
  t_diffs_skip set_iter freqs_dict_orig freqs_dict_sample min_delay max_delay
  = filter keep t_diffs.
Proof.
  unfold t_diffs_skip, t_diffs_of.
  apply (fold_left_rel (fun (td : histogram) (ts : histogram) => ts = filter keep td)
           _ (vote_key (vote_skip min_delay max_delay) freqs_dict_orig freqs_dict_sample));
    [|reflexivity].
  intros td ts key ->. unfold vote_key.
  apply (fold_left_rel (fun (td : histogram) (ts : histogram) => ts = filter keep td)
           _ (fun t x_i => fold_left (vote_skip min_delay max_delay x_i)
                                (sig_get freqs_dict_orig key) t));
    [|reflexivity].
  intros td' ts' x_i ->.
  apply (fold_left_rel (fun (td : histogram) (ts : histogram) => ts = filter keep td)
           _ (vote_skip min_delay max_delay x_i));
    [|reflexivity].
  intros td'' ts'' x_j ->. unfold vote, vote_skip, add_vote.
  destruct (in_bounds min_delay max_delay (x_i - x_j)) eqn:E.
  - rewrite (filter_set_true (in_bounds min_delay max_delay)) by exact E.
    unfold Dict.get_default.
    rewrite (get_filter_true (in_bounds min_delay max_delay)) by exact E. reflexivity.
  - rewrite (filter_set_false (in_bounds min_delay max_delay)) by exact E. reflexivity.
Qed.

(** Without any difference within the bounds, the skipping variant has
    nothing to select from. *)
Lemma find_delay_skip_none_in_bounds :
  keys <> [] ->
  (forall d, In d (Dict.keys t_diffs) -> in_bounds min_delay max_delay d = false) ->
  find_delay_skip set_iter freqs_dict_orig freqs_dict_sample min_delay max_delay
  = Raise IndexError.
Proof.
  intros Hk Hall. unfold find_delay_skip.
  destruct keys; [congruence|].
  rewrite t_diffs_skip_filter.
  replace (filter keep t_diffs) with (@nil (Z * nat)); [reflexivity|].
  symmetry. revert Hall. generalize t_diffs. intros h Hh.
  induction h as [|[d c] h IH]; simpl; [reflexivity|].
  rewrite (Hh d) by (left; reflexivity).
  apply IH. intros d' Hd'. apply Hh. right; exact Hd'.
Qed.

End SkipVariant.

(** *** Totality on signatures without empty time lists *)

(** No key of the signature maps to an empty list of times. *)
Lemma sig_get_nonempty (fd : signature) (k : Z) :
  (forall key l, Dict.get Z.eqb fd key = Some l -> l <> []) ->
  In k (Dict.keys fd) -> exists x, In x (sig_get fd k).
Proof.
  intros Hne Hk. unfold sig_get, Dict.get_default.
  destruct (Dict.get Z.eqb fd k) as [l|] eqn:E.
  - specialize (Hne _ _ E). destruct l as [|x l]; [congruence|].
    exists x; left; reflexivity.
  - apply (DictFacts.get_None_keys _ Z_eqb_eq) in E. contradiction.
Qed.

Lemma find_delay_total_nonempty (set_iter : list Z -> list Z)
  (freqs_dict_orig freqs_dict_sample : signature) (min_delay max_delay : option Q) :
  (forall l k, In k (set_iter l) <-> In k l) ->
  (forall key l, Dict.get Z.eqb freqs_dict_orig key = Some l -> l <> []) ->
  (forall key l, Dict.get Z.eqb freqs_dict_sample key = Some l -> l <> []) ->
  (exists k, In k (Dict.keys freqs_dict_sample) /\ In k (Dict.keys freqs_dict_orig)) ->
  let t_diffs := t_diffs_of set_iter freqs_dict_orig freqs_dict_sample min_delay max_delay in
  exists d c,
    _find_delay set_iter freqs_dict_orig freqs_dict_sample min_delay max_delay = Ok d
    /\ t_diffs <> []
    /\ Dict.get Z.eqb t_diffs d = Some c
    /\ (exists key x_i x_j,
          In key (Dict.keys freqs_dict_sample) /\ In key (Dict.keys freqs_dict_orig)
          /\ In x_i (sig_get freqs_dict_sample key)
          /\ In x_j (sig_get freqs_dict_orig key)
          /\ d = (x_i - x_j)%Z)
    /\ (in_bounds min_delay max_delay d = false -> c = 0%nat)
    /\ ((forall key x_i x_j,
           In key (Dict.keys freqs_dict_sample) -> In key (Dict.keys freqs_dict_orig) ->
           In x_i (sig_get freqs_dict_sample key) ->
           In x_j (sig_get freqs_dict_orig key) ->
           in_bounds min_delay max_delay (x_i - x_j) = false) ->
        in_bounds min_delay max_delay d = false /\ c = 0%nat).
Proof.
  intros Hset Horig Hsample (k & Hks & Hko) t_diffs.
  assert (Hk : In k (common_keys set_iter freqs_dict_orig freqs_dict_sample)).
  { apply common_keys_In; auto. }
  destruct (sig_get_nonempty _ _ Hsample Hks) as (x_i & Hxi).
  destruct (sig_get_nonempty _ _ Horig Hko) as (x_j & Hxj).
  pose proof (t_diffs_complete set_iter freqs_dict_orig freqs_dict_sample
                min_delay max_delay k x_i x_j Hk Hxi Hxj) as Hin.
  fold t_diffs in Hin.
  assert (Hne : t_diffs <> []) by (intros E; rewrite E in Hin; exact Hin).
  assert (Hkeys : common_keys set_iter freqs_dict_orig freqs_dict_sample <> [])
    by (intros E; rewrite E in Hk; exact Hk).
  destruct (find_delay_histogram_nonempty _ _ _ min_delay max_delay Hkeys Hne) as (d & Hd).
  pose proof Hd as Hd'. apply find_delay_Ok_iff in Hd'.
  destruct Hd' as (_ & c & l1 & l2 & Heq & _ & _).
  assert (Hdc : In (d, c) t_diffs).
  { unfold t_diffs. rewrite Heq. apply in_or_app; right; left; reflexivity. }
  pose proof (t_diffs_counts _ _ _ _ _ _ _ Hdc) as Hcount.
  assert (Hsound : exists key x_i x_j,
            In key (Dict.keys freqs_dict_sample) /\ In key (Dict.keys freqs_dict_orig)
            /\ In x_i (sig_get freqs_dict_sample key)
            /\ In x_j (sig_get freqs_dict_orig key)
            /\ d = (x_i - x_j)%Z).
  { destruct (t_diffs_sound set_iter freqs_dict_orig freqs_dict_sample
                min_delay max_delay d) as (key & a & b & H1 & H2 & H3 & H4).
    - apply (in_map fst) in Hdc. exact Hdc.
    - apply common_keys_In in H1; [|exact Hset]. destruct H1.
      exists key, a, b. auto. }
  exists d, c.
  split; [exact Hd|]. split; [exact Hne|]. split.
  { apply (DictFacts.In_get_NoDup _ Z_eqb_eq); [apply t_diffs_NoDup | exact Hdc]. }
  split; [exact Hsound|]. split.
  { intros E. rewrite E in Hcount. exact Hcount. }
  intros H. destruct Hsound as (key & a & b & H1 & H2 & H3 & H4 & ->).
  rewrite (H key a b) in Hcount |- * by assumption. auto.
Qed.

(** *** Claims about the Delay Finder *)

(** C3: when [_find_delay] returns a delta, no delta of the histogram has
    more votes than it, and it is the delta of the entry that comes last in
    a stable ascending-by-count sort of the histogram entries: [sorted] is
    such a sort, and every such sort ends with that entry. *)
Theorem find_delay_max_votes_last_of_stable_sort
  (set_iter : list Z -> list Z) (freqs_dict_orig freqs_dict_sample : signature)
  (min_delay max_delay : option Q) (d : Z) :
  _find_delay set_iter freqs_dict_orig freqs_dict_sample min_delay max_delay = Ok d ->
  let t_diffs := t_diffs_of set_iter freqs_dict_orig freqs_dict_sample min_delay max_delay in
  let same_count := fun (n : nat) (e : Z * nat) => (snd e =? n)%nat in
  exists c,
    Dict.get Z.eqb t_diffs d = Some c
    /\ (forall d' c', Dict.get Z.eqb t_diffs d' = Some c' -> (c' <= c)%nat)
    /\ (Permutation (sorted count_leb t_diffs) t_diffs
        /\ StronglySorted (le_of count_leb) (sorted count_leb t_diffs)
        /\ forall n, filter (same_count n) (sorted count_leb t_diffs)
                     = filter (same_count n) t_diffs)
    /\ (forall s,
          Permutation s t_diffs ->
          StronglySorted (le_of count_leb) s ->
          (forall n, filter (same_count n) s = filter (same_count n) t_diffs) ->
          last_item s = Ok (d, c)).
Proof.
  intros Hd t_diffs same_count.
  apply find_delay_Ok_iff in Hd. destruct Hd as (_ & c & l1 & l2 & Heq & H1 & H2).
  fold t_diffs in Heq.
  assert (Hdc : In (d, c) t_diffs).
  { rewrite Heq. apply in_or_app; right; left; reflexivity. }
  exists c. split; [|split; [|split]].
  - apply (DictFacts.In_get_NoDup _ Z_eqb_eq); [apply t_diffs_NoDup | exact Hdc].
  - intros d' c' Hget. apply (DictFacts.get_Some_In _ Z_eqb_eq) in Hget.
    fold t_diffs in Hget. rewrite Heq in Hget. apply in_app_or in Hget.
    destruct Hget as [H|[H|H]].
    + apply (H1 _ H).
    + inversion H; subst; lia.
    + specialize (H2 _ H); simpl in H2; lia.
  - split; [apply SortFacts.sorted_perm|]. split.
    + apply SortFacts.sorted_sorted; [apply count_leb_total | apply count_leb_trans].
    + intros n. apply sorted_by_count_stable.
  - intros s Hperm Hsorted Hstable. rewrite Heq in Hperm.
    apply (stable_sort_last l1 l2 (d, c) H1 H2 Hperm Hsorted).
    intros n. rewrite <- Heq. apply Hstable.
Qed.

Lemma find_delay_max_votes_last_of_stable_sort_witness :
  _find_delay set_iter_first [(1, [0; 1])]%Z [(1, [5; 7])]%Z None None = Ok 6%Z
  /\ exists c,
       Dict.get Z.eqb (t_diffs_of set_iter_first [(1, [0; 1])]%Z [(1, [5; 7])]%Z None None) 6%Z
       = Some c.
Proof.
  split; [reflexivity|].
  destruct (@find_delay_max_votes_last_of_stable_sort set_iter_first
              [(1, [0; 1])]%Z [(1, [5; 7])]%Z None None 6%Z eq_refl) as (c & Hc & _).
  exists c. exact Hc.
Defined.

(** C8, as amended: when at least one difference [x_i - x_j] under a common
    key lies within the bounds, the variant that skips the deltas outside
    the bounds selects the same delta as [_find_delay]. *)
Theorem find_delay_skip_same_when_some_in_bounds
  (set_iter : list Z -> list Z) (freqs_dict_orig freqs_dict_sample : signature)
  (min_delay max_delay : option Q) :
  (exists key x_i x_j,
      In key (common_keys set_iter freqs_dict_orig freqs_dict_sample)
      /\ In x_i (sig_get freqs_dict_sample key)
      /\ In x_j (sig_get freqs_dict_orig key)
      /\ in_bounds min_delay max_delay (x_i - x_j) = true) ->
  find_delay_skip set_iter freqs_dict_orig freqs_dict_sample min_delay max_delay
  = _find_delay set_iter freqs_dict_orig freqs_dict_sample min_delay max_delay.
Proof.
  intros (key & x_i & x_j & Hkey & Hxi & Hxj & Hin).
  set (t_diffs := t_diffs_of set_iter freqs_dict_orig freqs_dict_sample min_delay max_delay).
  assert (Hkeys : common_keys set_iter freqs_dict_orig freqs_dict_sample <> [])
    by (intros E; rewrite E in Hkey; exact Hkey).
  pose proof (t_diffs_complete set_iter freqs_dict_orig freqs_dict_sample
                min_delay max_delay key x_i x_j Hkey Hxi Hxj) as Hmem.
  fold t_diffs in Hmem.
  apply in_map_iff in Hmem. destruct Hmem as ([d0 c0] & Hfst & Hmem). simpl in Hfst; subst d0.
  pose proof (t_diffs_counts _ _ _ _ _ _ _ Hmem) as Hc0. rewrite Hin in Hc0.
  destruct (winner_exists (l := t_diffs)) as (l1 & [d c] & l2 & Heq & H1 & H2).
  { intros E. rewrite E in Hmem. exact Hmem. }
  simpl in H1, H2.
  assert (Hc : (1 <= c)%nat).
  { rewrite Heq in Hmem. apply in_app_or in Hmem. destruct Hmem as [H|[H|H]].
    - specialize (H1 _ H); simpl in H1; lia.
    - inversion H; subst; lia.
    - specialize (H2 _ H); simpl in H2; lia. }
  assert (Hd : in_bounds min_delay max_delay d = true).
  { assert (Hdc : In (d, c) t_diffs)
      by (rewrite Heq; apply in_or_app; right; left; reflexivity).
    pose proof (t_diffs_counts _ _ _ _ _ _ _ Hdc) as Hcount.
    destruct (in_bounds min_delay max_delay d); [reflexivity | lia]. }
  assert (Hcode : _find_delay set_iter freqs_dict_orig freqs_dict_sample
                    min_delay max_delay = Ok d).
  { apply find_delay_Ok_iff. split; [exact Hkeys|]. exists c, l1, l2. auto. }
  rewrite Hcode. unfold find_delay_skip.
  destruct (common_keys set_iter freqs_dict_orig freqs_dict_sample); [congruence|].
  rewrite t_diffs_skip_filter. fold t_diffs. rewrite Heq.
  rewrite filter_app. simpl. rewrite Hd.
  rewrite winner_last; [reflexivity| |].
  - intros e' He'. apply filter_In in He'. apply H1, He'.
  - intros e' He'. apply filter_In in He'. apply H2, He'.
Qed.

Lemma find_delay_skip_same_when_some_in_bounds_witness :
  (exists key x_i x_j,
      In key (common_keys set_iter_first [(1, [0; 1])]%Z [(1, [5; 7])]%Z)
      /\ In x_i (sig_get [(1, [5; 7])]%Z key)
      /\ In x_j (sig_get [(1, [0; 1])]%Z key)
      /\ in_bounds (Some (5 # 1)) None (x_i - x_j) = true)
  /\ find_delay_skip set_iter_first [(1, [0; 1])]%Z [(1, [5; 7])]%Z (Some (5 # 1)) None
     = _find_delay set_iter_first [(1, [0; 1])]%Z [(1, [5; 7])]%Z (Some (5 # 1)) None.
Proof.
  assert (H : exists key x_i x_j,
      In key (common_keys set_iter_first [(1, [0; 1])]%Z [(1, [5; 7])]%Z)
      /\ In x_i (sig_get [(1, [5; 7])]%Z key)
      /\ In x_j (sig_get [(1, [0; 1])]%Z key)
      /\ in_bounds (Some (5 # 1)) None (x_i - x_j) = true).
  { exists 1%Z, 7%Z, 1%Z. simpl. repeat split; auto. }
  split; [exact H|].
  exact (find_delay_skip_same_when_some_in_bounds set_iter_first
           [(1, [0; 1])]%Z [(1, [5; 7])]%Z (Some (5 # 1)) None H).
Defined.

(** C8 as stated fails: one common key whose only difference, 5, is below
    the lower bound 10.  [_find_delay] returns 5 with zero votes, the
    skipping variant finds its histogram empty. *)
Lemma find_delay_skip_differs_when_none_in_bounds :
  ~ (forall (freqs_dict_orig freqs_dict_sample : signature)
            (min_delay max_delay : option Q),
        common_keys set_iter_first freqs_dict_orig freqs_dict_sample <> [] ->
        find_delay_skip set_iter_first freqs_dict_orig freqs_dict_sample min_delay max_delay
        = _find_delay set_iter_first freqs_dict_orig freqs_dict_sample min_delay max_delay).
Proof.
  intros H.
  specialize (H [(1, [0])]%Z [(1, [5])]%Z (Some (10 # 1)) None).
  assert (Hk : common_keys set_iter_first [(1, [0])]%Z [(1, [5])]%Z <> [])
    by (vm_compute; discriminate).
  specialize (H Hk). vm_compute in H. discriminate.
Qed.

(** ** The Signature Extractor *)

(** *** The order on box entries *)

Lemma triple_ltb_spec (a b : triple) :
  triple_ltb a b = true <->
  let '(ia, xa, ya) := a in
  let '(ib, xb, yb) := b in
  (ia < ib)%Q \/ ((ia == ib)%Q /\ ((xa < xb)%Z \/ (xa = xb /\ (ya < yb)%Z))).
Proof.
  destruct a as [[ia xa] ya], b as [[ib xb] yb]. unfold triple_ltb.
  destruct (ia ?= ib)%Q eqn:Ei.
  - apply Qeq_alt in Ei.
    destruct (xa ?= xb)%Z eqn:Ex.
    + apply Z.compare_eq in Ex. rewrite Z.ltb_lt. split.
      * intros H. right. auto.
      * intros [H|[_ [H|[_ H]]]]; [lra | lia | exact H].
    + rewrite Z.compare_lt_iff in Ex. split; [auto|reflexivity].
    + rewrite Z.compare_gt_iff in Ex. split; [discriminate|].
      intros [H|[_ [H|[H _]]]]; [lra | lia | lia].
  - apply Qlt_alt in Ei. split; [auto | reflexivity].
  - apply Qgt_alt in Ei. split; [discriminate|].
    intros [H|[H _]]; lra.
Qed.

Lemma triple_ltb_irrefl (a : triple) : triple_ltb a a = false.
Proof.
  destruct (triple_ltb a a) eqn:E; [|reflexivity].
  apply triple_ltb_spec in E. destruct a as [[i x] y].
  destruct E as [H|[_ [H|[_ H]]]]; [lra | lia | lia].
Qed.

Lemma triple_ltb_trans (a b c : triple) :
  triple_ltb a b = true -> triple_ltb b c = true -> triple_ltb a c = true.
Proof.
  rewrite !triple_ltb_spec.
  destruct a as [[ia xa] ya], b as [[ib xb] yb], c as [[ic xc] yc].
  intros [H1|[H1 H1']] [H2|[H2 H2']].
  - left; lra.
  - left; lra.
  - left; lra.
  - right. split; [lra|]. lia.
Qed.

Lemma triple_eqb_refl (a : triple) : triple_eqb a a = true.
Proof.
  destruct a as [[i x] y]. unfold triple_eqb.
  rewrite !Z.eqb_refl, !andb_true_r. apply Qeq_bool_iff. reflexivity.
Qed.

Lemma triple_ltb_false_spec (a b : triple) :
  triple_ltb a b = false <->
  let '(ia, xa, ya) := a in
  let '(ib, xb, yb) := b in
  (ib < ia)%Q \/ ((ia == ib)%Q /\ ((xb < xa)%Z \/ (xa = xb /\ (yb <= ya)%Z))).
Proof.
  destruct a as [[ia xa] ya], b as [[ib xb] yb]. unfold triple_ltb.
  destruct (ia ?= ib)%Q eqn:Ei.
  - apply Qeq_alt in Ei.
    destruct (xa ?= xb)%Z eqn:Ex.
    + apply Z.compare_eq in Ex. rewrite Z.ltb_ge. split.
      * intros H. right. auto.
      * intros [H|[_ [H|[_ H]]]]; [lra | lia | exact H].
    + rewrite Z.compare_lt_iff in Ex. split; [discriminate|].
      intros [H|[_ [H|[H _]]]]; [lra | lia | lia].
    + rewrite Z.compare_gt_iff in Ex. split; [|reflexivity].
      intros _. right. split; [exact Ei|]. left; lia.
  - apply Qlt_alt in Ei. split; [discriminate|].
    intros [H|[H _]]; lra.
  - apply Qgt_alt in Ei. split; [auto | reflexivity].
Qed.

(** Items that are not below one another are ordered transitively. *)
Lemma triple_ltb_false_trans (a b c : triple) :
  triple_ltb a b = false -> triple_ltb b c = false -> triple_ltb a c = false.
Proof.
  rewrite !triple_ltb_false_spec.
  destruct a as [[ia xa] ya], b as [[ib xb] yb], c as [[ic xc] yc].
  intros [H1|[H1 H1']] [H2|[H2 H2']].
  - left; lra.
  - left; lra.
  - left; lra.
  - right. split; [lra|]. lia.
Qed.

(** [min] returns an item of the list below which the list has no item. *)
Lemma min_from_spec (l : list triple) (best : triple) :
  In (min_from best l) (best :: l)
  /\ forall t, In t (best :: l) -> triple_ltb t (min_from best l) = false.
Proof.
  revert best. induction l as [|u l IH]; intros best; simpl.
  - split; [auto|]. intros t [<-|[]]. apply triple_ltb_irrefl.
  - destruct (IH (if triple_ltb u best then u else best)) as [Hin Hmin].
    split.
    + destruct Hin as [Hin|Hin]; [|auto].
      destruct (triple_ltb u best); rewrite <- Hin; auto.
    + intros t [<-|[<-|Ht]].
      * destruct (triple_ltb u best) eqn:E.
        -- destruct (triple_ltb best (min_from u l)) eqn:E'; [|reflexivity].
           pose proof (triple_ltb_trans _ _ _ E E') as H.
           rewrite (Hmin u (or_introl eq_refl)) in H. discriminate.
        -- apply Hmin. left; reflexivity.
      * destruct (triple_ltb u best) eqn:E.
        -- apply Hmin. left; reflexivity.
        -- apply triple_ltb_false_trans with (b := best); [exact E|].
           apply Hmin. left; reflexivity.
      * apply Hmin. right; exact Ht.
Qed.

Lemma py_min_spec (l : list triple) :
  l <> [] ->
  exists m, py_min l = Ok m /\ In m l
            /\ forall t, In t l -> triple_ltb t m = false.
Proof.
  destruct l as [|t l]; [congruence|]. intros _.
  exists (min_from t l). split; [reflexivity|]. apply min_from_spec.
Qed.

Lemma list_remove_In (m : triple) (l : list triple) :
  In m l ->
  exists kept, list_remove m l = Ok kept
    /\ S (length kept) = length l
    /\ forall t, In t kept -> In t l.
Proof.
  induction l as [|t l IH]; simpl; [contradiction|].
  intros Hin. destruct (triple_eqb t m) eqn:E.
  - exists l. auto.
  - destruct IH as (kept & Hk & Hlen & Hsub).
    + destruct Hin as [->|Hin]; [|exact Hin].
      rewrite triple_eqb_refl in E. discriminate.
    + rewrite Hk. simpl. exists (t :: kept). simpl.
      split; [reflexivity|]. split; [lia|].
      intros t' [<-|Ht']; auto.
Qed.

(** *** One insertion into a box *)

Lemma get_default_box (boxes : boxes_t) (cell : Z * Z) :
  Dict.get_default cell_eqb [] boxes cell = []
  \/ In (cell, Dict.get_default cell_eqb [] boxes cell) boxes.
Proof.
  unfold Dict.get_default. destruct (Dict.get cell_eqb boxes cell) eqn:E; [|auto].
  right. apply (DictFacts.get_Some_In _ cell_eqb_eq); exact E.
Qed.

(** [box_append] does not raise.  It stores the old entries followed by the
    new one, without the minimum of these when they are more than
    [maxes_per_box]. *)
Lemma box_append_spec (maxes_per_box : Z) (boxes : boxes_t) (cell : Z * Z)
  (entry : triple) :
  (0 <= maxes_per_box)%Z ->
  boxes_bounded maxes_per_box boxes ->
  let appended := Dict.get_default cell_eqb [] boxes cell ++ [entry] in
  exists kept,
    box_append maxes_per_box boxes cell entry = Ok (Dict.set cell_eqb boxes cell kept)
    /\ (len kept <= maxes_per_box)%Z
    /\ (forall t, In t kept -> In t appended)
    /\ ((maxes_per_box < len appended)%Z ->
        exists m, py_min appended = Ok m
          /\ In m appended
          /\ (forall t, In t appended -> triple_ltb t m = false)
          /\ list_remove m appended = Ok kept
          /\ S (length kept) = length appended)
    /\ ((len appended <= maxes_per_box)%Z -> kept = appended).
Proof.
  intros HK Hb appended.
  assert (Hold : (len (Dict.get_default cell_eqb [] boxes cell) <= maxes_per_box)%Z).
  { destruct (get_default_box boxes cell) as [->|H]; [exact HK | exact (Hb _ _ H)]. }
  assert (Hlen : len appended = (len (Dict.get_default cell_eqb [] boxes cell) + 1)%Z).
  { unfold appended, len. rewrite length_app. simpl. lia. }
  unfold box_append. fold appended.
  destruct (maxes_per_box <? len appended)%Z eqn:E.
  - apply Z.ltb_lt in E.
    destruct (py_min_spec (l := appended)) as (m & Hm & Hin & Hmin).
    { unfold appended. destruct (Dict.get_default cell_eqb [] boxes cell); discriminate. }
    destruct (list_remove_In m appended Hin) as (kept & Hk & Hlk & Hsub).
    exists kept. rewrite Hm. simpl. rewrite Hk. simpl.
    split; [reflexivity|]. split; [unfold len in *; lia|]. split; [exact Hsub|].
    split; [|intros; lia].
    intros _. exists m. auto.
  - apply Z.ltb_ge in E. exists appended.
    split; [reflexivity|]. split; [exact E|]. split; [auto|].
    split; [intros; lia | reflexivity].
Qed.

Section BoxInvariant.

Variables box_height box_width maxes_per_box : Z.
Hypothesis K_nonneg : (0 <= maxes_per_box)%Z.

(** The entries of a box belong to its cell. *)
Local Abbreviation in_own_cell := (fun boxes : boxes_t =>
  forall cell l, In (cell, l) boxes ->
  forall i x y, In (i, x, y) l -> cell_of box_height box_width x y = cell).

Local Abbreviation box_inv := (fun boxes : boxes_t =>
  NoDup (Dict.keys boxes) /\ boxes_bounded maxes_per_box boxes /\ in_own_cell boxes).

Lemma box_inv_empty : box_inv Dict.empty.
Proof.
  split; [constructor|]. split; [intros cell l []|intros cell l []].
Qed.

Lemma box_append_inv (boxes boxes' : boxes_t) (i : Q) (x y : Z) :
  box_inv boxes ->
  box_append maxes_per_box boxes (cell_of box_height box_width x y) (i, x, y) = Ok boxes' ->
  box_inv boxes'.
Proof.
  intros (Hnd & Hb & Hc) Happ.
  destruct (@box_append_spec maxes_per_box boxes (cell_of box_height box_width x y)
              (i, x, y) K_nonneg Hb)
    as (kept & Heq & Hlen & Hsub & _).
  rewrite Heq in Happ. inversion Happ; subst boxes'; clear Happ.
  split; [apply (DictFacts.keys_set_NoDup _ cell_eqb_eq); exact Hnd|]. split.
  - intros c l Hin. apply (DictFacts.In_set_inv _ cell_eqb_eq) in Hin.
    destruct Hin as [[-> ->]|Hin]; [exact Hlen | exact (Hb _ _ Hin)].
  - intros c l Hin i' x' y' Ht. apply (DictFacts.In_set_inv _ cell_eqb_eq) in Hin.
    destruct Hin as [[-> ->]|Hin]; [|exact (Hc _ _ Hin _ _ _ Ht)].
    apply Hsub in Ht. apply in_app_or in Ht. destruct Ht as [Ht|[Ht|[]]].
    + destruct (get_default_box boxes (cell_of box_height box_width x y)) as [E|H].
      * rewrite E in Ht. contradiction.
      * exact (Hc _ _ H _ _ _ Ht).
    + inversion Ht; subst. reflexivity.
Qed.

Variable fft_abs : list Z -> list Q.

Lemma add_window_inv (boxes boxes' : boxes_t) (x : Z) (sample_data : list Z) :
  box_inv boxes ->
  add_window fft_abs box_height box_width maxes_per_box boxes x sample_data = Ok boxes' ->
  box_inv boxes'.
Proof.
  intros Hinv H. unfold add_window in H.
  apply bind_Ok_inv in H as (box_x & Hx & H).
  apply bind_Ok_inv in H as (ys & _ & H).
  unfold floordiv in Hx. destruct (box_width =? 0)%Z; [discriminate|].
  inversion Hx; subst box_x; clear Hx.
  refine (@for_each_inv _ _ box_inv _ _ _ _ _ Hinv H).
  intros bs y bs' Hbs Hstep.
  apply bind_Ok_inv in Hstep as (box_y & Hy & Hstep).
  unfold floordiv in Hy. destruct (box_height =? 0)%Z; [discriminate|].
  inversion Hy; subst box_y; clear Hy.
  eapply box_append_inv; [exact Hbs | exact Hstep].
Qed.

Lemma window_step_inv (data : list Z) (fft_bin_size : Z)
  (boxes boxes' : boxes_t) (xj : Z * Z) :
  box_inv boxes ->
  window_step fft_abs data fft_bin_size box_height box_width maxes_per_box boxes xj
  = Ok boxes' ->
  box_inv boxes'.
Proof.
  intros Hinv H. destruct xj as [x j]. unfold window_step in H.
  destruct (len (window_at data fft_bin_size j) =? fft_bin_size)%Z.
  - eapply add_window_inv; [exact Hinv | exact H].
  - inversion H; subst; exact Hinv.
Qed.

(** The invariant holds after any number of iterations of the main loop. *)
Lemma windows_inv (data : list Z) (fft_bin_size : Z) (xjs : list (Z * Z))
  (boxes : boxes_t) :
  for_each (window_step fft_abs data fft_bin_size box_height box_width maxes_per_box)
           xjs Dict.empty = Ok boxes ->
  box_inv boxes.
Proof.
  intros H.
  refine (@for_each_inv _ _ box_inv _ _ _ _ _ box_inv_empty H).
  intros s xj s' Hs Hstep. eapply window_step_inv; [exact Hs | exact Hstep].
Qed.

End BoxInvariant.

(** *** Flattening the boxes into the signature *)

Lemma filter_length_perm {A : Type} (f : A -> bool) (l l' : list A) :
  Permutation l l' -> length (filter f l) = length (filter f l').
Proof.
  induction 1 as [|x l l' _ IH|x y l|l l' l'' _ IH1 _ IH2]; simpl.
  - reflexivity.
  - destruct (f x); simpl; congruence.
  - destruct (f x), (f y); reflexivity.
  - congruence.
Qed.

Lemma sig_append_entries (fd : signature) (y x : Z) :
  Permutation (sig_entries (sig_append fd y x)) ((y, x) :: sig_entries fd).
Proof.
  unfold sig_append, sig_get, Dict.get_default.
  induction fd as [|[k l] fd IH]; simpl.
  - reflexivity.
  - destruct (Z.eqb_spec y k) as [->|Hne]; simpl.
    + rewrite map_app. simpl. rewrite <- app_assoc. simpl.
      symmetry. apply Permutation_middle.
    + unfold sig_entries in IH |- *. simpl.
      rewrite IH. simpl. symmetry. apply Permutation_middle.
Qed.

(** The [(y, x)] pairs of the entries of one box. *)
Local Abbreviation box_entries :=
  (fun box : (Z * Z) * list triple =>
     map (fun e : triple => (snd e, snd (fst e))) (snd box)).

Lemma flatten_boxes_entries (boxes : boxes_t) :
  Permutation (sig_entries (flatten_boxes boxes)) (flat_map box_entries boxes).
Proof.
  unfold flatten_boxes.
  assert (Hgen : forall bs fd,
    Permutation
      (sig_entries
         (fold_left
            (fun fd0 (box : (Z * Z) * list triple) =>
               fold_left (fun fd' (e : triple) => let '(_, x, y) := e in sig_append fd' y x)
                         (snd box) fd0) bs fd))
      (sig_entries fd ++ flat_map box_entries bs)).
  { induction bs as [|[c l] bs IH]; intros fd; simpl.
    - rewrite app_nil_r. reflexivity.
    - rewrite IH. rewrite app_assoc. apply Permutation_app_tail.
      clear IH. revert fd. induction l as [|[[i x] y] l IHl]; intros fd; simpl.
      + rewrite app_nil_r. reflexivity.
      + rewrite IHl. rewrite sig_append_entries. simpl.
        apply Permutation_middle. }
  apply (Hgen boxes Dict.empty).
Qed.

(** Every key of the flattened signature has at least one time. *)
Lemma flatten_boxes_nonempty (boxes : boxes_t) (k : Z) (l : list Z) :
  In (k, l) (flatten_boxes boxes) -> l <> [].
Proof.
  revert k l. unfold flatten_boxes.
  apply (fold_left_inv (fun fd : signature => forall k l, In (k, l) fd -> l <> []));
    [|intros k l []].
  intros fd box Hfd.
  apply (fold_left_inv (fun fd : signature => forall k l, In (k, l) fd -> l <> []));
    [|exact Hfd].
  intros fd' [[i x] y] Hfd' k l Hin. unfold sig_append in Hin.
  apply (DictFacts.In_set_inv _ Z_eqb_eq) in Hin.
  destruct Hin as [[_ ->]|Hin]; [|exact (Hfd' _ _ Hin)].
  destruct (sig_get fd' y); discriminate.
Qed.

Section CellCount.

Variables box_height box_width maxes_per_box : Z.
Variable cell : Z * Z.

Local Abbreviation of_cell :=
  (fun yx : Z * Z => cell_eqb (cell_of box_height box_width (snd yx) (fst yx)) cell).

Lemma other_cells_count (boxes : boxes_t) :
  (forall c l, In (c, l) boxes ->
     forall i x y, In (i, x, y) l -> cell_of box_height box_width x y = c) ->
  ~ In cell (Dict.keys boxes) ->
  filter of_cell (flat_map box_entries boxes) = [].
Proof.
  induction boxes as [|[c l] boxes IH]; simpl; intros Hown Hnot; [reflexivity|].
  unfold Dict.keys in Hnot, IH; simpl in Hnot.
  assert (Hc : c <> cell) by (intros E; apply Hnot; left; exact E).
  assert (Hrest : ~ In cell (map fst boxes)) by (intros E; apply Hnot; right; exact E).
  assert (Hl : forall i x y, In (i, x, y) l -> cell_of box_height box_width x y = c)
    by (apply Hown; left; reflexivity).
  rewrite filter_app, IH; [|intros c' l' H; apply Hown; right; exact H|exact Hrest].
  rewrite app_nil_r.
  clear -Hl Hc. induction l as [|[[i x] y] l IHl]; simpl; [reflexivity|].
  rewrite (Hl i x y) by (left; reflexivity).
  destruct (cell_eqb c cell) eqn:E; [apply cell_eqb_eq in E; contradiction|].
  apply IHl. intros; eapply Hl; right; eauto.
Qed.

Lemma cell_count_bound (boxes : boxes_t) :
  (0 <= maxes_per_box)%Z ->
  NoDup (Dict.keys boxes) ->
  boxes_bounded maxes_per_box boxes ->
  (forall c l, In (c, l) boxes ->
     forall i x y, In (i, x, y) l -> cell_of box_height box_width x y = c) ->
  (Z.of_nat (length (filter of_cell (flat_map box_entries boxes))) <= maxes_per_box)%Z.
Proof.
  intros HK. induction boxes as [|[c l] boxes IH]; simpl; intros Hnd Hb Hown; [exact HK|].
  unfold Dict.keys in Hnd; simpl in Hnd.
  inversion Hnd as [|? ? Hnot Hnd']; subst.
  rewrite filter_app, length_app.
  destruct (cell_eqb c cell) eqn:E.
  - apply cell_eqb_eq in E; subst c.
    rewrite other_cells_count;
      [|intros c' l' H; apply Hown; simpl; right; exact H|exact Hnot].
    simpl. rewrite Nat.add_0_r.
    pose proof (filter_length_le of_cell
                  (map (fun e : triple => (snd e, snd (fst e))) l)) as Hle.
    rewrite length_map in Hle.
    specialize (Hb cell l (or_introl eq_refl)). unfold len in Hb. lia.
  - replace (filter of_cell (map (fun e : triple => (snd e, snd (fst e))) l))
      with (@nil (Z * Z)).
    + simpl. apply IH; [exact Hnd'| |].
      * intros c' l' H; apply (Hb c' l'); simpl; right; exact H.
      * intros c' l' H; apply Hown; simpl; right; exact H.
    + symmetry.
      assert (Hl : forall i x y, In (i, x, y) l -> cell_of box_height box_width x y = c)
        by (apply Hown; left; reflexivity).
      clear -Hl E. induction l as [|[[i x] y] l IHl]; simpl; [reflexivity|].
      rewrite (Hl i x y) by (left; reflexivity). rewrite E.
      apply IHl. intros; eapply Hl; right; eauto.
Qed.

End CellCount.

(** *** The windows *)

Lemma range_count_spec (start stop step : Z) (i : nat) :
  (0 < step)%Z ->
  (i < Z.to_nat ((stop - start + step - 1) / step))%nat
  <-> (start + Z.of_nat i * step < stop)%Z.
Proof.
  intros Hs.
  set (q := ((stop - start + step - 1) / step)%Z).
  assert (Hq1 : (step * q <= stop - start + step - 1)%Z)
    by (apply Z.mul_div_le; exact Hs).
  assert (Hq2 : (stop - start + step - 1 < step * (q + 1))%Z).
  { pose proof (Z.mul_succ_div_gt (stop - start + step - 1) step Hs) as H.
    unfold Z.succ in H. exact H. }
  split; intros H.
  - assert (Z.of_nat i < q)%Z by lia. nia.
  - assert (Z.of_nat i < q)%Z by nia. lia.
Qed.

Lemma py_range_step_pos (start stop step : Z) :
  (0 < step)%Z ->
  py_range start stop step
  = Ok (map (fun i => (start + Z.of_nat i * step)%Z)
            (seq 0 (Z.to_nat ((stop - start + step - 1) / step)))).
Proof.
  intros Hs. unfold py_range.
  destruct (Z.eqb_spec step 0) as [E|_]; [lia|].
  destruct (Z.ltb_spec 0 step) as [_|E]; [reflexivity | lia].
Qed.

Lemma combine_map_same {A B C : Type} (f : A -> B) (g : A -> C) (l : list A) :
  combine (map f l) (map g l) = map (fun a => (f a, g a)) l.
Proof. induction l as [|a l IH]; simpl; [reflexivity | rewrite IH; reflexivity]. Qed.

Lemma enumerate_map_seq {A : Type} (f : nat -> A) (n : nat) :
  enumerate (map f (seq 0 n)) = map (fun i => (Z.of_nat i, f i)) (seq 0 n).
Proof.
  unfold enumerate. rewrite length_map, length_seq. apply combine_map_same.
Qed.

(** The loop of line 50 visits the windows [x = 0, 1, ...] whose start
    [-overlap + x * (fft_bin_size - overlap)] is below [len(data)]. *)
Lemma windows_spec (data : list Z) (fft_bin_size overlap : Z) :
  (0 <= overlap < fft_bin_size)%Z ->
  exists n,
    windows data fft_bin_size overlap
    = Ok (map (fun i => (Z.of_nat i,
                         window_at data fft_bin_size
                           (window_start fft_bin_size overlap (Z.of_nat i))))
              (seq 0 n))
    /\ forall i, (i < n)%nat
                 <-> (window_start fft_bin_size overlap (Z.of_nat i) < len data)%Z.
Proof.
  intros Ho.
  exists (Z.to_nat ((len data - - overlap + (fft_bin_size - overlap) - 1)
                    / (fft_bin_size - overlap))).
  split.
  - unfold windows. rewrite py_range_step_pos by lia. simpl.
    rewrite enumerate_map_seq, map_map. reflexivity.
  - intros i. unfold window_start. apply range_count_spec. lia.
Qed.

Lemma slice_index_nonneg (n i : Z) : (0 <= i)%Z -> slice_index n i = Z.min i n.
Proof.
  intros H. unfold slice_index. destruct (Z.ltb_spec i 0); [lia | reflexivity].
Qed.

(** A window is read from [max(0, j)] on: its start is moved to index 0,
    its length is not reduced for that. *)
Lemma window_at_clamped (data : list Z) (fft_bin_size j : Z) :
  (0 <= fft_bin_size)%Z ->
  window_at data fft_bin_size j
  = firstn (Z.to_nat fft_bin_size) (skipn (Z.to_nat (Z.max 0 j)) data).
Proof.
  intros Hf. unfold window_at, py_slice.
  rewrite !slice_index_nonneg by lia.
  set (a := Z.max 0 j). set (n := len data).
  destruct (Z.le_gt_cases n a) as [Hna|Hna].
  - rewrite !skipn_all2 by (unfold n, len in *; lia).
    rewrite !firstn_nil. reflexivity.
  - replace (Z.min a n) with a by lia.
    destruct (Z.le_gt_cases (a + fft_bin_size) n) as [Hb|Hb].
    + replace (Z.min (a + fft_bin_size) n - a)%Z with fft_bin_size by lia. reflexivity.
    + replace (Z.min (a + fft_bin_size) n - a)%Z with (n - a)%Z by lia.
      rewrite !firstn_all2; [reflexivity| |];
        rewrite length_skipn; unfold n, len in *; lia.
Qed.

Lemma window_at_len (data : list Z) (fft_bin_size j : Z) :
  (0 <= fft_bin_size)%Z ->
  len (window_at data fft_bin_size j)
  = Z.min fft_bin_size (Z.max 0 (len data - Z.max 0 j)).
Proof.
  intros Hf. rewrite window_at_clamped by exact Hf.
  unfold len. rewrite length_firstn, length_skipn. lia.
Qed.

(** A window is full exactly when [fft_bin_size] samples are left from its
    clamped start. *)
Lemma window_full_iff (data : list Z) (fft_bin_size j : Z) :
  (0 < fft_bin_size)%Z ->
  len (window_at data fft_bin_size j) = fft_bin_size
  <-> (Z.max 0 j + fft_bin_size <= len data)%Z.
Proof.
  intros Hf. rewrite window_at_len by lia. lia.
Qed.

Lemma for_each_filter_map {S A B : Type} (g : A -> B) (test : B -> bool)
  (body : S -> B -> result S) (l : list A) (s : S) :
  for_each (fun b a => if test (g a) then body b (g a) else Ok b) l s
  = for_each body (filter test (map g l)) s.
Proof.
  revert s; induction l as [|a l IH]; intros s; simpl; [reflexivity|].
  destruct (test (g a)); simpl.
  - destruct (body s (g a)); simpl; [apply IH | reflexivity].
  - apply IH.
Qed.

(** Only the full windows reach the FFT and the boxes. *)
Lemma boxes_of_full_windows (fft_abs : list Z -> list Q) (data : list Z)
  (fft_bin_size overlap box_height box_width maxes_per_box : Z) :
  boxes_of fft_abs data fft_bin_size overlap box_height box_width maxes_per_box
  = (fws <- full_windows data fft_bin_size overlap ;;
     for_each (fun boxes w =>
                 add_window fft_abs box_height box_width maxes_per_box
                            boxes (fst w) (snd w))
              fws Dict.empty).
Proof.
  unfold boxes_of, full_windows, windows.
  destruct (py_range (- overlap) (len data) (fft_bin_size - overlap)) as [js|e];
    simpl; [|reflexivity].
  rewrite <- for_each_filter_map.
  generalize (@Dict.empty (Z * Z) (list triple)). generalize (enumerate js).
  induction l as [|[x j] l IH]; intros s; simpl; [reflexivity|].
  destruct (len (window_at data fft_bin_size j) =? fft_bin_size)%Z; simpl.
  - destruct (add_window fft_abs box_height box_width maxes_per_box s x
                (window_at data fft_bin_size j)); simpl; [apply IH | reflexivity].
  - apply IH.
Qed.

(** With an overlap, the first window is the first [fft_bin_size] samples,
    and it is processed. *)
Lemma leading_window_full (data : list Z) (fft_bin_size overlap : Z) :
  (0 <= overlap < fft_bin_size)%Z ->
  (fft_bin_size <= len data)%Z ->
  exists fws,
    full_windows data fft_bin_size overlap = Ok fws
    /\ In (0%Z, firstn (Z.to_nat fft_bin_size) data) fws.
Proof.
  intros Ho Hlen.
  destruct (windows_spec data Ho) as (n & Hw & Hn).
  unfold full_windows. rewrite Hw. simpl. eexists; split; [reflexivity|].
  apply filter_In. split.
  - apply in_map_iff. exists 0%nat. split.
    + simpl. f_equal. rewrite window_at_clamped by lia.
      unfold window_start. replace (Z.max 0 (- overlap + 0 * (fft_bin_size - overlap)))
        with 0%Z by lia. reflexivity.
    + apply in_seq. split; [lia|]. simpl. apply Hn. unfold window_start. simpl. lia.
  - simpl. apply Z.eqb_eq. unfold len. rewrite length_firstn. unfold len in Hlen. lia.
Qed.

(** *** Claims about the Signature Extractor *)

Lemma mk_freq_trans_summary_boxes (fft_abs : list Z -> list Q) (data : list Z)
  (fft_bin_size overlap box_height box_width maxes_per_box : Z) (fd : signature) :
  _mk_freq_trans_summary fft_abs data fft_bin_size overlap
    box_height box_width maxes_per_box = Ok fd ->
  exists js boxes,
    py_range (- overlap) (len data) (fft_bin_size - overlap) = Ok js
    /\ for_each (window_step fft_abs data fft_bin_size box_height box_width maxes_per_box)
                (enumerate js) Dict.empty = Ok boxes
    /\ fd = flatten_boxes boxes.
Proof.
  unfold _mk_freq_trans_summary, boxes_of. intros H.
  apply bind_Ok_inv in H as (boxes & Hb & Hfd).
  apply bind_Ok_inv in Hb as (js & Hjs & Hb).
  inversion Hfd; subst. exists js, boxes. auto.
Qed.

(** Every key of an extracted signature has at least one time. *)
Lemma mk_freq_trans_summary_nonempty (fft_abs : list Z -> list Q) (data : list Z)
  (fft_bin_size overlap box_height box_width maxes_per_box : Z) (fd : signature) :
  _mk_freq_trans_summary fft_abs data fft_bin_size overlap
    box_height box_width maxes_per_box = Ok fd ->
  forall key l, Dict.get Z.eqb fd key = Some l -> l <> [].
Proof.
  intros H key l Hget.
  apply mk_freq_trans_summary_boxes in H as (js & boxes & _ & _ & ->).
  apply (DictFacts.get_Some_In _ Z_eqb_eq) in Hget.
  eapply flatten_boxes_nonempty; exact Hget.
Qed.

(** C6: with [0 <= maxes_per_box], no box ever holds more than
    [maxes_per_box] entries.  Each insertion keeps the bound, and when the
    appended box exceeds it, the entry removed is the minimum of the box in
    the lexicographic order of [(intensity, x, y)]; the bound holds after any
    number of iterations of the main loop; and the signature has at most
    [maxes_per_box] entries that come from any one cell. *)
Theorem boxes_hold_at_most_maxes_per_box
  (fft_abs : list Z -> list Q) (data : list Z)
  (fft_bin_size overlap box_height box_width maxes_per_box : Z) :
  (0 <= maxes_per_box)%Z ->
  (forall boxes cell entry,
      boxes_bounded maxes_per_box boxes ->
      let appended := Dict.get_default cell_eqb [] boxes cell ++ [entry] in
      exists kept,
        box_append maxes_per_box boxes cell entry
        = Ok (Dict.set cell_eqb boxes cell kept)
        /\ boxes_bounded maxes_per_box (Dict.set cell_eqb boxes cell kept)
        /\ ((maxes_per_box < len appended)%Z ->
            exists m, py_min appended = Ok m
              /\ In m appended
              /\ (forall t, In t appended -> triple_ltb t m = false)
              /\ list_remove m appended = Ok kept
              /\ S (length kept) = length appended)
        /\ ((len appended <= maxes_per_box)%Z -> kept = appended))
  /\ (forall js done rest boxes,
        py_range (- overlap) (len data) (fft_bin_size - overlap) = Ok js ->
        enumerate js = done ++ rest ->
        for_each (window_step fft_abs data fft_bin_size box_height box_width maxes_per_box)
                 done Dict.empty = Ok boxes ->
        boxes_bounded maxes_per_box boxes)
  /\ (forall fd,
        _mk_freq_trans_summary fft_abs data fft_bin_size overlap
          box_height box_width maxes_per_box = Ok fd ->
        forall cell,
          (Z.of_nat (entries_of_cell box_height box_width cell fd) <= maxes_per_box)%Z).
Proof.
  intros HK. split; [|split].
  - intros boxes cell entry Hb appended.
    destruct (@box_append_spec maxes_per_box boxes cell entry HK Hb)
      as (kept & Heq & Hlen & Hsub & Hover & Hfit).
    exists kept. split; [exact Heq|]. split; [|split; assumption].
    intros c l Hin. apply (DictFacts.In_set_inv _ cell_eqb_eq) in Hin.
    destruct Hin as [[-> ->]|Hin]; [exact Hlen | exact (Hb _ _ Hin)].
  - intros js done rest boxes _ _ Hrun.
    apply (windows_inv box_height box_width HK) in Hrun. apply Hrun.
  - intros fd Hfd cell.
    apply mk_freq_trans_summary_boxes in Hfd as (js & boxes & _ & Hrun & ->).
    apply (windows_inv box_height box_width HK) in Hrun.
    destruct Hrun as (Hnd & Hb & Hown).
    unfold entries_of_cell.
    rewrite (filter_length_perm _ (flatten_boxes_entries boxes)).
    apply cell_count_bound; assumption.
Qed.

Lemma boxes_hold_at_most_maxes_per_box_witness :
  (0 <= 1)%Z
  /\ forall fd,
       _mk_freq_trans_summary dft_abs_2 [1; 5; 2; 2; 3; 1; 0; 9]%Z 2 0 1 2 1 = Ok fd ->
       forall cell, (Z.of_nat (entries_of_cell 1 2 cell fd) <= 1)%Z.
Proof.
  split; [lia|].
  exact (proj2 (proj2 (@boxes_hold_at_most_maxes_per_box dft_abs_2
                          [1; 5; 2; 2; 3; 1; 0; 9]%Z 2 0 1 2 1 ltac:(lia)))).
Defined.

(** C7, as amended: for [0 <= overlap < fft_bin_size] the loop visits the
    windows [x = 0, 1, ...] with start [j = -overlap + x * (fft_bin_size -
    overlap)] while [j < len(data)]; the window of start [j] is read from
    [max(0, j)] with the whole length [fft_bin_size] when the buffer has that
    many samples from there, so a negative start is moved to 0 and does not
    shorten the window; a window is full exactly when [max(0, j) +
    fft_bin_size <= len(data)], and only full windows are processed.  In
    particular, with [overlap > 0] and at least [fft_bin_size] samples, the
    leading window is the first [fft_bin_size] samples and is processed. *)
Theorem windows_start_clamped_only_full_processed
  (fft_abs : list Z -> list Q) (data : list Z)
  (fft_bin_size overlap box_height box_width maxes_per_box : Z) :
  (0 <= overlap < fft_bin_size)%Z ->
  (exists n,
      windows data fft_bin_size overlap
      = Ok (map (fun i => (Z.of_nat i,
                           window_at data fft_bin_size
                             (window_start fft_bin_size overlap (Z.of_nat i))))
                (seq 0 n))
      /\ forall i, (i < n)%nat
                   <-> (window_start fft_bin_size overlap (Z.of_nat i) < len data)%Z)
  /\ (forall j,
        window_at data fft_bin_size j
        = firstn (Z.to_nat fft_bin_size) (skipn (Z.to_nat (Z.max 0 j)) data))
  /\ (forall j,
        len (window_at data fft_bin_size j) = fft_bin_size
        <-> (Z.max 0 j + fft_bin_size <= len data)%Z)
  /\ boxes_of fft_abs data fft_bin_size overlap box_height box_width maxes_per_box
     = (fws <- full_windows data fft_bin_size overlap ;;
        for_each (fun boxes w =>
                    add_window fft_abs box_height box_width maxes_per_box
                               boxes (fst w) (snd w))
                 fws Dict.empty)
  /\ ((fft_bin_size <= len data)%Z ->
      exists fws,
        full_windows data fft_bin_size overlap = Ok fws
        /\ In (0%Z, firstn (Z.to_nat fft_bin_size) data) fws).
Proof.
  intros Ho. split; [apply windows_spec; exact Ho|].
  split; [intros j; apply window_at_clamped; lia|].
  split; [intros j; apply window_full_iff; lia|].
  split; [apply boxes_of_full_windows|].
  intros Hlen. apply leading_window_full; assumption.
Qed.

Lemma windows_start_clamped_only_full_processed_witness :
  (0 <= 1 < 2)%Z
  /\ ((2 <= len [1; 2; 3; 4]%Z)%Z ->
      exists fws,
        full_windows [1; 2; 3; 4]%Z 2 1 = Ok fws
        /\ In (0%Z, firstn (Z.to_nat 2) [1; 2; 3; 4]%Z) fws).
Proof.
  split; [lia|].
  exact (proj2 (proj2 (proj2 (proj2
    (@windows_start_clamped_only_full_processed dft_abs_2 [1; 2; 3; 4]%Z
       2 1 1 1 1 ltac:(lia)))))).
Defined.

(** C7 as stated fails: with [overlap = 1] and [fft_bin_size = 2] on four
    samples, the leading window (start -1) is [data[0:2]], of full length,
    and it is processed: window index 0 is among the times of the
    signature. *)
Lemma leading_window_not_shrunk_counterexample :
  ~ (forall (data : list Z) (fft_bin_size overlap : Z),
        (0 < overlap < fft_bin_size)%Z ->
        (len (window_at data fft_bin_size (- overlap)) < fft_bin_size)%Z
        /\ forall fws, full_windows data fft_bin_size overlap = Ok fws ->
                       forall w, ~ In (0%Z, w) fws).
Proof.
  intros H.
  destruct (H [1; 2; 3; 4]%Z 2%Z 1%Z ltac:(lia)) as [Hshort _].
  vm_compute in Hshort. discriminate.
Qed.

(** ** The Multi-File Delay Resolver *)

(** *** Normalisation into pad and trim *)

Lemma Qmin_cases (x y : Q) :
  (Qmin x y = x /\ (x <= y)%Q) \/ (Qmin x y = y /\ (y <= x)%Q).
Proof.
  unfold Qmin, GenericMinMax.gmin. destruct (x ?= y)%Q eqn:E.
  - left. split; [reflexivity|]. apply Qeq_alt in E. lra.
  - left. split; [reflexivity|]. apply Qlt_alt in E. lra.
  - right. split; [reflexivity|]. apply Qgt_alt in E. lra.
Qed.

Lemma Qmax_cases (x y : Q) :
  (Qmax x y = x /\ (y <= x)%Q) \/ (Qmax x y = y /\ (x <= y)%Q).
Proof.
  unfold Qmax, GenericMinMax.gmax. destruct (x ?= y)%Q eqn:E.
  - left. split; [reflexivity|]. apply Qeq_alt in E. lra.
  - right. split; [reflexivity|]. apply Qlt_alt in E. lra.
  - left. split; [reflexivity|]. apply Qgt_alt in E. lra.
Qed.

(** [a.min()] is an item of the array and a lower bound of it. *)
Lemma np_min_spec (a : list Q) (m : Q) :
  np_min a = Ok m -> In m a /\ forall x, In x a -> (m <= x)%Q.
Proof.
  destruct a as [|x0 a]; [discriminate|]. simpl. intros H; inversion H; subst; clear H.
  revert x0. induction a as [|y a IH]; intros x0; simpl.
  - split; [auto|]. intros x [<-|[]]. lra.
  - destruct (IH (Qmin x0 y)) as [Hin Hle].
    set (m := fold_left Qmin a (Qmin x0 y)) in *. clearbody m. split.
    + destruct Hin as [Hin|Hin]; [|auto].
      destruct (Qmin_cases x0 y) as [[E _]|[E _]]; rewrite E in Hin; auto.
    + intros x [<-|[<-|Hx]].
      * specialize (Hle _ (or_introl eq_refl)).
        destruct (Qmin_cases x0 y) as [[E H]|[E H]]; rewrite E in Hle; lra.
      * specialize (Hle _ (or_introl eq_refl)).
        destruct (Qmin_cases x0 y) as [[E H]|[E H]]; rewrite E in Hle; lra.
      * apply Hle; right; exact Hx.
Qed.

Lemma np_max_spec (a : list Q) (m : Q) :
  np_max a = Ok m -> In m a /\ forall x, In x a -> (x <= m)%Q.
Proof.
  destruct a as [|x0 a]; [discriminate|]. simpl. intros H; inversion H; subst; clear H.
  revert x0. induction a as [|y a IH]; intros x0; simpl.
  - split; [auto|]. intros x [<-|[]]. lra.
  - destruct (IH (Qmax x0 y)) as [Hin Hle].
    set (m := fold_left Qmax a (Qmax x0 y)) in *. clearbody m. split.
    + destruct Hin as [Hin|Hin]; [|auto].
      destruct (Qmax_cases x0 y) as [[E _]|[E _]]; rewrite E in Hin; auto.
    + intros x [<-|[<-|Hx]].
      * specialize (Hle _ (or_introl eq_refl)).
        destruct (Qmax_cases x0 y) as [[E H]|[E H]]; rewrite E in Hle; lra.
      * specialize (Hle _ (or_introl eq_refl)).
        destruct (Qmax_cases x0 y) as [[E H]|[E H]]; rewrite E in Hle; lra.
      * apply Hle; right; exact Hx.
Qed.

Lemma np_min_total (a : list Q) : a <> [] -> exists m, np_min a = Ok m.
Proof. destruct a; [congruence | eexists; reflexivity]. Qed.

Lemma nth_map_Q (f : Q -> Q) (l : list Q) (i : nat) :
  (i < length l)%nat -> nth i (map f l) 0%Q = f (nth i l 0%Q).
Proof.
  intros H. rewrite (nth_indep _ 0%Q (f 0%Q)) by (rewrite length_map; exact H).
  apply map_nth.
Qed.

(** What lines 235-236 compute from the delays. *)
Lemma pad_trim_spec (delays pad trim : list Q) :
  pad_trim delays = Ok (pad, trim) ->
  exists m mx,
    np_min delays = Ok m /\ np_max pad = Ok mx
    /\ length pad = length delays /\ length trim = length delays
    /\ (forall i, (i < length delays)%nat ->
          (nth i pad 0 == nth i delays 0 - m)%Q
          /\ (nth i trim 0 == mx - nth i pad 0)%Q
          /\ (0 <= nth i pad 0)%Q /\ (0 <= nth i trim 0)%Q)
    /\ (exists z, np_min pad = Ok z /\ (z == 0)%Q)
    /\ (exists z, np_min trim = Ok z /\ (z == 0)%Q).
Proof.
  unfold pad_trim. intros H.
  apply bind_Ok_inv in H as (m & Hm & H).
  apply bind_Ok_inv in H as (mx & Hmx & H).
  inversion H; subst pad trim; clear H.
  set (pad := map (fun d => (d - m)%Q) delays) in *.
  set (trim := map (fun p => (- (p - mx))%Q) pad).
  destruct (np_min_spec _ Hm) as [Hm_in Hm_le].
  destruct (np_max_spec _ Hmx) as [Hmx_in Hmx_le].
  assert (Hpad_nonneg : forall p, In p pad -> (0 <= p)%Q).
  { intros p Hp. apply in_map_iff in Hp. destruct Hp as (d & <- & Hd).
    specialize (Hm_le _ Hd). lra. }
  assert (Htrim_nonneg : forall t, In t trim -> (0 <= t)%Q).
  { intros t Ht. apply in_map_iff in Ht. destruct Ht as (p & <- & Hp).
    specialize (Hmx_le _ Hp). lra. }
  exists m, mx. split; [exact Hm|]. split; [exact Hmx|].
  split; [apply length_map|]. split; [unfold trim, pad; rewrite !length_map; reflexivity|].
  split; [|split].
  - intros i Hi.
    assert (Hip : (i < length pad)%nat) by (unfold pad; rewrite length_map; exact Hi).
    assert (Hpi : nth i pad 0%Q = (nth i delays 0 - m)%Q)
      by (apply (nth_map_Q (fun d => (d - m)%Q)); exact Hi).
    assert (Hti : nth i trim 0%Q = (- (nth i pad 0 - mx))%Q)
      by (apply (nth_map_Q (fun p => (- (p - mx))%Q)); exact Hip).
    split; [rewrite Hpi; reflexivity|]. split; [rewrite Hti; lra|]. split.
    + apply Hpad_nonneg, nth_In; exact Hip.
    + apply Htrim_nonneg, nth_In. unfold trim. rewrite length_map. exact Hip.
  - destruct (np_min_total (a := pad)) as (z & Hz).
    { intros E. rewrite E in Hmx_in. exact Hmx_in. }
    exists z. split; [exact Hz|].
    destruct (np_min_spec _ Hz) as [Hz_in Hz_le].
    assert (Hzero : In (m - m)%Q pad) by (apply (in_map (fun d => (d - m)%Q)); exact Hm_in).
    specialize (Hz_le _ Hzero). specialize (Hpad_nonneg _ Hz_in). lra.
  - destruct (np_min_total (a := trim)) as (z & Hz).
    { intros E. apply (f_equal (@length Q)) in E. unfold trim in E.
      rewrite length_map in E. destruct pad; [exact Hmx_in | discriminate]. }
    exists z. split; [exact Hz|].
    destruct (np_min_spec _ Hz) as [Hz_in Hz_le].
    assert (Hzero : In (- (mx - mx))%Q trim)
      by (apply (in_map (fun p => (- (p - mx))%Q)); exact Hmx_in).
    specialize (Hz_le _ Hzero). specialize (Htrim_nonneg _ Hz_in). lra.
Qed.

(** *** Delays relative to file 0 *)

Lemma lookup_Ok (d : Dict.t (nat * nat) Q) (k : nat * nat) (v : Q) :
  lookup d k = Ok v <-> Dict.get pair_eqb d k = Some v.
Proof.
  unfold lookup. destruct (Dict.get pair_eqb d k); split; intros H;
    inversion H; reflexivity.
Qed.

Section BaseRelative.

Variable set_iter : list Z -> list Z.
Variable files : list string.
Variable ftds : list signature.
Variable samps_per_sec : Q.
Variable _result1 : Dict.t (nat * nat) Q.

(** The value line 213, 215 or 218 stores for file [i]. *)
Local Abbreviation base_entry := (fun (i : nat) (v : Q) =>
  (Dict.contains pair_eqb _result1 (0, i)%nat = true
   /\ Dict.get pair_eqb _result1 (0, i)%nat = Some v)
  \/ (Dict.contains pair_eqb _result1 (0, i)%nat = false
      /\ Dict.contains pair_eqb _result1 (i, 0)%nat = true
      /\ exists w, Dict.get pair_eqb _result1 (i, 0)%nat = Some w /\ v = (- w)%Q)
  \/ (Dict.contains pair_eqb _result1 (0, i)%nat = false
      /\ Dict.contains pair_eqb _result1 (i, 0)%nat = false
      /\ exists delay,
           _find_delay set_iter (ftd ftds 0) (ftd ftds i) None None = Ok delay
           /\ truediv (- inject_Z delay) samps_per_sec = Ok v)).

Lemma base_step_spec (_result2 r2' : Dict.t (nat * nat) Q) (i : nat) :
  base_step set_iter ftds samps_per_sec _result1 _result2 i = Ok r2' ->
  exists v, r2' = Dict.set pair_eqb _result2 (0, i + 1)%nat v
            /\ base_entry (i + 1)%nat v.
Proof.
  unfold base_step. intros H.
  destruct (Dict.contains pair_eqb _result1 (0, i + 1)%nat) eqn:E1.
  - apply bind_Ok_inv in H as (v & Hv & H). inversion H; subst.
    exists v. split; [reflexivity|]. left. split; [reflexivity|].
    apply lookup_Ok; exact Hv.
  - destruct (Dict.contains pair_eqb _result1 (i + 1, 0)%nat) eqn:E2.
    + apply bind_Ok_inv in H as (w & Hw & H). inversion H; subst.
      exists (- w)%Q. split; [reflexivity|]. right; left.
      split; [reflexivity|]. split; [reflexivity|].
      exists w. split; [apply lookup_Ok; exact Hw | reflexivity].
    + apply bind_Ok_inv in H as (delay & Hd & H).
      apply bind_Ok_inv in H as (v & Hv & H). inversion H; subst.
      exists v. split; [reflexivity|]. right; right.
      split; [reflexivity|]. split; [reflexivity|].
      exists delay. auto.
Qed.

Lemma base_loop_spec (n a : nat) (s s' : Dict.t (nat * nat) Q) :
  for_each (base_step set_iter ftds samps_per_sec _result1) (seq a n) s = Ok s' ->
  (forall k, (forall i, (a <= i < a + n)%nat -> k <> (0, i + 1)%nat) ->
             Dict.get pair_eqb s' k = Dict.get pair_eqb s k)
  /\ (forall i, (a <= i < a + n)%nat ->
        exists v, Dict.get pair_eqb s' (0, i + 1)%nat = Some v
                  /\ base_entry (i + 1)%nat v)
  /\ (Dict.keys s = map (fun i => (0, i)%nat) (seq 0 (S a)) ->
      Dict.keys s' = map (fun i => (0, i)%nat) (seq 0 (S (a + n)))).
Proof.
  revert a s. induction n as [|n IH]; intros a s H; simpl in H.
  - inversion H; subst. split; [reflexivity|]. split; [intros i Hi; lia|].
    rewrite Nat.add_0_r. auto.
  - apply bind_Ok_inv in H as (s1 & Hstep & Hrest).
    apply base_step_spec in Hstep as (v & -> & Hv).
    destruct (IH _ _ Hrest) as (Hother & Hnew & Hkeys).
    split; [|split].
    + intros k Hk. rewrite Hother by (intros i Hi; apply Hk; lia).
      apply (DictFacts.get_set_other _ pair_eqb_eq).
      intros E. apply (Hk a); [lia | symmetry; exact E].
    + intros i Hi. destruct (Nat.eq_dec i a) as [->|Hne].
      * exists v. split; [|exact Hv].
        rewrite Hother.
        -- apply (DictFacts.get_set_same _ pair_eqb_eq).
        -- intros j Hj E. inversion E. lia.
      * apply Hnew. lia.
    + intros Hk. replace (S (a + S n)) with (S (S a + n)) by lia.
      apply Hkeys.
      rewrite (DictFacts.keys_set_notin _ pair_eqb_eq).
      * rewrite Hk. replace (S (S a)) with (S a + 1)%nat by lia.
        rewrite seq_app, map_app. simpl. repeat f_equal. lia.
      * rewrite Hk. intros Hin. apply in_map_iff in Hin.
        destruct Hin as (j & Hj & Hin). apply in_seq in Hin. inversion Hj. lia.
Qed.

(** C5 in lemma form, with the keys of [_result2] in addition. *)
Lemma base_relative_spec (_result2 : Dict.t (nat * nat) Q) :
  base_relative set_iter files ftds samps_per_sec _result1 = Ok _result2 ->
  Dict.get pair_eqb _result2 (0, 0)%nat = Some 0%Q
  /\ (forall i, (1 <= i < length files)%nat ->
        exists v, Dict.get pair_eqb _result2 (0, i)%nat = Some v /\ base_entry i v)
  /\ Dict.keys _result2
     = map (fun i => (0, i)%nat) (seq 0 (S (length files - 1))).
Proof.
  unfold base_relative. intros H.
  apply base_loop_spec in H. destruct H as (Hother & Hnew & Hkeys).
  split; [|split].
  - rewrite Hother; [reflexivity|]. intros i _ E. inversion E. lia.
  - intros i Hi. destruct (Hnew (i - 1)%nat) as (v & Hget & Hv); [lia|].
    replace (i - 1 + 1)%nat with i in * by lia. exists v. auto.
  - apply Hkeys. reflexivity.
Qed.

End BaseRelative.

(** *** Chain propagation and the result array *)

Lemma chain_step_keys (_result1 : Dict.t (nat * nat) Q) (edge : nat * nat)
  (_result2 r2' : Dict.t (nat * nat) Q) (i : nat) :
  chain_step _result1 edge _result2 i = Ok r2' ->
  In (0, i + 1)%nat (Dict.keys _result2) ->
  Dict.keys r2' = Dict.keys _result2.
Proof.
  destruct edge as [ib it]. unfold chain_step. intros H Hin.
  destruct ((0 <? ib)%nat && (it =? i + 1)%nat
            && (negb (Dict.contains pair_eqb _result1 (0, i + 1)%nat)
                && negb (Dict.contains pair_eqb _result1 (i + 1, 0)%nat))) eqn:E1.
  - apply andb_true_iff in E1 as [E1 _]. apply andb_true_iff in E1 as [_ E1].
    apply Nat.eqb_eq in E1. subst it.
    apply bind_Ok_inv in H as (a & _ & H). apply bind_Ok_inv in H as (b & _ & H).
    inversion H; subst. apply (DictFacts.keys_set_in _ pair_eqb_eq). exact Hin.
  - destruct ((0 <? it)%nat && (ib =? i + 1)%nat
              && (negb (Dict.contains pair_eqb _result1 (0, i + 1)%nat)
                  && negb (Dict.contains pair_eqb _result1 (i + 1, 0)%nat))) eqn:E2.
    + apply andb_true_iff in E2 as [E2 _]. apply andb_true_iff in E2 as [_ E2].
      apply Nat.eqb_eq in E2. subst ib.
      apply bind_Ok_inv in H as (a & _ & H). apply bind_Ok_inv in H as (b & _ & H).
      inversion H; subst. apply (DictFacts.keys_set_in _ pair_eqb_eq). exact Hin.
    + inversion H; subst. reflexivity.
Qed.

Lemma chain_propagate_keys (files : list string)
  (_result1 _result2 r2' : Dict.t (nat * nat) Q) :
  chain_propagate files _result1 _result2 = Ok r2' ->
  Dict.keys _result2 = map (fun i => (0, i)%nat) (seq 0 (S (length files - 1))) ->
  Dict.keys r2' = Dict.keys _result2.
Proof.
  unfold chain_propagate. intros H Hk.
  refine (@for_each_inv _ _ (fun r2 => Dict.keys r2 = Dict.keys _result2)
            _ _ _ _ _ eq_refl H).
  intros s edge s' Hs Hedge.
  assert (Hgen : forall l, (forall i, In i l -> (i < length files - 1)%nat) ->
            forall t t', Dict.keys t = Dict.keys _result2 ->
            for_each (chain_step _result1 edge) l t = Ok t' ->
            Dict.keys t' = Dict.keys _result2).
  { induction l as [|i l IH]; intros Hl t t' Ht Hrun; simpl in Hrun.
    - inversion Hrun; subst; exact Ht.
    - apply bind_Ok_inv in Hrun as (t1 & Hstep & Hrun).
      apply (IH (fun j Hj => Hl j (or_intror Hj)) t1 t'); [|exact Hrun].
      rewrite <- Ht. apply (chain_step_keys _ _ _ _ Hstep).
      rewrite Ht, Hk. apply in_map_iff. exists (i + 1)%nat. split; [reflexivity|].
      apply in_seq. specialize (Hl i (or_introl eq_refl)). lia. }
  refine (Hgen (seq 0 (length files - 1)) _ s s' Hs Hedge).
  intros i Hi. apply in_seq in Hi. lia.
Qed.

Lemma pair_leb_total (a b : nat * nat) : pair_leb a b = true \/ pair_leb b a = true.
Proof.
  unfold pair_leb. destruct a as [a1 a2], b as [b1 b2]. simpl.
  rewrite !orb_true_iff, !andb_true_iff, !Nat.ltb_lt, !Nat.eqb_eq, !Nat.leb_le. lia.
Qed.

Lemma sorted_file_keys (n a : nat) :
  StronglySorted (le_of pair_leb) (map (fun i => (0, i)%nat) (seq a n)).
Proof.
  revert a. induction n as [|n IH]; intros a; simpl; constructor; [apply IH|].
  apply Forall_forall. intros k Hk. apply in_map_iff in Hk.
  destruct Hk as (j & <- & Hj). apply in_seq in Hj.
  unfold le_of, pair_leb. simpl. apply Nat.leb_le. lia.
Qed.

Lemma result_loop_spec (_result2 : Dict.t (nat * nat) Q) (ks : list (nat * nat))
  (acc l : list Q) :
  for_each (fun acc k => v <- lookup _result2 k ;; Ok (acc ++ [v])) ks acc = Ok l ->
  exists vs, l = acc ++ vs /\ length vs = length ks
    /\ forall i, (i < length ks)%nat ->
         Dict.get pair_eqb _result2 (nth i ks (0, 0)%nat) = Some (nth i vs 0%Q).
Proof.
  revert acc. induction ks as [|k ks IH]; intros acc H; simpl in H.
  - inversion H; subst. exists []. rewrite app_nil_r.
    split; [reflexivity|]. split; [reflexivity|]. simpl; intros; lia.
  - apply bind_Ok_inv in H as (acc1 & Hstep & Hrest).
    apply bind_Ok_inv in Hstep as (v & Hv & Hstep). inversion Hstep; subst acc1.
    destruct (IH _ Hrest) as (vs & -> & Hlen & Hget).
    exists (v :: vs). rewrite <- app_assoc. split; [reflexivity|].
    split; [simpl; lia|].
    intros [|i] Hi; simpl.
    + apply lookup_Ok; exact Hv.
    + apply Hget. simpl in Hi. lia.
Qed.

(** Line 234 lists the delays of the files in file order. *)
Lemma result_array_spec (_result2 : Dict.t (nat * nat) Q) (n : nat) (l : list Q) :
  Dict.keys _result2 = map (fun i => (0, i)%nat) (seq 0 n) ->
  result_array _result2 = Ok l ->
  length l = n
  /\ forall i, (i < n)%nat -> Dict.get pair_eqb _result2 (0, i)%nat = Some (nth i l 0%Q).
Proof.
  intros Hk H. unfold result_array in H. rewrite Hk in H.
  rewrite SortFacts.sorted_id in H by apply sorted_file_keys.
  apply result_loop_spec in H. destruct H as (vs & -> & Hlen & Hget).
  rewrite length_map, length_seq in Hlen, Hget. simpl.
  split; [exact Hlen|]. intros i Hi.
  specialize (Hget i Hi).
  change (0, 0)%nat with ((fun j => (0, j)%nat) 0%nat) in Hget at 1.
  rewrite map_nth, seq_nth in Hget by exact Hi. exact Hget.
Qed.

(** *** Claims about the resolver *)

Section ResolverClaims.

Variable set_iter : list Z -> list Z.
Variable fft_abs : list Z -> list Q.
Variable abspath : string -> string.
Variable os_stat : string -> file_stat.
Variable decode : exaud_args -> list Z * Z.
Variable cache_key : Type.
Variable key_eqb : cache_key -> cache_key -> bool.
Variable make_cache_key : for_cache_t -> cache_key.
Variable self : SyncDetector.
Variables (sample_rate : Z) (files : list string).
Variables (fft_bin_size overlap box_height box_width samples_per_box : Z).
Variable max_misalignment : Q.
Variable known_delay_map : Dict.t string kdm_t.
Variable afilter : string.

Local Abbreviation align :=
  (@_align set_iter fft_abs abspath os_stat decode cache_key key_eqb make_cache_key
     self sample_rate files fft_bin_size overlap box_height box_width samples_per_box
     max_misalignment known_delay_map afilter).
Local Abbreviation delays :=
  (@delays_of set_iter fft_abs abspath os_stat decode cache_key key_eqb make_cache_key
     self sample_rate files fft_bin_size overlap box_height box_width samples_per_box
     max_misalignment known_delay_map afilter).
Local Abbreviation signatures :=
  (@ftds_of fft_abs os_stat decode cache_key key_eqb make_cache_key
     self sample_rate files fft_bin_size overlap box_height box_width samples_per_box
     max_misalignment afilter).
Local Abbreviation resolved := (resolve set_iter abspath files known_delay_map).
Local Abbreviation known := (known_delays set_iter abspath files known_delay_map).

(** The stages [_align] went through when it returns. *)
Lemma delays_of_Ok_inv (cache : cache_t cache_key) (delay : list Q) :
  delays cache = Ok delay ->
  exists samps_per_sec ftds _result2,
    truediv (inject_Z (_sample_rate self)) (inject_Z fft_bin_size) = Ok samps_per_sec
    /\ signatures cache = Ok ftds
    /\ resolved ftds samps_per_sec = Ok _result2
    /\ result_array _result2 = Ok delay.
Proof.
  unfold delays_of. intros H.
  apply bind_Ok_inv in H as (sps & Hsps & H).
  apply bind_Ok_inv in H as (ftds & Hftds & H).
  apply bind_Ok_inv in H as (r2 & Hr2 & H).
  exists sps, ftds, r2. auto.
Qed.

Lemma resolve_keys (ftds : list signature) (samps_per_sec : Q)
  (_result2 : Dict.t (nat * nat) Q) :
  resolved ftds samps_per_sec = Ok _result2 ->
  Dict.keys _result2 = map (fun i => (0, i)%nat) (seq 0 (S (length files - 1))).
Proof.
  unfold resolve. intros H.
  apply bind_Ok_inv in H as (r1 & _ & H).
  apply bind_Ok_inv in H as (r2 & Hbase & H).
  apply base_relative_spec in Hbase. destruct Hbase as (_ & _ & Hk).
  rewrite (chain_propagate_keys _ _ _ H Hk). exact Hk.
Qed.

(** C1: when [_align] returns [(pad, trim)] for at least two files, [pad]
    and [trim] have one entry per file, in file order: for the delays
    [delay[i] = _result2[(0, i)]] that the resolution ended with,
    [pad[i] = delay[i] - min(delay)] and [trim[i] = max(pad) - pad[i]], both
    are non-negative, and [min(pad)] and [min(trim)] are 0. *)
Theorem align_pad_trim_normalised (cache : cache_t cache_key) (pad trim : list Q) :
  (2 <= length files)%nat ->
  align cache = Ok (pad, trim) ->
  exists delay samps_per_sec ftds _result2,
    delays cache = Ok delay
    /\ truediv (inject_Z (_sample_rate self)) (inject_Z fft_bin_size) = Ok samps_per_sec
    /\ signatures cache = Ok ftds
    /\ resolved ftds samps_per_sec = Ok _result2
    /\ length delay = length files
    /\ length pad = length files
    /\ length trim = length files
    /\ (forall i, (i < length files)%nat ->
          Dict.get pair_eqb _result2 (0, i)%nat = Some (nth i delay 0%Q))
    /\ exists m mx,
         np_min delay = Ok m /\ np_max pad = Ok mx
         /\ (forall i, (i < length files)%nat ->
               (nth i pad 0 == nth i delay 0 - m)%Q
               /\ (nth i trim 0 == mx - nth i pad 0)%Q
               /\ (0 <= nth i pad 0)%Q /\ (0 <= nth i trim 0)%Q)
         /\ (exists z, np_min pad = Ok z /\ (z == 0)%Q)
         /\ (exists z, np_min trim = Ok z /\ (z == 0)%Q).
Proof.
  intros HN H. unfold _align in H.
  apply bind_Ok_inv in H as (delay & Hdelay & Hpt).
  destruct (delays_of_Ok_inv _ Hdelay) as (sps & ftds & r2 & Hsps & Hftds & Hr2 & Harr).
  pose proof (resolve_keys _ _ Hr2) as Hk.
  replace (S (length files - 1)) with (length files) in Hk by lia.
  destruct (@result_array_spec r2 _ delay Hk Harr) as (Hlen & Hget).
  destruct (@pad_trim_spec delay pad trim Hpt)
    as (m & mx & Hm & Hmx & Hlp & Hlt & Hnth & Hminp & Hmint).
  rewrite Hlen in Hlp, Hlt, Hnth.
  exists delay, sps, ftds, r2.
  repeat (split; [assumption|]).
  exists m, mx. repeat (split; [assumption|]). assumption.
Qed.

(** C5: after the loop of lines 210-218, [_result2[(0, 0)]] is 0 and, for
    every other file [i], [_result2[(0, i)]] is [_result1[(0, i)]] when that
    key exists, else the negation of [_result1[(i, 0)]] when that key
    exists, else [-delay / samps_per_sec] for the [delay] that [_find_delay]
    returns for the signatures of file 0 and file [i] without bounds. *)
Theorem base_relative_delays (ftds : list signature) (samps_per_sec : Q)
  (_result1 _result2 : Dict.t (nat * nat) Q) :
  base_relative set_iter files ftds samps_per_sec _result1 = Ok _result2 ->
  Dict.get pair_eqb _result2 (0, 0)%nat = Some 0%Q
  /\ forall i, (1 <= i < length files)%nat ->
       exists v,
         Dict.get pair_eqb _result2 (0, i)%nat = Some v
         /\ ((Dict.contains pair_eqb _result1 (0, i)%nat = true
              /\ Dict.get pair_eqb _result1 (0, i)%nat = Some v)
             \/ (Dict.contains pair_eqb _result1 (0, i)%nat = false
                 /\ Dict.contains pair_eqb _result1 (i, 0)%nat = true
                 /\ exists w, Dict.get pair_eqb _result1 (i, 0)%nat = Some w
                              /\ v = (- w)%Q)
             \/ (Dict.contains pair_eqb _result1 (0, i)%nat = false
                 /\ Dict.contains pair_eqb _result1 (i, 0)%nat = false
                 /\ exists delay,
                      _find_delay set_iter (ftd ftds 0) (ftd ftds i) None None = Ok delay
                      /\ truediv (- inject_Z delay) samps_per_sec = Ok v)).
Proof.
  intros H. apply base_relative_spec in H. destruct H as (H0 & Hi & _).
  split; [exact H0 | exact Hi].
Qed.

(** A call of [_find_delay] that the resolution makes for a constraint, or
    for a file without a constraint against file 0, and that raises the
    "no correlation" error. *)
Local Abbreviation call_raises := (fun (ftds : list signature) (samps_per_sec : Q) =>
  (exists kdm_key kdm it ib,
      In (kdm_key, kdm) known_delay_map
      /\ index String.eqb files (abspath kdm_key) = Ok it
      /\ index String.eqb files (abspath (kdm_base kdm)) = Ok ib
      /\ _find_delay set_iter (ftd ftds ib) (ftd ftds it)
           (scale_bound (kdm_min kdm) samps_per_sec)
           (scale_bound (kdm_max kdm) samps_per_sec) = Raise NoCorrelation)
  \/ (exists _result1 i,
        known ftds samps_per_sec = Ok _result1
        /\ (1 <= i < length files)%nat
        /\ Dict.contains pair_eqb _result1 (0, i)%nat = false
        /\ Dict.contains pair_eqb _result1 (i, 0)%nat = false
        /\ _find_delay set_iter (ftd ftds 0) (ftd ftds i) None None
           = Raise NoCorrelation)).

Lemma resolve_raises (ftds : list signature) (samps_per_sec : Q) :
  call_raises ftds samps_per_sec ->
  exists e, resolved ftds samps_per_sec = Raise e.
Proof.
  unfold resolve.
  intros [(kdm_key & kdm & it & ib & Hin & Hit & Hib & Hfd)
         |(r1 & i & Hr1 & Hi & H0i & Hi0 & Hfd)].
  - destruct (@for_each_raise _ _ (known_step set_iter abspath files ftds samps_per_sec)
                known_delay_map (kdm_key, kdm) Hin) with (s := @Dict.empty (nat * nat) Q)
      as (e & He).
    + intros s. exists NoCorrelation. unfold known_step. rewrite Hit, Hib, Hfd. reflexivity.
    + exists e. unfold known_delays. rewrite He. reflexivity.
  - rewrite Hr1. simpl. unfold base_relative.
    destruct (@for_each_raise _ _ (base_step set_iter ftds samps_per_sec r1)
                (seq 0 (length files - 1)) (i - 1)%nat)
      with (s := Dict.set pair_eqb (@Dict.empty (nat * nat) Q) (0, 0)%nat 0%Q)
      as (e & He).
    + apply in_seq. lia.
    + intros s. exists NoCorrelation. unfold base_step.
      replace (i - 1 + 1)%nat with i by lia.
      rewrite H0i, Hi0, Hfd. reflexivity.
    + exists e. rewrite He. reflexivity.
Qed.

Hypothesis set_iter_In : forall l k, In k (set_iter l) <-> In k l.

(** C2: [_find_delay] raises the "no correlation" error exactly when no key
    is in both signatures; and when a call of [_find_delay] made for a
    constraint or for a file against file 0 raises it, [resolve] and [_align]
    raise and return no result. *)
Theorem no_correlation_iff_no_common_key_and_fatal :
  (forall freqs_dict_orig freqs_dict_sample min_delay max_delay,
      _find_delay set_iter freqs_dict_orig freqs_dict_sample min_delay max_delay
      = Raise NoCorrelation
      <-> forall k, ~ (In k (Dict.keys freqs_dict_sample)
                       /\ In k (Dict.keys freqs_dict_orig)))
  /\ (forall cache ftds samps_per_sec,
        truediv (inject_Z (_sample_rate self)) (inject_Z fft_bin_size) = Ok samps_per_sec ->
        signatures cache = Ok ftds ->
        call_raises ftds samps_per_sec ->
        (exists e, resolved ftds samps_per_sec = Raise e)
        /\ (exists e, align cache = Raise e)).
Proof.
  split.
  - intros o s mn mx. apply find_delay_NoCorrelation_iff. exact set_iter_In.
  - intros cache ftds sps Hsps Hftds Hcall.
    destruct (resolve_raises Hcall) as (e & He).
    split; [exists e; exact He|].
    exists e. unfold _align, delays_of. rewrite Hsps. simpl. rewrite Hftds. simpl.
    rewrite He. reflexivity.
Qed.

End ResolverClaims.

Lemma align_pad_trim_normalised_witness :
  (2 <= length ["/a"; "/b"; "/c"]%string)%nat
  /\ exists pad trim,
       ex_align ["/a"; "/b"; "/c"]%string ex_known = Ok (pad, trim)
       /\ length pad = 3%nat /\ length trim = 3%nat
       /\ (exists z, np_min pad = Ok z /\ (z == 0)%Q)
       /\ (exists z, np_min trim = Ok z /\ (z == 0)%Q).
Proof.
  split; [simpl; lia|].
  destruct (ex_align ["/a"; "/b"; "/c"]%string ex_known) as [[pad trim]|e] eqn:E;
    [|vm_compute in E; discriminate].
  exists pad, trim. split; [reflexivity|].
  destruct (@align_pad_trim_normalised set_iter_first dft_abs_2 abspath_id ex_stat
              ex_decode for_cache_t for_cache_eqb cache_key_id ex_self 2%Z
              ["/a"; "/b"; "/c"]%string 2%Z 0%Z 1%Z 1000%Z 1%Z 0%Q ex_known
              EmptyString Dict.empty pad trim ltac:(simpl; lia) E)
    as (delay & sps & ftds & r2 & _ & _ & _ & _ & _ & Hlp & Hlt & _
        & m & mx & _ & _ & _ & Hminp & Hmint).
  repeat split; assumption.
Defined.

Lemma base_relative_delays_witness :
  exists _result2,
    base_relative set_iter_first ["/a"; "/b"; "/c"]%string
      [[(0, [0])]; [(0, [2])]; [(0, [5])]]%Z 1%Q [((1, 2)%nat, (-3)%Q)]
    = Ok _result2
    /\ Dict.get pair_eqb _result2 (0, 0)%nat = Some 0%Q.
Proof.
  destruct (base_relative set_iter_first ["/a"; "/b"; "/c"]%string
              [[(0, [0])]; [(0, [2])]; [(0, [5])]]%Z 1%Q [((1, 2)%nat, (-3)%Q)])
    as [r2|e] eqn:E; [|vm_compute in E; discriminate].
  exists r2. split; [reflexivity|].
  exact (proj1 (@base_relative_delays set_iter_first ["/a"; "/b"; "/c"]%string
                  [[(0, [0])]; [(0, [2])]; [(0, [5])]]%Z 1%Q
                  [((1, 2)%nat, (-3)%Q)] r2 E)).
Defined.

Lemma no_correlation_iff_no_common_key_and_fatal_witness :
  (forall l k, In k (set_iter_first l) <-> In k l)
  /\ exists e, ex_align ["/a"; "/d"]%string [] = Raise e.
Proof.
  assert (Hset : forall l k, In k (set_iter_first l) <-> In k l)
    by (intros l k; apply nodup_In).
  split; [exact Hset|].
  destruct (@no_correlation_iff_no_common_key_and_fatal set_iter_first dft_abs_2
              abspath_id ex_stat ex_decode for_cache_t for_cache_eqb cache_key_id
              ex_self 2%Z ["/a"; "/d"]%string 2%Z 0%Z 1%Z 1000%Z 1%Z 0%Q []
              EmptyString Hset) as [_ Hfatal].
  destruct (Hfatal Dict.empty [[(0, [0])]; []]%Z (inject_Z 2 / inject_Z 2)%Q
              eq_refl eq_refl) as [_ Halign].
  - right. exists [], 1%nat. repeat split; try reflexivity; simpl; lia.
  - exact Halign.
Defined.

(** C4 fails on the code.  Files "/a", "/b", "/c" with the only constraint
    between "/b" (base) and "/c" (target): computed independently, the delay
    of "/b" to "/a" is -2 and that of "/c" is -5; the pairwise delay of the
    constraint is -3.  Chain propagation first replaces the delay of "/b" by
    -5 + -3 = -8 (the branch of line 231, at [i = 0]) and then sets the delay
    of "/c" to -8 - -3 = -5, its own directly computed value, not
    -2 - -3 = 1 as the derivation from the independent delay of "/b" would
    give. *)
Theorem chain_propagation_overwrites_base_delay :
  exists delay independent ftds _result1 p,
    ex_delays ["/a"; "/b"; "/c"]%string ex_known = Ok delay
    /\ ex_delays ["/a"; "/b"; "/c"]%string [] = Ok independent
    /\ Forall2 Qeq independent [0; -2; -5]%Q
    /\ ftds_of dft_abs_2 ex_stat ex_decode for_cache_eqb cache_key_id ex_self 2
         ["/a"; "/b"; "/c"]%string 2 0 1 1000 1 0 EmptyString Dict.empty = Ok ftds
    /\ known_delays set_iter_first abspath_id ["/a"; "/b"; "/c"]%string ex_known ftds 1
       = Ok _result1
    /\ Dict.keys _result1 = [(1, 2)%nat]
    /\ Dict.get pair_eqb _result1 (1, 2)%nat = Some p
    /\ (p == -3)%Q
    /\ Forall2 Qeq delay [0; -8; -5]%Q
    /\ ~ (nth 2 delay 0 == nth 1 independent 0 - p)%Q
    /\ (nth 1 delay 0 == nth 2 independent 0 + p)%Q
    /\ (nth 2 delay 0 == nth 2 independent 0)%Q.
Proof.
  destruct (ex_delays ["/a"; "/b"; "/c"]%string ex_known) as [delay|e] eqn:Ed;
    [|vm_compute in Ed; discriminate].
  destruct (ex_delays ["/a"; "/b"; "/c"]%string []) as [independent|e] eqn:Ei;
    [|vm_compute in Ei; discriminate].
  destruct (ftds_of dft_abs_2 ex_stat ex_decode for_cache_eqb cache_key_id ex_self 2
              ["/a"; "/b"; "/c"]%string 2 0 1 1000 1 0 EmptyString Dict.empty)
    as [ftds|e] eqn:Ef; [|vm_compute in Ef; discriminate].
  destruct (known_delays set_iter_first abspath_id ["/a"; "/b"; "/c"]%string
              ex_known ftds 1) as [r1|e] eqn:Ek.
  2:{ vm_compute in Ef. inversion Ef; subst ftds. vm_compute in Ek. discriminate. }
  vm_compute in Ed, Ei, Ef. inversion Ed; subst delay. inversion Ei; subst independent.
  inversion Ef; subst ftds. vm_compute in Ek. inversion Ek; subst r1.
  eexists _, _, _, _, _.
  split; [reflexivity|]. split; [reflexivity|].
  split; [repeat constructor|]. split; [reflexivity|]. split; [reflexivity|].
  split; [reflexivity|]. split; [reflexivity|]. split; [reflexivity|].
  split; [repeat constructor|]. split; [|split]; vm_compute; congruence.
Qed.

(** *** The cache key *)

(** C9, as amended: the cache key of a file is a function of the decoder
    arguments (sample rate, path, duration, filter), the extraction
    parameters and the time of the last access to the file, read with
    [os.path.getatime]: two states of the file system that agree on the
    access time of the file give the same key, whatever its modification
    time. *)
Theorem cache_key_from_access_time
  (cache_key : Type) (make_cache_key : for_cache_t -> cache_key)
  (os_stat1 os_stat2 : string -> file_stat)
  (fft_bin_size overlap box_height box_width samples_per_box : Z)
  (exaud : exaud_args) :
  st_atime (os_stat1 (ea_video_file exaud)) = st_atime (os_stat2 (ea_video_file exaud)) ->
  cache_key_of os_stat1 make_cache_key fft_bin_size overlap
    box_height box_width samples_per_box exaud
  = cache_key_of os_stat2 make_cache_key fft_bin_size overlap
      box_height box_width samples_per_box exaud.
Proof.
  intros H. unfold cache_key_of. rewrite H. reflexivity.
Qed.

Lemma cache_key_from_access_time_witness :
  cache_key_of (fun _ => {| st_atime := 100; st_mtime := 50 |}) cache_key_id
    1024 0 512 43 7
    {| ea_sample_rate := 48000; ea_video_file := "/a"; ea_duration := 0;
       ea_afilter := "" |}
  = cache_key_of (fun _ => {| st_atime := 100; st_mtime := 60 |}) cache_key_id
      1024 0 512 43 7
      {| ea_sample_rate := 48000; ea_video_file := "/a"; ea_duration := 0;
         ea_afilter := "" |}.
Proof.
  apply (@cache_key_from_access_time for_cache_t cache_key_id
           (fun _ => {| st_atime := 100; st_mtime := 50 |})
           (fun _ => {| st_atime := 100; st_mtime := 60 |})).
  reflexivity.
Defined.

(** C9 as stated fails: the key does not depend on the modification time.
    A file modified between two runs (modification time 50, then 60) but
    with the same access time keeps its key, even when the key function is
    injective. *)
Lemma cache_key_ignores_modification_time :
  ~ (forall (os_stat1 os_stat2 : string -> file_stat)
            (fft_bin_size overlap box_height box_width samples_per_box : Z)
            (exaud : exaud_args),
        let key1 := cache_key_of os_stat1 cache_key_id fft_bin_size overlap
                      box_height box_width samples_per_box exaud in
        let key2 := cache_key_of os_stat2 cache_key_id fft_bin_size overlap
                      box_height box_width samples_per_box exaud in
        (st_mtime (os_stat1 (ea_video_file exaud))
         = st_mtime (os_stat2 (ea_video_file exaud)) -> key1 = key2)
        /\ (st_mtime (os_stat1 (ea_video_file exaud))
            <> st_mtime (os_stat2 (ea_video_file exaud)) -> key1 <> key2)).
Proof.
  intros H.
  destruct (H (fun _ => {| st_atime := 100; st_mtime := 50 |})
              (fun _ => {| st_atime := 100; st_mtime := 60 |})
              1024%Z 0%Z 512%Z 43%Z 7%Z
              {| ea_sample_rate := 48000; ea_video_file := "/a"; ea_duration := 0;
                 ea_afilter := "" |}) as [_ Hchange].
  apply Hchange; [simpl; discriminate | reflexivity].
Qed.

(** *** Totality of the selection *)

(** C10: every key of an extracted signature has at least one time; and for
    two signatures without empty time lists that share a key,
    [_find_delay] returns: the histogram is not empty, and the delta
    returned is a difference [x_i - x_j] of a sample time and a reference
    time under a common key.  A returned delta outside the bounds has zero
    votes, and that is what is returned, without an error, when the bounds
    exclude every difference. *)
Theorem find_delay_total_on_nonempty_signatures (set_iter : list Z -> list Z) :
  (forall l k, In k (set_iter l) <-> In k l) ->
  (forall fft_abs data fft_bin_size overlap box_height box_width maxes_per_box fd,
      _mk_freq_trans_summary fft_abs data fft_bin_size overlap
        box_height box_width maxes_per_box = Ok fd ->
      forall key l, Dict.get Z.eqb fd key = Some l -> l <> [])
  /\ (forall freqs_dict_orig freqs_dict_sample min_delay max_delay,
        (forall key l, Dict.get Z.eqb freqs_dict_orig key = Some l -> l <> []) ->
        (forall key l, Dict.get Z.eqb freqs_dict_sample key = Some l -> l <> []) ->
        (exists k, In k (Dict.keys freqs_dict_sample)
                   /\ In k (Dict.keys freqs_dict_orig)) ->
        let t_diffs :=
          t_diffs_of set_iter freqs_dict_orig freqs_dict_sample min_delay max_delay in
        exists d c,
          _find_delay set_iter freqs_dict_orig freqs_dict_sample min_delay max_delay
          = Ok d
          /\ t_diffs <> []
          /\ Dict.get Z.eqb t_diffs d = Some c
          /\ (exists key x_i x_j,
                In key (Dict.keys freqs_dict_sample)
                /\ In key (Dict.keys freqs_dict_orig)
                /\ In x_i (sig_get freqs_dict_sample key)
                /\ In x_j (sig_get freqs_dict_orig key)
                /\ d = (x_i - x_j)%Z)
          /\ (in_bounds min_delay max_delay d = false -> c = 0%nat)
          /\ ((forall key x_i x_j,
                 In key (Dict.keys freqs_dict_sample) ->
                 In key (Dict.keys freqs_dict_orig) ->
                 In x_i (sig_get freqs_dict_sample key) ->
                 In x_j (sig_get freqs_dict_orig key) ->
                 in_bounds min_delay max_delay (x_i - x_j) = false) ->
              in_bounds min_delay max_delay d = false /\ c = 0%nat)).
Proof.
  intros Hset. split.
  - intros fft_abs data fft_bin_size overlap box_height box_width maxes_per_box fd H.
    exact (mk_freq_trans_summary_nonempty _ _ _ _ _ _ _ H).
  - intros o s mn mx Ho Hs Hk. apply find_delay_total_nonempty; assumption.
Qed.

Lemma find_delay_total_on_nonempty_signatures_witness :
  (forall l k, In k (set_iter_first l) <-> In k l)
  /\ exists d c,
       _find_delay set_iter_first [(1, [0])]%Z [(1, [5])]%Z (Some (10 # 1)) None = Ok d
       /\ Dict.get Z.eqb
            (t_diffs_of set_iter_first [(1, [0])]%Z [(1, [5])]%Z (Some (10 # 1)) None) d
          = Some c
       /\ in_bounds (Some (10 # 1)) None d = false /\ c = 0%nat.
Proof.
  assert (Hset : forall l k, In k (set_iter_first l) <-> In k l)
    by (intros l k; apply nodup_In).
  split; [exact Hset|].
  destruct (@find_delay_total_on_nonempty_signatures set_iter_first Hset) as [_ Htotal].
  destruct (Htotal [(1, [0])]%Z [(1, [5])]%Z (Some (10 # 1)) None)
    as (d & c & Hd & _ & Hc & _ & _ & Hout).
  - intros key l. simpl. destruct (key =? 1)%Z; [|discriminate].
    intros H; inversion H; discriminate.
  - intros key l. simpl. destruct (key =? 1)%Z; [|discriminate].
    intros H; inversion H; discriminate.
  - exists 1%Z. simpl. auto.
  - exists d, c. split; [exact Hd|]. split; [exact Hc|].
    apply Hout. intros key x_i x_j _ _ Hi Hj.
    unfold sig_get, Dict.get_default in Hi, Hj. simpl in Hi, Hj.
    destruct (key =? 1)%Z; [|contradiction].
    destruct Hi as [<-|[]]. destruct Hj as [<-|[]]. reflexivity.
Defined.

(** ** The model on small inputs *)

(** Four deltas with one vote each: the one recorded last is returned. *)
Example find_delay_tie :
  t_diffs_of set_iter_first [(1, [0; 1])]%Z [(1, [5; 7])]%Z None None
  = [(5, 1%nat); (4, 1%nat); (7, 1%nat); (6, 1%nat)]%Z
  /\ _find_delay set_iter_first [(1, [0; 1])]%Z [(1, [5; 7])]%Z None None = Ok 6%Z.
Proof. split; reflexivity. Qed.

(** Signatures without a common key. *)
Example find_delay_no_common_key :
  _find_delay set_iter_first [(1, [0])]%Z [(2, [5])]%Z None None = Raise NoCorrelation.
Proof. reflexivity. Qed.

(** A lower bound above the only difference: zero votes, still returned. *)
Example find_delay_out_of_bounds :
  t_diffs_of set_iter_first [(1, [0])]%Z [(1, [5])]%Z (Some (10 # 1)) None
  = [(5%Z, 0%nat)]
  /\ _find_delay set_iter_first [(1, [0])]%Z [(1, [5])]%Z (Some (10 # 1)) None = Ok 5%Z
  /\ find_delay_skip set_iter_first [(1, [0])]%Z [(1, [5])]%Z (Some (10 # 1)) None
     = Raise IndexError.
Proof. repeat split; reflexivity. Qed.

(** [range(-1, 4, 1)] with windows of two samples: the window of start -1
    is [data[0:2]], the window of start 3 is short and dropped. *)
Example windows_with_overlap :
  windows [1; 2; 3; 4]%Z 2 1
  = Ok [(0, [1; 2]); (1, [1; 2]); (2, [2; 3]); (3, [3; 4]); (4, [4])]%Z
  /\ full_windows [1; 2; 3; 4]%Z 2 1
     = Ok [(0, [1; 2]); (1, [1; 2]); (2, [2; 3]); (3, [3; 4])]%Z
  /\ _mk_freq_trans_summary dft_abs_2 [1; 2; 3; 4]%Z 2 1 1 1 1
     = Ok [(0, [0; 1; 2; 3])]%Z.
Proof. repeat split; reflexivity. Qed.

(** One box for four windows and one entry per box: the loudest window
    stays. *)
Example one_entry_per_box :
  boxes_of dft_abs_2 [1; 5; 2; 2; 3; 1; 0; 9]%Z 2 0 1 2 1
  = Ok [((0, 0)%Z, [(6%Q, 0%Z, 0%Z)]); ((1, 0)%Z, [(9%Q, 3%Z, 0%Z)])]
  /\ _mk_freq_trans_summary dft_abs_2 [1; 5; 2; 2; 3; 1; 0; 9]%Z 2 0 1 2 1
     = Ok [(0, [0; 3])]%Z.
Proof. split; reflexivity. Qed.

(** The signatures of the three recordings. *)
Example recordings_signatures :
  ftds_of dft_abs_2 ex_stat ex_decode for_cache_eqb cache_key_id ex_self 2
    ["/a"; "/b"; "/c"]%string 2 0 1 1000 1 0 EmptyString Dict.empty
  = Ok [[(0, [0])]; [(0, [2])]; [(0, [5])]]%Z.
Proof. reflexivity. Qed.

(** A recording too short for a window has an empty signature, and
    resolution against it fails. *)
Example resolution_without_correlation :
  ex_align ["/a"; "/d"]%string [] = Raise NoCorrelation.
Proof. reflexivity. Qed.


(* ================================================================== *)
(** * Part III: further properties of the code *)
(* ================================================================== *)

(** ** The histogram as a count of time pairs *)

Lemma fold_left_flat_map {S A B : Type} (f : S -> B -> S) (g : A -> list B)
  (l : list A) (s : S) :
  fold_left f (flat_map g l) s = fold_left (fun s' a => fold_left f (g a) s') l s.
Proof.
  revert s; induction l as [|a l IH]; intros s; simpl; [reflexivity|].
  rewrite fold_left_app. apply IH.
Qed.

Lemma fold_left_map {S A B : Type} (f : S -> B -> S) (g : A -> B)
  (l : list A) (s : S) :
  fold_left f (map g l) s = fold_left (fun s' a => f s' (g a)) l s.
Proof.
  revert s; induction l as [|a l IH]; intros s; simpl; [reflexivity | apply IH].
Qed.

Lemma fold_left_pointwise {S A : Type} (f g : S -> A -> S) (l : list A) (s : S) :
  (forall s' a, f s' a = g s' a) -> fold_left f l s = fold_left g l s.
Proof.
  intros H. revert s; induction l as [|a l IH]; intros s; simpl; [reflexivity|].
  rewrite H. apply IH.
Qed.

(** One vote for a delta, as [vote] casts it. *)
Local Abbreviation cast := (fun (min_delay max_delay : option Q) (td : histogram) (d : Z) =>
  add_vote td d (if in_bounds min_delay max_delay d then 1%nat else 0%nat)).

(** The histogram is built by one pass over [all_deltas]. *)
Lemma t_diffs_of_all_deltas (set_iter : list Z -> list Z)
  (freqs_dict_orig freqs_dict_sample : signature) (min_delay max_delay : option Q) :
  t_diffs_of set_iter freqs_dict_orig freqs_dict_sample min_delay max_delay
  = fold_left (cast min_delay max_delay)
      (all_deltas set_iter freqs_dict_orig freqs_dict_sample) Dict.empty.
Proof.
  unfold t_diffs_of, all_deltas. rewrite fold_left_flat_map.
  apply fold_left_pointwise. intros td key.
  unfold vote_key, deltas_of_key. rewrite fold_left_flat_map.
  apply fold_left_pointwise. intros td' x_i.
  rewrite fold_left_map. reflexivity.
Qed.

Lemma add_vote_get (td : histogram) (delta d : Z) (inc : nat) :
  Dict.get_default Z.eqb 0%nat (add_vote td delta inc) d
  = if (d =? delta)%Z then (Dict.get_default Z.eqb 0%nat td delta + inc)%nat
    else Dict.get_default Z.eqb 0%nat td d.
Proof.
  unfold add_vote, Dict.get_default.
  destruct (Z.eqb_spec d delta) as [->|Hne].
  - rewrite (DictFacts.get_set_same _ Z_eqb_eq). reflexivity.
  - rewrite (DictFacts.get_set_other _ Z_eqb_eq) by congruence. reflexivity.
Qed.

Lemma cast_fold_get (min_delay max_delay : option Q) (l : list Z) (td : histogram)
  (d : Z) :
  Dict.get_default Z.eqb 0%nat (fold_left (cast min_delay max_delay) l td) d
  = (Dict.get_default Z.eqb 0%nat td d
     + if in_bounds min_delay max_delay d then count_occ Z.eq_dec l d else 0)%nat.
Proof.
  revert td. induction l as [|x l IH]; intros td; simpl.
  - destruct (in_bounds min_delay max_delay d); lia.
  - rewrite IH, add_vote_get.
    destruct (Z.eq_dec x d) as [->|Hne].
    + rewrite Z.eqb_refl. destruct (in_bounds min_delay max_delay d); lia.
    + destruct (Z.eqb_spec d x) as [E|_]; [congruence|]. reflexivity.
Qed.

Lemma cast_fold_keys (min_delay max_delay : option Q) (l : list Z) (td : histogram)
  (d : Z) :
  In d (Dict.keys (fold_left (cast min_delay max_delay) l td))
  <-> In d (Dict.keys td) \/ In d l.
Proof.
  revert td. induction l as [|x l IH]; intros td; simpl; [tauto|].
  rewrite IH, add_vote_keys. intuition.
Qed.

(** X1: the deltas of the histogram are the differences [x_i - x_j] of a
    sample time and a reference time under a common key; the vote count of a
    delta within the bounds is the number of such pairs with that
    difference, and a delta outside the bounds is recorded with no vote. *)
Theorem histogram_counts_time_pairs (set_iter : list Z -> list Z)
  (freqs_dict_orig freqs_dict_sample : signature) (min_delay max_delay : option Q)
  (d : Z) :
  let t_diffs :=
    t_diffs_of set_iter freqs_dict_orig freqs_dict_sample min_delay max_delay in
  let pairs := all_deltas set_iter freqs_dict_orig freqs_dict_sample in
  Dict.get Z.eqb t_diffs d
  = if existsb (Z.eqb d) pairs
    then Some (if in_bounds min_delay max_delay d
               then count_occ Z.eq_dec pairs d else 0%nat)
    else None.
Proof.
  intros t_diffs pairs. unfold t_diffs, pairs. rewrite t_diffs_of_all_deltas.
  pose proof (cast_fold_get min_delay max_delay
                (all_deltas set_iter freqs_dict_orig freqs_dict_sample) Dict.empty d)
    as Hget.
  pose proof (cast_fold_keys min_delay max_delay
                (all_deltas set_iter freqs_dict_orig freqs_dict_sample) Dict.empty d)
    as Hkeys.
  simpl in Hget, Hkeys. unfold Dict.get_default in Hget.
  destruct (existsb (Z.eqb d) (all_deltas set_iter freqs_dict_orig freqs_dict_sample))
    eqn:Ex.
  - destruct (Dict.get Z.eqb _ d) as [c|] eqn:E; [rewrite Hget; reflexivity|].
    apply (DictFacts.get_None_keys _ Z_eqb_eq) in E. exfalso; apply E.
    apply Hkeys. right. apply existsb_exists in Ex. destruct Ex as (x & Hx & Hd).
    apply Z.eqb_eq in Hd. subst x. exact Hx.
  - apply (DictFacts.get_None_keys _ Z_eqb_eq). intros Hin.
    apply Hkeys in Hin. destruct Hin as [[]|Hin].
    assert (existsb (Z.eqb d) (all_deltas set_iter freqs_dict_orig freqs_dict_sample)
            = true) by (apply existsb_exists; exists d; split; [exact Hin | apply Z.eqb_refl]).
    congruence.
Qed.


(** ** Moving one recording in time *)

Lemma keys_shift_sig (k : Z) (fd : signature) :
  Dict.keys (shift_sig k fd) = Dict.keys fd.
Proof.
  unfold Dict.keys, shift_sig. rewrite map_map. reflexivity.
Qed.

Lemma sig_get_shift_sig (k : Z) (fd : signature) (key : Z) :
  sig_get (shift_sig k fd) key = map (fun x => (x + k)%Z) (sig_get fd key).
Proof.
  unfold sig_get, Dict.get_default.
  induction fd as [|[key' l] fd IH]; simpl; [reflexivity|].
  destruct (key =? key')%Z; [reflexivity | exact IH].
Qed.

Lemma common_keys_shift_sig (set_iter : list Z -> list Z) (k : Z)
  (freqs_dict_orig freqs_dict_sample : signature) :
  common_keys set_iter freqs_dict_orig (shift_sig k freqs_dict_sample)
  = common_keys set_iter freqs_dict_orig freqs_dict_sample.
Proof. unfold common_keys. rewrite keys_shift_sig. reflexivity. Qed.

Lemma all_deltas_shift_sig (set_iter : list Z -> list Z) (k : Z)
  (freqs_dict_orig freqs_dict_sample : signature) :
  all_deltas set_iter freqs_dict_orig (shift_sig k freqs_dict_sample)
  = map (fun d => (d + k)%Z) (all_deltas set_iter freqs_dict_orig freqs_dict_sample).
Proof.
  unfold all_deltas. rewrite common_keys_shift_sig.
  induction (common_keys set_iter freqs_dict_orig freqs_dict_sample) as [|key ks IH];
    simpl; [reflexivity|].
  rewrite map_app, IH. f_equal.
  unfold deltas_of_key. rewrite sig_get_shift_sig.
  induction (sig_get freqs_dict_sample key) as [|x_i xs IHx]; simpl; [reflexivity|].
  rewrite map_app, IHx. f_equal. rewrite map_map.
  apply map_ext. intros x_j. lia.
Qed.

Lemma in_bounds_shift (k : Z) (min_delay max_delay : option Q) (d : Z) :
  in_bounds (shift_bound k min_delay) (shift_bound k max_delay) (d + k)%Z
  = in_bounds min_delay max_delay d.
Proof.
  unfold in_bounds, mincond_ok, maxcond_ok, shift_bound.
  assert (Hle : forall a b : Q,
            Qle_bool (a + inject_Z k) (b + inject_Z k) = Qle_bool a b).
  { intros a b. destruct (Qle_bool a b) eqn:E.
    - apply Qle_bool_iff in E. apply Qle_bool_iff. lra.
    - destruct (Qle_bool (a + inject_Z k) (b + inject_Z k)) eqn:E'; [|reflexivity].
      apply Qle_bool_iff in E'. assert (Qle_bool a b = true) by (apply Qle_bool_iff; lra).
      congruence. }
  assert (Hinj : forall m : Q,
            Qle_bool (m + inject_Z k) (inject_Z (d + k)) = Qle_bool m (inject_Z d)).
  { intros m. rewrite <- (Hle m (inject_Z d)).
    destruct (Qle_bool (m + inject_Z k) (inject_Z (d + k))) eqn:E.
    - symmetry. apply Qle_bool_iff in E. apply Qle_bool_iff.
      rewrite inject_Z_plus in E. exact E.
    - destruct (Qle_bool (m + inject_Z k) (inject_Z d + inject_Z k)) eqn:E'; [|reflexivity].
      apply Qle_bool_iff in E'.
      assert (Qle_bool (m + inject_Z k) (inject_Z (d + k)) = true)
        by (apply Qle_bool_iff; rewrite inject_Z_plus; exact E').
      congruence. }
  assert (Hinj' : forall m : Q,
            Qle_bool (inject_Z (d + k)) (m + inject_Z k) = Qle_bool (inject_Z d) m).
  { intros m. rewrite <- (Hle (inject_Z d) m).
    destruct (Qle_bool (inject_Z (d + k)) (m + inject_Z k)) eqn:E.
    - symmetry. apply Qle_bool_iff in E. apply Qle_bool_iff.
      rewrite inject_Z_plus in E. exact E.
    - destruct (Qle_bool (inject_Z d + inject_Z k) (m + inject_Z k)) eqn:E'; [|reflexivity].
      apply Qle_bool_iff in E'.
      assert (Qle_bool (inject_Z (d + k)) (m + inject_Z k) = true)
        by (apply Qle_bool_iff; rewrite inject_Z_plus; exact E').
      congruence. }
  destruct min_delay as [mn|], max_delay as [mx|]; simpl;
    rewrite ?Hinj, ?Hinj'; reflexivity.
Qed.

(** A histogram with every delta moved by [k]. *)
Local Abbreviation shift_hist := (fun (k : Z) (td : histogram) =>
  map (fun e : Z * nat => ((fst e + k)%Z, snd e)) td).

Lemma get_shift_hist (k : Z) (td : histogram) (d : Z) :
  Dict.get Z.eqb (shift_hist k td) (d + k)%Z = Dict.get Z.eqb td d.
Proof.
  induction td as [|[d' c] td IH]; simpl; [reflexivity|].
  replace (d + k =? d' + k)%Z with (d =? d')%Z; [rewrite IH; reflexivity|].
  destruct (Z.eqb_spec d d'), (Z.eqb_spec (d + k) (d' + k)); lia || reflexivity.
Qed.

Lemma set_shift_hist (k : Z) (td : histogram) (d : Z) (v : nat) :
  Dict.set Z.eqb (shift_hist k td) (d + k)%Z v = shift_hist k (Dict.set Z.eqb td d v).
Proof.
  induction td as [|[d' c] td IH]; simpl; [reflexivity|].
  replace (d + k =? d' + k)%Z with (d =? d')%Z.
  - destruct (d =? d')%Z; simpl; [reflexivity | rewrite IH; reflexivity].
  - destruct (Z.eqb_spec d d'), (Z.eqb_spec (d + k) (d' + k)); lia || reflexivity.
Qed.

Lemma cast_fold_shift (k : Z) (min_delay max_delay : option Q) (l : list Z)
  (td : histogram) :
  fold_left (cast (shift_bound k min_delay) (shift_bound k max_delay))
            (map (fun d => (d + k)%Z) l) (shift_hist k td)
  = shift_hist k (fold_left (cast min_delay max_delay) l td).
Proof.
  revert td. induction l as [|d l IH]; intros td; simpl; [reflexivity|].
  rewrite <- IH. f_equal. unfold add_vote, Dict.get_default.
  rewrite in_bounds_shift, get_shift_hist. apply set_shift_hist.
Qed.

Lemma sorted_shift_hist (k : Z) (td : histogram) :
  sorted count_leb (shift_hist k td) = shift_hist k (sorted count_leb td).
Proof.
  induction td as [|e td IH]; simpl; [reflexivity|].
  rewrite IH. generalize (sorted count_leb td). intros s.
  induction s as [|y s IHs]; simpl; [reflexivity|].
  unfold count_leb at 1 3. simpl.
  destruct (snd e <=? snd y)%nat; simpl; [reflexivity | rewrite IHs; reflexivity].
Qed.

Lemma last_item_map {A B : Type} (f : A -> B) (l : list A) :
  last_item (map f l) = x <- last_item l ;; Ok (f x).
Proof.
  induction l as [|a l IH]; simpl; [reflexivity|].
  destruct l as [|b l]; [reflexivity | exact IH].
Qed.

(** [_find_delay] with the sample signature and the bounds moved by [k]. *)
Lemma find_delay_shift (set_iter : list Z -> list Z) (k : Z)
  (freqs_dict_orig freqs_dict_sample : signature) (min_delay max_delay : option Q) :
  _find_delay set_iter freqs_dict_orig (shift_sig k freqs_dict_sample)
    (shift_bound k min_delay) (shift_bound k max_delay)
  = (d <- _find_delay set_iter freqs_dict_orig freqs_dict_sample min_delay max_delay ;;
     Ok (d + k)%Z).
Proof.
  unfold _find_delay. rewrite common_keys_shift_sig.
  destruct (common_keys set_iter freqs_dict_orig freqs_dict_sample) as [|key ks] eqn:Ek;
    [reflexivity|].
  rewrite !t_diffs_of_all_deltas, all_deltas_shift_sig.
  assert (H : fold_left (cast (shift_bound k min_delay) (shift_bound k max_delay))
                (map (fun d => (d + k)%Z)
                     (all_deltas set_iter freqs_dict_orig freqs_dict_sample))
                Dict.empty
              = shift_hist k
                  (fold_left (cast min_delay max_delay)
                     (all_deltas set_iter freqs_dict_orig freqs_dict_sample) Dict.empty))
    by apply (cast_fold_shift k min_delay max_delay _ Dict.empty).
  rewrite H, sorted_shift_hist, last_item_map.
  destruct (last_item _) as [e|ex]; reflexivity.
Qed.

(** X2: the Delay Finder follows a move in time.  When every time of the
    sample signature and both bounds are moved by [k] windows, the delta
    returned moves by [k]; an error stays the same error. *)
Theorem find_delay_follows_shift (set_iter : list Z -> list Z) (k : Z)
  (freqs_dict_orig freqs_dict_sample : signature) (min_delay max_delay : option Q) :
  _find_delay set_iter freqs_dict_orig (shift_sig k freqs_dict_sample)
    (shift_bound k min_delay) (shift_bound k max_delay)
  = match _find_delay set_iter freqs_dict_orig freqs_dict_sample min_delay max_delay with
    | Ok d => Ok (d + k)%Z
    | Raise e => Raise e
    end.
Proof.
  rewrite find_delay_shift.
  destruct (_find_delay set_iter freqs_dict_orig freqs_dict_sample min_delay max_delay);
    reflexivity.
Qed.


(** ** A recording against itself *)

Lemma list_min_exists (l : list Z) :
  l <> [] -> exists m, In m l /\ forall a, In a l -> (m <= a)%Z.
Proof.
  induction l as [|x l IH]; [congruence|]. intros _.
  destruct l as [|y l].
  - exists x. split; [left; reflexivity|]. intros a [<-|[]]. lia.
  - destruct IH as (m & Hm & Hle); [discriminate|].
    destruct (Z.le_gt_cases x m) as [H|H].
    + exists x. split; [left; reflexivity|].
      intros a [<-|Ha]; [lia|]. specialize (Hle a Ha). lia.
    + exists m. split; [right; exact Hm|].
      intros a [<-|Ha]; [lia | exact (Hle a Ha)].
Qed.

Lemma list_max_exists (l : list Z) :
  l <> [] -> exists m, In m l /\ forall a, In a l -> (a <= m)%Z.
Proof.
  induction l as [|x l IH]; [congruence|]. intros _.
  destruct l as [|y l].
  - exists x. split; [left; reflexivity|]. intros a [<-|[]]. lia.
  - destruct IH as (m & Hm & Hle); [discriminate|].
    destruct (Z.le_gt_cases m x) as [H|H].
    + exists x. split; [left; reflexivity|].
      intros a [<-|Ha]; [lia|]. specialize (Hle a Ha). lia.
    + exists m. split; [right; exact Hm|].
      intros a [<-|Ha]; [lia | exact (Hle a Ha)].
Qed.

Section SelfPairs.

(** The times under one key, without repetition. *)
Variable times : list Z.
Hypothesis times_NoDup : NoDup times.

Local Abbreviation diffs_from := (fun a : Z => map (fun b => (a - b)%Z) times).

(** How often the difference [d] occurs among [a - b], [b] in [times]. *)
Lemma count_diffs_from (a d : Z) :
  count_occ Z.eq_dec (diffs_from a) d = count_occ Z.eq_dec times (a - d)%Z.
Proof.
  replace d with ((fun b => (a - b)%Z) (a - d)%Z) at 1 by lia.
  symmetry. apply count_occ_map. intros x1 x2 H. lia.
Qed.

Lemma count_pairs_le (l : list Z) (d : Z) :
  (count_occ Z.eq_dec (flat_map diffs_from l) d <= length l)%nat.
Proof.
  induction l as [|a l IH]; simpl; [lia|].
  rewrite count_occ_app, count_diffs_from.
  pose proof (proj1 (NoDup_count_occ Z.eq_dec times) times_NoDup (a - d)%Z). lia.
Qed.

Lemma count_pairs_zero (l : list Z) :
  (forall a, In a l -> In a times) ->
  count_occ Z.eq_dec (flat_map diffs_from l) 0%Z = length l.
Proof.
  induction l as [|a l IH]; simpl; intros Hl; [reflexivity|].
  rewrite count_occ_app, count_diffs_from, IH by (intros; apply Hl; right; assumption).
  replace (a - 0)%Z with a by lia.
  rewrite (proj1 (NoDup_count_occ' Z.eq_dec times) times_NoDup a (Hl a (or_introl eq_refl))).
  reflexivity.
Qed.

Lemma count_pairs_lt_of (l : list Z) (a0 d : Z) :
  In a0 l -> ~ In (a0 - d)%Z times ->
  (count_occ Z.eq_dec (flat_map diffs_from l) d < length l)%nat.
Proof.
  intros Hin Hnot.
  apply in_split in Hin. destruct Hin as (l1 & l2 & ->).
  rewrite flat_map_app, count_occ_app, length_app. simpl.
  rewrite count_occ_app, count_diffs_from.
  rewrite (proj1 (count_occ_not_In Z.eq_dec times (a0 - d)%Z) Hnot).
  pose proof (count_pairs_le l1 d). pose proof (count_pairs_le l2 d). lia.
Qed.

Lemma count_pairs_lt (d : Z) :
  times <> [] -> d <> 0%Z ->
  (count_occ Z.eq_dec (flat_map diffs_from times) d < length times)%nat.
Proof.
  intros Hne Hd.
  destruct (Z.lt_gt_cases d 0) as [H _]. destruct (H Hd) as [Hneg|Hpos].
  - destruct (list_max_exists Hne) as (m & Hm & Hle).
    apply (count_pairs_lt_of times m d Hm).
    intros Hin. specialize (Hle _ Hin). lia.
  - destruct (list_min_exists Hne) as (m & Hm & Hle).
    apply (count_pairs_lt_of times m d Hm).
    intros Hin. specialize (Hle _ Hin). lia.
Qed.

End SelfPairs.

Section SelfDelay.

Variable set_iter : list Z -> list Z.
Variable fd : signature.
Hypothesis set_iter_In : forall l k, In k (set_iter l) <-> In k l.
Hypothesis fd_times :
  forall key l, Dict.get Z.eqb fd key = Some l -> NoDup l /\ l <> [].

Lemma self_key_times (key : Z) :
  In key (common_keys set_iter fd fd) ->
  NoDup (sig_get fd key) /\ sig_get fd key <> [].
Proof.
  intros Hk. apply common_keys_In in Hk; [|exact set_iter_In]. destruct Hk as [Hk _].
  unfold sig_get, Dict.get_default.
  destruct (Dict.get Z.eqb fd key) as [l|] eqn:E; [exact (fd_times _ E)|].
  apply (DictFacts.get_None_keys _ Z_eqb_eq) in E. contradiction.
Qed.

Lemma self_count_le (ks : list Z) (d : Z) :
  (forall key, In key ks -> In key (common_keys set_iter fd fd)) ->
  (count_occ Z.eq_dec (flat_map (deltas_of_key fd fd) ks) d
   <= count_occ Z.eq_dec (flat_map (deltas_of_key fd fd) ks) 0%Z)%nat.
Proof.
  induction ks as [|key ks IH]; simpl; intros Hks; [lia|].
  rewrite !count_occ_app.
  specialize (IH (fun k Hk => Hks k (or_intror Hk))).
  destruct (self_key_times key (Hks key (or_introl eq_refl))) as [Hnd _].
  unfold deltas_of_key at 1 3.
  rewrite (count_pairs_zero Hnd) by auto.
  pose proof (count_pairs_le Hnd (sig_get fd key) d). lia.
Qed.

Lemma self_count_lt (ks : list Z) (d : Z) :
  (forall key, In key ks -> In key (common_keys set_iter fd fd)) ->
  ks <> [] -> d <> 0%Z ->
  (count_occ Z.eq_dec (flat_map (deltas_of_key fd fd) ks) d
   < count_occ Z.eq_dec (flat_map (deltas_of_key fd fd) ks) 0%Z)%nat.
Proof.
  destruct ks as [|key ks]; [congruence|]. intros Hks _ Hd. simpl.
  rewrite !count_occ_app.
  pose proof (self_count_le ks d (fun k Hk => Hks k (or_intror Hk))) as Hrest.
  destruct (self_key_times key (Hks key (or_introl eq_refl))) as [Hnd Hne].
  unfold deltas_of_key at 1 3.
  rewrite (count_pairs_zero Hnd) by auto.
  pose proof (count_pairs_lt Hnd Hne Hd). lia.
Qed.

(** Against itself and without bounds, a signature gives the delta 0. *)
Lemma find_delay_self_zero :
  fd <> [] -> _find_delay set_iter fd fd None None = Ok 0%Z.
Proof.
  intros Hfd.
  assert (Hkeys : common_keys set_iter fd fd <> []).
  { destruct fd as [|[key l] fd']; [congruence|].
    assert (H : In key (common_keys set_iter ((key, l) :: fd') ((key, l) :: fd'))).
    { apply common_keys_In; [exact set_iter_In|]. simpl. auto. }
    intros E. rewrite E in H. exact H. }
  assert (Hcount : forall d,
            Dict.get_default Z.eqb 0%nat (t_diffs_of set_iter fd fd None None) d
            = count_occ Z.eq_dec (all_deltas set_iter fd fd) d).
  { intros d. rewrite t_diffs_of_all_deltas, cast_fold_get. reflexivity. }
  assert (Hlt : forall d, d <> 0%Z ->
            (count_occ Z.eq_dec (all_deltas set_iter fd fd) d
             < count_occ Z.eq_dec (all_deltas set_iter fd fd) 0%Z)%nat).
  { intros d Hd. apply self_count_lt; auto. }
  assert (Hne : t_diffs_of set_iter fd fd None None <> []).
  { intros E. pose proof (Hcount 0%Z) as H0. rewrite E in H0.
    pose proof (Hlt 1%Z ltac:(lia)) as H1.
    change (Dict.get_default Z.eqb 0%nat [] 0%Z) with 0%nat in H0.
    rewrite <- H0 in H1. lia. }
  destruct (find_delay_histogram_nonempty set_iter fd fd None None Hkeys Hne) as (w & Hw).
  rewrite Hw. f_equal.
  destruct (Z.eq_dec w 0) as [E|Hw0]; [exact E|]. exfalso.
  apply find_delay_Ok_iff in Hw. destruct Hw as (_ & c & l1 & l2 & Heq & H1 & H2).
  assert (Hin : In (w, c) (t_diffs_of set_iter fd fd None None))
    by (rewrite Heq; apply in_or_app; right; left; reflexivity).
  assert (Hgw : Dict.get Z.eqb (t_diffs_of set_iter fd fd None None) w = Some c).
  { apply (DictFacts.In_get_NoDup _ Z_eqb_eq); [apply t_diffs_NoDup | exact Hin]. }
  pose proof (Hcount w) as Hcw. unfold Dict.get_default in Hcw. rewrite Hgw in Hcw.
  pose proof (Hcount 0%Z) as Hc0. unfold Dict.get_default in Hc0.
  pose proof (Hlt w Hw0) as Hlt_w.
  destruct (Dict.get Z.eqb (t_diffs_of set_iter fd fd None None) 0%Z) as [c0|] eqn:E0;
    [|lia].
  apply (DictFacts.get_Some_In _ Z_eqb_eq) in E0. rewrite Heq in E0.
  apply in_app_or in E0. destruct E0 as [H|[H|H]].
  - specialize (H1 _ H). simpl in H1. lia.
  - inversion H; subst. congruence.
  - specialize (H2 _ H). simpl in H2. lia.
Qed.

End SelfDelay.

(** X3: a signature whose time lists are non-empty and without repetition,
    compared without bounds with a copy of itself moved by [k] windows,
    gives the delta [k]; compared with itself it gives 0. *)
Theorem find_delay_of_shifted_copy (set_iter : list Z -> list Z) (fd : signature)
  (k : Z) :
  (forall l key, In key (set_iter l) <-> In key l) ->
  (forall key l, Dict.get Z.eqb fd key = Some l -> NoDup l /\ l <> []) ->
  fd <> [] ->
  _find_delay set_iter fd fd None None = Ok 0%Z
  /\ _find_delay set_iter fd (shift_sig k fd) None None = Ok k.
Proof.
  intros Hset Htimes Hfd.
  pose proof (@find_delay_self_zero set_iter fd Hset Htimes Hfd) as H0.
  split; [exact H0|].
  pose proof (find_delay_shift set_iter k fd fd None None) as Hs.
  simpl in Hs. rewrite Hs, H0. reflexivity.
Qed.

Lemma find_delay_of_shifted_copy_witness :
  _find_delay set_iter_first [(3, [0; 4; 9]); (7, [2])]%Z
    (shift_sig 5 [(3, [0; 4; 9]); (7, [2])]%Z) None None = Ok 5%Z.
Proof.
  refine (proj2 (@find_delay_of_shifted_copy set_iter_first
                   [(3, [0; 4; 9]); (7, [2])]%Z 5%Z
                   (fun l key => nodup_In Z.eq_dec l key) _ _)).
  - intros key l. simpl.
    destruct (key =? 3)%Z; [intros H; inversion H; subst; split;
                            [repeat constructor; simpl; intuition lia | discriminate]|].
    destruct (key =? 7)%Z; [intros H; inversion H; subst; split;
                            [repeat constructor; simpl; intuition lia | discriminate]|].
    discriminate.
  - discriminate.
Defined.


(** ** Bounds that some difference satisfies *)

(** X4: when at least one difference [x_i - x_j] under a common key lies
    within the bounds, [_find_delay] returns, and the delta it returns lies
    within the bounds and has at least one vote. *)
Theorem find_delay_within_satisfiable_bounds (set_iter : list Z -> list Z)
  (freqs_dict_orig freqs_dict_sample : signature) (min_delay max_delay : option Q) :
  (exists key x_i x_j,
      In key (common_keys set_iter freqs_dict_orig freqs_dict_sample)
      /\ In x_i (sig_get freqs_dict_sample key)
      /\ In x_j (sig_get freqs_dict_orig key)
      /\ in_bounds min_delay max_delay (x_i - x_j) = true) ->
  exists d c,
    _find_delay set_iter freqs_dict_orig freqs_dict_sample min_delay max_delay = Ok d
    /\ in_bounds min_delay max_delay d = true
    /\ Dict.get Z.eqb
         (t_diffs_of set_iter freqs_dict_orig freqs_dict_sample min_delay max_delay) d
       = Some c
    /\ (1 <= c)%nat.
Proof.
  intros (key & x_i & x_j & Hkey & Hxi & Hxj & Hin).
  set (t_diffs := t_diffs_of set_iter freqs_dict_orig freqs_dict_sample min_delay max_delay).
  assert (Hkeys : common_keys set_iter freqs_dict_orig freqs_dict_sample <> [])
    by (intros E; rewrite E in Hkey; exact Hkey).
  pose proof (t_diffs_complete set_iter freqs_dict_orig freqs_dict_sample
                min_delay max_delay key x_i x_j Hkey Hxi Hxj) as Hmem.
  fold t_diffs in Hmem.
  apply in_map_iff in Hmem. destruct Hmem as ([d0 c0] & Hfst & Hmem). simpl in Hfst; subst d0.
  pose proof (t_diffs_counts _ _ _ _ _ _ _ Hmem) as Hc0. rewrite Hin in Hc0.
  destruct (winner_exists (l := t_diffs)) as (l1 & [d c] & l2 & Heq & H1 & H2).
  { intros E. rewrite E in Hmem. exact Hmem. }
  simpl in H1, H2.
  assert (Hc : (1 <= c)%nat).
  { rewrite Heq in Hmem. apply in_app_or in Hmem. destruct Hmem as [H|[H|H]].
    - specialize (H1 _ H); simpl in H1; lia.
    - inversion H; subst; lia.
    - specialize (H2 _ H); simpl in H2; lia. }
  assert (Hdc : In (d, c) t_diffs)
    by (rewrite Heq; apply in_or_app; right; left; reflexivity).
  exists d, c. split; [|split; [|split]].
  - apply find_delay_Ok_iff. split; [exact Hkeys|]. exists c, l1, l2. auto.
  - pose proof (t_diffs_counts _ _ _ _ _ _ _ Hdc) as Hcount.
    destruct (in_bounds min_delay max_delay d); [reflexivity | lia].
  - apply (DictFacts.In_get_NoDup _ Z_eqb_eq); [apply t_diffs_NoDup | exact Hdc].
  - exact Hc.
Qed.

Lemma find_delay_within_satisfiable_bounds_witness :
  exists d c,
    _find_delay set_iter_first [(1, [0; 1])]%Z [(1, [5; 7])]%Z
      (Some (7 # 1)) (Some (9 # 1)) = Ok d
    /\ in_bounds (Some (7 # 1)) (Some (9 # 1)) d = true
    /\ Dict.get Z.eqb
         (t_diffs_of set_iter_first [(1, [0; 1])]%Z [(1, [5; 7])]%Z
            (Some (7 # 1)) (Some (9 # 1))) d = Some c
    /\ (1 <= c)%nat.
Proof.
  apply (@find_delay_within_satisfiable_bounds set_iter_first
           [(1, [0; 1])]%Z [(1, [5; 7])]%Z (Some (7 # 1)) (Some (9 # 1))).
  exists 1%Z, 7%Z, 0%Z. simpl. repeat split; auto.
Defined.

(** ** When the Signature Extractor raises *)







(** X6: a buffer with fewer than [fft_bin_size] samples has no full window:
    the extractor returns the empty signature, and [_find_delay] raises the
    "no correlation" error for it against any signature, on either side. *)
Theorem short_buffer_has_no_correlation (set_iter : list Z -> list Z)
  (fft_abs : list Z -> list Q) (data : list Z)
  (fft_bin_size overlap box_height box_width maxes_per_box : Z) :
  (forall l k, In k (set_iter l) <-> In k l) ->
  (0 <= overlap < fft_bin_size)%Z ->
  (len data < fft_bin_size)%Z ->
  _mk_freq_trans_summary fft_abs data fft_bin_size overlap
    box_height box_width maxes_per_box = Ok Dict.empty
  /\ forall other min_delay max_delay,
       _find_delay set_iter other Dict.empty min_delay max_delay = Raise NoCorrelation
       /\ _find_delay set_iter Dict.empty other min_delay max_delay = Raise NoCorrelation.
Proof.
  intros Hset Ho Hlen. split.
  - unfold _mk_freq_trans_summary. rewrite boxes_of_full_windows.
    destruct (windows_spec data Ho) as (n & Hw & _).
    unfold full_windows. rewrite Hw. simpl. clear Hw.
    replace (filter _ _) with (@nil (Z * list Z)); [reflexivity|].
    symmetry. induction (seq 0 n) as [|i l IH]; simpl; [reflexivity|].
    destruct (Z.eqb_spec
                (len (window_at data fft_bin_size
                        (window_start fft_bin_size overlap (Z.of_nat i))))
                fft_bin_size) as [E|_]; [|exact IH].
    apply window_full_iff in E; lia.
  - intros other mn mx. split; apply find_delay_NoCorrelation_iff; try exact Hset;
      intros k [H1 H2]; simpl in *; contradiction.
Qed.

Lemma short_buffer_has_no_correlation_witness :
  _mk_freq_trans_summary dft_abs_2 [7]%Z 2 0 1 1000 1 = Ok Dict.empty.
Proof.
  exact (proj1 (@short_buffer_has_no_correlation set_iter_first dft_abs_2 [7]%Z
                  2 0 1 1000 1 (fun l k => nodup_In Z.eq_dec l k)
                  ltac:(lia) ltac:(vm_compute; reflexivity))).
Defined.


(** ** The entries of a signature *)

Lemma list_remove_split (v : triple) (l kept : list triple) :
  list_remove v l = Ok kept ->
  exists l1 t l2, l = l1 ++ t :: l2 /\ kept = l1 ++ l2.
Proof.
  revert kept. induction l as [|t l IH]; simpl; intros kept H; [discriminate|].
  destruct (triple_eqb t v).
  - inversion H; subst. exists [], t, kept. split; reflexivity.
  - apply bind_Ok_inv in H as (r & Hr & H). inversion H; subst.
    destruct (IH _ Hr) as (l1 & t' & l2 & -> & ->).
    exists (t :: l1), t', l2. split; reflexivity.
Qed.

(** The [(y, x)] pairs of a list of box entries. *)
Local Abbreviation pairs_of := (map (fun e : triple => (snd e, snd (fst e)))).

(** Replacing the box of a cell replaces its pairs among all pairs. *)
Lemma set_box_entries (boxes : boxes_t) (cell : Z * Z) :
  exists rest,
    Permutation (flat_map box_entries boxes)
                (pairs_of (Dict.get_default cell_eqb [] boxes cell) ++ rest)
    /\ forall v, Permutation (flat_map box_entries (Dict.set cell_eqb boxes cell v))
                             (pairs_of v ++ rest).
Proof.
  unfold Dict.get_default.
  induction boxes as [|[c l] boxes IH]; simpl.
  - exists []. split; [reflexivity|]. intros v. reflexivity.
  - destruct (cell_eqb cell c) eqn:E.
    + exists (flat_map box_entries boxes). split; [reflexivity|].
      intros v. reflexivity.
    + destruct IH as (rest & Hold & Hnew).
      exists (pairs_of l ++ rest). split.
      * rewrite Hold. apply Permutation_app_swap_app.
      * intros v. simpl. rewrite (Hnew v). apply Permutation_app_swap_app.
Qed.

(** Appending an entry whose pair is new keeps the pairs of the boxes
    without repetition; no pair other than the new one appears. *)
Lemma box_append_entries (maxes_per_box : Z) (boxes boxes' : boxes_t)
  (cell : Z * Z) (i : Q) (x y : Z) :
  box_append maxes_per_box boxes cell (i, x, y) = Ok boxes' ->
  NoDup (flat_map box_entries boxes) ->
  ~ In (y, x) (flat_map box_entries boxes) ->
  NoDup (flat_map box_entries boxes')
  /\ forall p, In p (flat_map box_entries boxes') ->
               p = (y, x) \/ In p (flat_map box_entries boxes).
Proof.
  intros Happ Hnd Hnew.
  destruct (set_box_entries boxes cell) as (rest & Hold & Hset).
  unfold box_append in Happ.
  set (old := Dict.get_default cell_eqb [] boxes cell) in *. clearbody old.
  assert (Hnd_app : NoDup (pairs_of (old ++ @cons triple (i, x, y) (@nil triple)) ++ rest)).
  { rewrite map_app. simpl. rewrite <- app_assoc. simpl.
    apply (Permutation_NoDup (Permutation_middle _ _ _)).
    constructor.
    - intros Hin. apply Hnew. apply (Permutation_in _ (Permutation_sym Hold)). exact Hin.
    - apply (Permutation_NoDup Hold). exact Hnd. }
  assert (Hmem_app : forall p, In p (pairs_of (old ++ @cons triple (i, x, y) (@nil triple)) ++ rest) ->
            p = (y, x) \/ In p (flat_map box_entries boxes)).
  { intros p Hp. rewrite map_app in Hp. simpl in Hp. rewrite <- app_assoc in Hp.
    apply in_app_or in Hp. destruct Hp as [Hp|[Hp|Hp]].
    - right. apply (Permutation_in _ (Permutation_sym Hold)), in_or_app. left; exact Hp.
    - left. symmetry. exact Hp.
    - right. apply (Permutation_in _ (Permutation_sym Hold)), in_or_app. right; exact Hp. }
  match type of Happ with context [if ?c then _ else _] => destruct c end.
  - apply bind_Ok_inv in Happ as (m & _ & Happ).
    apply bind_Ok_inv in Happ as (kept & Hkept & Happ).
    inversion Happ; subst boxes'; clear Happ.
    apply list_remove_split in Hkept. destruct Hkept as (l1 & t & l2 & Heq & ->).
    rewrite Heq in Hnd_app, Hmem_app.
    rewrite map_app in Hnd_app, Hmem_app. simpl in Hnd_app, Hmem_app.
    rewrite <- app_assoc in Hnd_app, Hmem_app. simpl in Hnd_app, Hmem_app.
    split.
    + apply (Permutation_NoDup (Permutation_sym (Hset (l1 ++ l2)))).
      rewrite map_app, <- app_assoc. eapply NoDup_remove_1. exact Hnd_app.
    + intros p Hp. apply (Permutation_in _ (Hset (l1 ++ l2))) in Hp.
      apply Hmem_app. rewrite map_app, <- app_assoc in Hp.
      apply in_app_or in Hp. apply in_or_app.
      destruct Hp as [Hp|Hp]; [left; exact Hp | right; right; exact Hp].
  - inversion Happ; subst boxes'; clear Happ. split.
    + apply (Permutation_NoDup (Permutation_sym (Hset _))). exact Hnd_app.
    + intros p Hp. apply Hmem_app. apply (Permutation_in _ (Hset _)). exact Hp.
Qed.


Section SignatureEntries.

Variable fft_abs : list Z -> list Q.
Variable data : list Z.
Variables fft_bin_size box_height box_width maxes_per_box : Z.
(** The iterations of the main loop: window index and start position. *)
Variable xjs : list (Z * Z).

(** A pair [(y, x)] that a full window of the loop accounts for. *)
Local Abbreviation accounted := (fun p : Z * Z =>
  exists j, In (snd p, j) xjs
    /\ len (window_at data fft_bin_size j) = fft_bin_size
    /\ (0 <= fst p < len (fft_abs (window_at data fft_bin_size j)) / 2)%Z).

(** A pair entered before the pair [(ylim, xlim)] is. *)
Local Abbreviation before := (fun (xlim ylim : Z) (p : Z * Z) =>
  (snd p < xlim)%Z \/ (snd p = xlim /\ (fst p < ylim)%Z)).

Local Abbreviation entries_inv := (fun (xlim ylim : Z) (boxes : boxes_t) =>
  NoDup (flat_map box_entries boxes)
  /\ forall p, In p (flat_map box_entries boxes) -> accounted p /\ before xlim ylim p).

Lemma add_window_loop_entries (x j box_x : Z) (n : nat) :
  In (x, j) xjs ->
  len (window_at data fft_bin_size j) = fft_bin_size ->
  forall (boxes boxes' : boxes_t) (a : nat),
    (forall i, (a <= i < a + n)%nat ->
       (Z.of_nat i < len (fft_abs (window_at data fft_bin_size j)) / 2)%Z) ->
    entries_inv x (Z.of_nat a) boxes ->
    for_each
      (fun bs y =>
         box_y <- floordiv y box_height ;;
         box_append maxes_per_box bs (box_x, box_y)
           (nth (Z.to_nat y) (fft_abs (window_at data fft_bin_size j)) 0%Q, x, y))
      (map (fun i => (0 + Z.of_nat i * 1)%Z) (seq a n)) boxes = Ok boxes' ->
    entries_inv x (Z.of_nat (a + n)) boxes'.
Proof.
  intros Hin Hfull. induction n as [|n IH]; intros boxes boxes' a Hrange Hinv Hrun;
    simpl in Hrun.
  - inversion Hrun; subst. rewrite Nat.add_0_r. exact Hinv.
  - apply bind_Ok_inv in Hrun as (bs1 & Hstep & Hrun).
    apply bind_Ok_inv in Hstep as (box_y & _ & Hstep).
    replace (0 + Z.of_nat a * 1)%Z with (Z.of_nat a) in Hstep by lia.
    destruct Hinv as (Hnd & Hall).
    destruct (box_append_entries _ _ _ _ _ _ Hstep Hnd) as (Hnd1 & Hmem1).
    { intros Hp. destruct (Hall _ Hp) as (_ & [Hb|[_ Hb]]); simpl in Hb; lia. }
    replace (a + S n)%nat with (S a + n)%nat by lia.
    apply (IH bs1 boxes' (S a)); [intros i Hi; apply Hrange; lia| |exact Hrun].
    split; [exact Hnd1|].
    intros p Hp. destruct (Hmem1 p Hp) as [->|Hold].
    + split.
      * exists j. simpl. split; [exact Hin|]. split; [exact Hfull|].
        specialize (Hrange a ltac:(lia)). lia.
      * right. simpl. lia.
    + destruct (Hall p Hold) as (Hacc & Hbef). split; [exact Hacc|].
      destruct Hbef as [Hb|[Hb1 Hb2]]; [left; exact Hb | right; lia].
Qed.

Lemma add_window_entries (x j : Z) (boxes boxes' : boxes_t) :
  In (x, j) xjs ->
  len (window_at data fft_bin_size j) = fft_bin_size ->
  entries_inv x 0%Z boxes ->
  add_window fft_abs box_height box_width maxes_per_box boxes x
             (window_at data fft_bin_size j) = Ok boxes' ->
  entries_inv (x + 1)%Z 0%Z boxes'.
Proof.
  intros Hin Hfull Hinv H. unfold add_window in H.
  apply bind_Ok_inv in H as (box_x & _ & H).
  apply bind_Ok_inv in H as (ys & Hys & H).
  rewrite py_range_step_pos in Hys by lia. inversion Hys; subst ys; clear Hys.
  set (n := Z.to_nat ((len (fft_abs (window_at data fft_bin_size j)) / 2 - 0 + 1 - 1) / 1))
    in H.
  destruct (@add_window_loop_entries x j box_x n Hin Hfull boxes boxes' 0%nat)
    as (Hnd & Hall); [| exact Hinv | exact H |].
  - intros i Hi.
    pose proof (proj1 (range_count_spec 0
                         (len (fft_abs (window_at data fft_bin_size j)) / 2)
                         i (step := 1) ltac:(lia))) as Hr.
    fold n in Hr. specialize (Hr ltac:(lia)). lia.
  - split; [exact Hnd|]. intros p Hp. destruct (Hall p Hp) as (Hacc & Hbef).
    split; [exact Hacc|]. left. destruct Hbef as [Hb|[Hb _]]; lia.
Qed.

Lemma windows_loop_entries (l : list Z) :
  forall (a : nat) (boxes boxes' : boxes_t),
    (forall xj, In xj (combine (map Z.of_nat (seq a (length l))) l) -> In xj xjs) ->
    entries_inv (Z.of_nat a) 0%Z boxes ->
    for_each (window_step fft_abs data fft_bin_size box_height box_width maxes_per_box)
             (combine (map Z.of_nat (seq a (length l))) l) boxes = Ok boxes' ->
    entries_inv (Z.of_nat (a + length l)) 0%Z boxes'.
Proof.
  induction l as [|j l IH]; intros a boxes boxes' Hsub Hinv Hrun; simpl in Hrun.
  - inversion Hrun; subst. simpl. rewrite Nat.add_0_r. exact Hinv.
  - apply bind_Ok_inv in Hrun as (bs1 & Hstep & Hrun).
    simpl length. replace (a + S (length l))%nat with (S a + length l)%nat by lia.
    apply (IH (S a) bs1 boxes'); [|  |exact Hrun].
    + intros xj Hxj. apply Hsub. simpl. right. exact Hxj.
    + replace (Z.of_nat (S a)) with (Z.of_nat a + 1)%Z by lia.
      unfold window_step in Hstep.
      destruct (Z.eqb_spec (len (window_at data fft_bin_size j)) fft_bin_size) as [E|_].
      * assert (Hin : In (Z.of_nat a, j) xjs) by (apply Hsub; simpl; left; reflexivity).
        exact (@add_window_entries (Z.of_nat a) j boxes bs1 Hin E Hinv Hstep).
      * inversion Hstep; subst bs1. destruct Hinv as (Hnd & Hall).
        split; [exact Hnd|]. intros p Hp. destruct (Hall p Hp) as (Hacc & Hbef).
        split; [exact Hacc|]. left. destruct Hbef as [Hb|[Hb _]]; lia.
Qed.

End SignatureEntries.

Lemma sig_append_keys_NoDup (fd : signature) (y x : Z) :
  NoDup (Dict.keys fd) -> NoDup (Dict.keys (sig_append fd y x)).
Proof. apply (DictFacts.keys_set_NoDup _ Z_eqb_eq). Qed.

Lemma flatten_boxes_keys_NoDup (boxes : boxes_t) :
  NoDup (Dict.keys (flatten_boxes boxes)).
Proof.
  unfold flatten_boxes.
  apply (fold_left_inv (fun fd : signature => NoDup (Dict.keys fd))); [|constructor].
  intros fd box Hfd.
  apply (fold_left_inv (fun fd : signature => NoDup (Dict.keys fd))); [|exact Hfd].
  intros fd' [[i x] y] Hfd'. apply sig_append_keys_NoDup. exact Hfd'.
Qed.

Lemma sig_entries_NoDup_times (fd : signature) (key : Z) (l : list Z) :
  NoDup (sig_entries fd) -> In (key, l) fd -> NoDup l.
Proof.
  intros Hnd Hin. apply in_split in Hin. destruct Hin as (fd1 & fd2 & ->).
  unfold sig_entries in Hnd. rewrite flat_map_app in Hnd. simpl in Hnd.
  apply NoDup_app_remove_l in Hnd. apply NoDup_app_remove_r in Hnd.
  apply NoDup_map_inv in Hnd. exact Hnd.
Qed.

(** What the extractor guarantees about the signature it returns. *)
Lemma mk_freq_trans_summary_entries (fft_abs : list Z -> list Q) (data : list Z)
  (fft_bin_size overlap box_height box_width maxes_per_box : Z) (fd : signature) :
  _mk_freq_trans_summary fft_abs data fft_bin_size overlap
    box_height box_width maxes_per_box = Ok fd ->
  exists js,
    py_range (- overlap) (len data) (fft_bin_size - overlap) = Ok js
    /\ NoDup (Dict.keys fd)
    /\ NoDup (sig_entries fd)
    /\ forall p, In p (sig_entries fd) ->
         exists j, In (snd p, j) (enumerate js)
           /\ len (window_at data fft_bin_size j) = fft_bin_size
           /\ (0 <= fst p < len (fft_abs (window_at data fft_bin_size j)) / 2)%Z.
Proof.
  intros H.
  apply mk_freq_trans_summary_boxes in H as (js & boxes & Hjs & Hrun & ->).
  exists js. split; [exact Hjs|]. split; [apply flatten_boxes_keys_NoDup|].
  unfold enumerate in Hrun.
  apply (@windows_loop_entries fft_abs data fft_bin_size box_height box_width
           maxes_per_box (enumerate js) js 0%nat Dict.empty boxes) in Hrun.
  - destruct Hrun as (Hnd & Hall). split.
    + apply (Permutation_NoDup (Permutation_sym (flatten_boxes_entries boxes))). exact Hnd.
    + intros p Hp. apply (Permutation_in _ (flatten_boxes_entries boxes)) in Hp.
      apply (Hall p Hp).
  - intros xj Hxj. exact Hxj.
  - split; [constructor|]. intros p [].
Qed.


Lemma get_In_sig_entries (fd : signature) (key x : Z) (l : list Z) :
  Dict.get Z.eqb fd key = Some l -> In x l -> In (key, x) (sig_entries fd).
Proof.
  intros Hget Hx. apply (DictFacts.get_Some_In _ Z_eqb_eq) in Hget.
  unfold sig_entries. apply in_flat_map. exists (key, l). split; [exact Hget|].
  simpl. apply in_map. exact Hx.
Qed.

(** X7: in a signature that the extractor returns for
    [0 <= overlap < fft_bin_size], the spectrum of a full window being as
    long as the window,
    no key is repeated, every key is a frequency index in
    [0, fft_bin_size // 2), and its list of times is not empty, has no
    repetition and holds only indices [x >= 0] of windows that lie entirely
    within the buffer. *)
Theorem signature_entries_well_formed (fft_abs : list Z -> list Q) (data : list Z)
  (fft_bin_size overlap box_height box_width maxes_per_box : Z) (fd : signature) :
  (0 <= overlap < fft_bin_size)%Z ->
  (forall w, len w = fft_bin_size -> length (fft_abs w) = length w) ->
  _mk_freq_trans_summary fft_abs data fft_bin_size overlap
    box_height box_width maxes_per_box = Ok fd ->
  NoDup (Dict.keys fd)
  /\ forall key l,
       Dict.get Z.eqb fd key = Some l ->
       l <> [] /\ NoDup l
       /\ (0 <= key < fft_bin_size / 2)%Z
       /\ forall x, In x l ->
            (0 <= x)%Z
            /\ (Z.max 0 (window_start fft_bin_size overlap x) + fft_bin_size
                <= len data)%Z.
Proof.
  intros Ho Hfft H.
  pose proof (mk_freq_trans_summary_nonempty _ _ _ _ _ _ _ H) as Hne.
  destruct (mk_freq_trans_summary_entries _ _ _ _ _ _ _ H) as (js & Hjs & Hk & Hnd & Hall).
  split; [exact Hk|]. intros key l Hget.
  assert (Hentry : forall x, In x l ->
            (0 <= x)%Z
            /\ (Z.max 0 (window_start fft_bin_size overlap x) + fft_bin_size <= len data)%Z
            /\ (0 <= key < fft_bin_size / 2)%Z).
  { intros x Hx.
    destruct (Hall _ (@get_In_sig_entries fd key x l Hget Hx)) as (j & Hin & Hfull & Hy).
    simpl in Hin, Hy.
    rewrite py_range_step_pos in Hjs by lia. inversion Hjs; subst js; clear Hjs.
    rewrite enumerate_map_seq in Hin. apply in_map_iff in Hin.
    destruct Hin as (i & Heq & _). inversion Heq; subst x j; clear Heq.
    assert (Hj : (- overlap + Z.of_nat i * (fft_bin_size - overlap))%Z
                 = window_start fft_bin_size overlap (Z.of_nat i)) by reflexivity.
    rewrite Hj in Hfull, Hy.
    split; [lia|]. split.
    - apply window_full_iff; [lia | exact Hfull].
    - unfold len in Hy at 1. rewrite (Hfft _ Hfull) in Hy.
      fold (len (window_at data fft_bin_size
                   (window_start fft_bin_size overlap (Z.of_nat i)))) in Hy.
      rewrite Hfull in Hy. exact Hy. }
  split; [exact (Hne _ _ Hget)|]. split.
  - apply (@sig_entries_NoDup_times fd key l Hnd).
    apply (DictFacts.get_Some_In _ Z_eqb_eq). exact Hget.
  - split.
    + destruct l as [|x l]; [exfalso; exact (Hne _ _ Hget eq_refl)|].
      apply (Hentry x). left; reflexivity.
    + intros x Hx. destruct (Hentry x Hx) as (H1 & H2 & _). auto.
Qed.

Lemma signature_entries_well_formed_witness :
  exists fd,
    _mk_freq_trans_summary dft_abs_2 [1; 5; 2; 2; 3; 1; 0; 9]%Z 2 0 1 2 1 = Ok fd
    /\ NoDup (Dict.keys fd).
Proof.
  destruct (_mk_freq_trans_summary dft_abs_2 [1; 5; 2; 2; 3; 1; 0; 9]%Z 2 0 1 2 1)
    as [fd|e] eqn:H; [|vm_compute in H; discriminate].
  exists fd. split; [reflexivity|].
  refine (proj1 (@signature_entries_well_formed dft_abs_2 [1; 5; 2; 2; 3; 1; 0; 9]%Z
                   2 0 1 2 1 fd ltac:(lia) _ H)).
  intros w Hw. destruct w as [|a [|b [|c w]]]; try reflexivity.
  unfold len in Hw. simpl length in Hw. lia.
Defined.

(** X8: a non-empty signature that the extractor returns, compared without
    bounds with itself, gives the delta 0, and compared with a copy of
    itself moved by [k] windows gives the delta [k]. *)
Theorem extracted_signature_against_shifted_copy (set_iter : list Z -> list Z)
  (fft_abs : list Z -> list Q) (data : list Z)
  (fft_bin_size overlap box_height box_width maxes_per_box : Z)
  (fd : signature) (k : Z) :
  (forall l key, In key (set_iter l) <-> In key l) ->
  _mk_freq_trans_summary fft_abs data fft_bin_size overlap
    box_height box_width maxes_per_box = Ok fd ->
  fd <> [] ->
  _find_delay set_iter fd fd None None = Ok 0%Z
  /\ _find_delay set_iter fd (shift_sig k fd) None None = Ok k.
Proof.
  intros Hset H Hfd.
  pose proof (mk_freq_trans_summary_nonempty _ _ _ _ _ _ _ H) as Hne.
  destruct (mk_freq_trans_summary_entries _ _ _ _ _ _ _ H) as (js & _ & _ & Hnd & _).
  assert (Htimes : forall key l, Dict.get Z.eqb fd key = Some l -> NoDup l /\ l <> []).
  { intros key l Hget. split; [|exact (Hne _ _ Hget)].
    apply (@sig_entries_NoDup_times fd key l Hnd).
    apply (DictFacts.get_Some_In _ Z_eqb_eq). exact Hget. }
  pose proof (@find_delay_self_zero set_iter fd Hset Htimes Hfd) as H0.
  split; [exact H0|].
  pose proof (find_delay_shift set_iter k fd fd None None) as Hs.
  simpl in Hs. rewrite Hs, H0. reflexivity.
Qed.

Lemma extracted_signature_against_shifted_copy_witness :
  exists fd,
    _mk_freq_trans_summary dft_abs_2 [1; 5; 2; 2; 3; 1; 0; 9]%Z 2 0 1 2 1 = Ok fd
    /\ _find_delay set_iter_first fd (shift_sig 4 fd) None None = Ok 4%Z.
Proof.
  exists [(0, [0; 3])]%Z. split; [reflexivity|].
  refine (proj2 (@extracted_signature_against_shifted_copy set_iter_first dft_abs_2
                   [1; 5; 2; 2; 3; 1; 0; 9]%Z 2 0 1 2 1 [(0, [0; 3])]%Z 4%Z
                   (fun l key => nodup_In Z.eq_dec l key) eq_refl _)).
  discriminate.
Defined.


(** ** What chain propagation leaves alone *)

(** A file that has a constraint against file 0, in either direction. *)
Local Abbreviation linked := (fun (_result1 : Dict.t (nat * nat) Q) (k : nat) =>
  Dict.contains pair_eqb _result1 (0, k)%nat = true
  \/ Dict.contains pair_eqb _result1 (k, 0)%nat = true).

Lemma chain_step_other (_result1 : Dict.t (nat * nat) Q) (edge : nat * nat)
  (_result2 r2' : Dict.t (nat * nat) Q) (i : nat) (key : nat * nat) :
  chain_step _result1 edge _result2 i = Ok r2' ->
  key <> (0, i + 1)%nat \/ linked _result1 (i + 1)%nat ->
  Dict.get pair_eqb r2' key = Dict.get pair_eqb _result2 key.
Proof.
  destruct edge as [ib it]. unfold chain_step. intros H Hkey.
  destruct (Dict.contains pair_eqb _result1 (0, i + 1)%nat) eqn:E1;
    [rewrite !andb_false_r in H; inversion H; reflexivity|].
  destruct (Dict.contains pair_eqb _result1 (i + 1, 0)%nat) eqn:E2;
    [rewrite !andb_false_r in H; inversion H; reflexivity|].
  destruct Hkey as [Hkey|[Hl|Hl]]; [|congruence|congruence].
  simpl in H. rewrite !andb_true_r in H.
  destruct ((0 <? ib)%nat && (it =? i + 1)%nat) eqn:C1.
  - apply andb_true_iff in C1 as [_ C1]. apply Nat.eqb_eq in C1. subst it.
    apply bind_Ok_inv in H as (a & _ & H). apply bind_Ok_inv in H as (b & _ & H).
    inversion H; subst. apply (DictFacts.get_set_other _ pair_eqb_eq). congruence.
  - destruct ((0 <? it)%nat && (ib =? i + 1)%nat) eqn:C2.
    + apply andb_true_iff in C2 as [_ C2]. apply Nat.eqb_eq in C2. subst ib.
      apply bind_Ok_inv in H as (a & _ & H). apply bind_Ok_inv in H as (b & _ & H).
      inversion H; subst. apply (DictFacts.get_set_other _ pair_eqb_eq). congruence.
    + inversion H; subst. reflexivity.
Qed.

(** Chain propagation changes neither the delay of file 0 nor the delay of
    a file that has a constraint against file 0. *)
Lemma chain_propagate_linked (files : list string)
  (_result1 _result2 r2' : Dict.t (nat * nat) Q) (k : nat) :
  chain_propagate files _result1 _result2 = Ok r2' ->
  k = 0%nat \/ linked _result1 k ->
  Dict.get pair_eqb r2' (0, k)%nat = Dict.get pair_eqb _result2 (0, k)%nat.
Proof.
  unfold chain_propagate. intros H Hk.
  refine (@for_each_inv _ _
            (fun r2 => Dict.get pair_eqb r2 (0, k)%nat
                       = Dict.get pair_eqb _result2 (0, k)%nat)
            _ _ _ _ _ eq_refl H).
  intros s edge s' Hs Hedge. rewrite <- Hs.
  refine (@for_each_inv _ _
            (fun r2 => Dict.get pair_eqb r2 (0, k)%nat = Dict.get pair_eqb s (0, k)%nat)
            _ _ _ _ _ eq_refl Hedge).
  intros t i t' Ht Hstep. rewrite <- Ht.
  apply (@chain_step_other _result1 edge t t' i (0, k)%nat Hstep).
  destruct (Nat.eq_dec k (i + 1)) as [->|Hne].
  - right. destruct Hk as [Hk|Hk]; [lia | exact Hk].
  - left. congruence.
Qed.

Section ReferenceFile.

Variable set_iter : list Z -> list Z.
Variable abspath : string -> string.
Variable files : list string.
Variable known_delay_map : Dict.t string kdm_t.

(** X9: in the delays that the resolution ends with, file 0 has the delay
    0, a file with a constraint keyed [(0, k)] has the delay of that
    constraint, and a file with only the reverse key [(k, 0)] has the
    negated delay of that constraint: chain propagation does not change
    them. *)
Theorem resolve_keeps_reference_and_direct_constraints
  (ftds : list signature) (samps_per_sec : Q)
  (_result1 _result2 : Dict.t (nat * nat) Q) :
  known_delays set_iter abspath files known_delay_map ftds samps_per_sec = Ok _result1 ->
  resolve set_iter abspath files known_delay_map ftds samps_per_sec = Ok _result2 ->
  Dict.get pair_eqb _result2 (0, 0)%nat = Some 0%Q
  /\ forall k, (1 <= k < length files)%nat ->
       (Dict.contains pair_eqb _result1 (0, k)%nat = true ->
        Dict.get pair_eqb _result2 (0, k)%nat = Dict.get pair_eqb _result1 (0, k)%nat)
       /\ (Dict.contains pair_eqb _result1 (0, k)%nat = false ->
           Dict.contains pair_eqb _result1 (k, 0)%nat = true ->
           exists w, Dict.get pair_eqb _result1 (k, 0)%nat = Some w
                     /\ Dict.get pair_eqb _result2 (0, k)%nat = Some (- w)%Q).
Proof.
  intros Hr1 H. unfold resolve in H. rewrite Hr1 in H. simpl in H.
  apply bind_Ok_inv in H as (r2 & Hbase & Hchain).
  apply base_relative_spec in Hbase. destruct Hbase as (H0 & Hi & _).
  split.
  - rewrite (@chain_propagate_linked files _result1 r2 _result2 0%nat Hchain)
      by (left; reflexivity).
    exact H0.
  - intros k Hk. destruct (Hi k Hk) as (v & Hget & Hv). split.
    + intros Hc.
      rewrite (@chain_propagate_linked files _result1 r2 _result2 k Hchain)
        by (right; left; exact Hc).
      destruct Hv as [[_ Hv]|[[Hv _]|[Hv _]]]; congruence.
    + intros Hc0 Hc1.
      rewrite (@chain_propagate_linked files _result1 r2 _result2 k Hchain)
        by (right; right; exact Hc1).
      destruct Hv as [[Hv _]|[(_ & _ & w & Hw & ->)|(_ & Hv & _)]]; try congruence.
      exists w. auto.
Qed.

End ReferenceFile.

Lemma resolve_keeps_reference_and_direct_constraints_witness :
  exists _result2,
    resolve set_iter_first abspath_id ["/a"; "/b"; "/c"]%string
      [("/b"%string, {| kdm_base := "/a"; kdm_min := None; kdm_max := None |})]
      [[(0, [0])]; [(0, [2])]; [(0, [5])]]%Z 1%Q = Ok _result2
    /\ Dict.get pair_eqb _result2 (0, 0)%nat = Some 0%Q
    /\ Dict.get pair_eqb _result2 (0, 1)%nat = Some (- inject_Z 2 / 1)%Q.
Proof.
  destruct (resolve set_iter_first abspath_id ["/a"; "/b"; "/c"]%string
      [("/b"%string, {| kdm_base := "/a"; kdm_min := None; kdm_max := None |})]
      [[(0, [0])]; [(0, [2])]; [(0, [5])]]%Z 1%Q) as [r2|e] eqn:E;
    [|vm_compute in E; discriminate].
  exists r2. split; [reflexivity|].
  destruct (@resolve_keeps_reference_and_direct_constraints set_iter_first abspath_id
              ["/a"; "/b"; "/c"]%string
              [("/b"%string, {| kdm_base := "/a"; kdm_min := None; kdm_max := None |})]
              [[(0, [0])]; [(0, [2])]; [(0, [5])]]%Z 1%Q
              [((0, 1)%nat, (- inject_Z 2 / 1)%Q)] r2 eq_refl E) as (H0 & Hk).
  split; [exact H0|].
  destruct (Hk 1%nat ltac:(simpl; lia)) as (H1 & _).
  rewrite H1 by reflexivity. reflexivity.
Defined.


(** ** Constraints that name no file of the run *)

Lemma index_not_In (l : list string) (x : string) :
  ~ In x l -> index String.eqb l x = Raise ValueError.
Proof.
  induction l as [|y l IH]; simpl; intros H; [reflexivity|].
  destruct (String.eqb_spec y x) as [E|_]; [exfalso; apply H; left; exact E|].
  rewrite IH by (intros Hin; apply H; right; exact Hin). reflexivity.
Qed.

Lemma index_Raise (l : list string) (x : string) (e : exn) :
  index String.eqb l x = Raise e -> e = ValueError /\ ~ In x l.
Proof.
  induction l as [|y l IH]; simpl.
  - intros H; inversion H; auto.
  - destruct (String.eqb_spec y x) as [E|Hne]; [discriminate|].
    destruct (index String.eqb l x) as [i|e'] eqn:Ei; simpl; [discriminate|].
    intros H; inversion H; subst. destruct (IH eq_refl) as [-> Hnot].
    split; [reflexivity|]. intros [Hin|Hin]; auto.
Qed.


Section UnresolvableConstraints.

Variable set_iter : list Z -> list Z.
Variable fft_abs : list Z -> list Q.
Variable abspath : string -> string.
Variable os_stat : string -> file_stat.
Variable decode : exaud_args -> list Z * Z.
Variable cache_key : Type.
Variable key_eqb : cache_key -> cache_key -> bool.
Variable make_cache_key : for_cache_t -> cache_key.
Variable self : SyncDetector.
Variables (sample_rate : Z) (files : list string).
Variables (fft_bin_size overlap box_height box_width samples_per_box : Z).
Variable max_misalignment : Q.
Variable known_delay_map : Dict.t string kdm_t.
Variable afilter : string.

Local Abbreviation align := (fun known =>
  @_align set_iter fft_abs abspath os_stat decode cache_key key_eqb make_cache_key
     self sample_rate files fft_bin_size overlap box_height box_width samples_per_box
     max_misalignment known afilter).
Local Abbreviation delays := (fun known =>
  @delays_of set_iter fft_abs abspath os_stat decode cache_key key_eqb make_cache_key
     self sample_rate files fft_bin_size overlap box_height box_width samples_per_box
     max_misalignment known afilter).
Local Abbreviation signatures :=
  (@ftds_of fft_abs os_stat decode cache_key key_eqb make_cache_key
     self sample_rate files fft_bin_size overlap box_height box_width samples_per_box
     max_misalignment afilter).

(** Every constraint names a target or a base that is not among the
    files. *)
Hypothesis unresolvable :
  forall kdm_key kdm, In (kdm_key, kdm) known_delay_map ->
    ~ In (abspath kdm_key) files \/ ~ In (abspath (kdm_base kdm)) files.

Lemma known_delays_unresolvable (ftds : list signature) (samps_per_sec : Q) :
  known_delays set_iter abspath files known_delay_map ftds samps_per_sec = Ok Dict.empty.
Proof.
  unfold known_delays.
  assert (Hgen : forall l r1,
            (forall item, In item l -> In item known_delay_map) ->
            for_each (known_step set_iter abspath files ftds samps_per_sec) l r1 = Ok r1).
  { induction l as [|[kdm_key kdm] l IH]; intros r1 Hl; cbn [for_each]; [reflexivity|].
    assert (Hstep : known_step set_iter abspath files ftds samps_per_sec r1 (kdm_key, kdm)
                    = Ok r1).
    { unfold known_step.
      destruct (unresolvable kdm_key kdm (Hl _ (or_introl eq_refl))) as [H|H].
      - rewrite (index_not_In _ _ H). reflexivity.
      - rewrite (index_not_In _ _ H).
        destruct (index String.eqb files (abspath kdm_key)); reflexivity. }
    rewrite Hstep. cbn [bind]. apply IH. intros item Hitem. apply Hl. right; exact Hitem. }
  apply Hgen. auto.
Qed.

Lemma resolve_unresolvable (ftds : list signature) (samps_per_sec : Q) :
  resolve set_iter abspath files known_delay_map ftds samps_per_sec
  = base_relative set_iter files ftds samps_per_sec Dict.empty.
Proof.
  unfold resolve. rewrite known_delays_unresolvable. simpl.
  destruct (base_relative set_iter files ftds samps_per_sec Dict.empty); reflexivity.
Qed.

(** X10: constraints that all name a target or a base outside the file list
    are ignored: [_align] gives what it gives without any constraint. *)
Theorem align_ignores_unresolvable_constraints (cache : cache_t cache_key) :
  align known_delay_map cache = align Dict.empty cache.
Proof.
  unfold _align, delays_of.
  destruct (truediv (inject_Z (_sample_rate self)) (inject_Z fft_bin_size)) as [sps|e];
    simpl; [|reflexivity].
  destruct (signatures cache) as [ftds|e]; simpl; [|reflexivity].
  rewrite resolve_unresolvable. unfold resolve. simpl.
  destruct (base_relative set_iter files ftds sps Dict.empty); reflexivity.
Qed.

Lemma delays_unresolvable_direct
  (cache : cache_t cache_key) (delay : list Q) :
  delays known_delay_map cache = Ok delay ->
  exists samps_per_sec ftds,
    truediv (inject_Z (_sample_rate self)) (inject_Z fft_bin_size) = Ok samps_per_sec
    /\ signatures cache = Ok ftds
    /\ length delay = S (length files - 1)
    /\ nth 0 delay 0%Q = 0%Q
    /\ forall k, (1 <= k < length files)%nat ->
         exists d,
           _find_delay set_iter (ftd ftds 0) (ftd ftds k) None None = Ok d
           /\ truediv (- inject_Z d) samps_per_sec = Ok (nth k delay 0%Q).
Proof.
  intros H. unfold delays_of in H.
  apply bind_Ok_inv in H as (sps & Hsps & H).
  apply bind_Ok_inv in H as (ftds & Hftds & H).
  apply bind_Ok_inv in H as (r2 & Hr2 & Harr).
  rewrite resolve_unresolvable in Hr2.
  apply base_relative_spec in Hr2. destruct Hr2 as (H0 & Hi & Hk).
  destruct (@result_array_spec r2 _ delay Hk Harr) as (Hlen & Hget).
  exists sps, ftds. repeat (split; [assumption|]). split.
  - specialize (Hget 0%nat ltac:(lia)). congruence.
  - intros k Hkr. destruct (Hi k Hkr) as (v & Hv & Hcase).
    specialize (Hget k ltac:(lia)).
    assert (v = nth k delay 0%Q) by congruence. subst v.
    destruct Hcase as [[Hc _]|[(_ & Hc & _)|(_ & _ & d & Hd & Hdiv)]];
      [discriminate | discriminate |].
    exists d. auto.
Qed.


(** X11: when no constraint names two files of the run, every delay is
    computed directly: the delay of file [k >= 1] is [-d / samps_per_sec] for
    the delta [d] that [_find_delay] returns, without bounds, for the
    signatures of file 0 and file [k]. *)
Theorem delays_without_constraints_are_direct
  (cache : cache_t cache_key) (delay : list Q) :
  delays known_delay_map cache = Ok delay ->
  exists samps_per_sec ftds,
    truediv (inject_Z (_sample_rate self)) (inject_Z fft_bin_size) = Ok samps_per_sec
    /\ signatures cache = Ok ftds
    /\ length delay = S (length files - 1)
    /\ nth 0 delay 0%Q = 0%Q
    /\ forall k, (1 <= k < length files)%nat ->
         exists d,
           _find_delay set_iter (ftd ftds 0) (ftd ftds k) None None = Ok d
           /\ truediv (- inject_Z d) samps_per_sec = Ok (nth k delay 0%Q).
Proof. apply delays_unresolvable_direct. Qed.

Lemma truediv_Ok (a b v : Q) : truediv a b = Ok v -> ~ (b == 0)%Q /\ v = (a / b)%Q.
Proof.
  unfold truediv. destruct (Qeq_bool b 0) eqn:E; [discriminate|].
  intros H; inversion H; subst. split; [|reflexivity].
  intros Hb. apply Qeq_bool_iff in Hb. congruence.
Qed.


End UnresolvableConstraints.

Lemma align_ignores_unresolvable_constraints_witness :
  ex_align ["/a"; "/b"; "/c"]%string
    [("/x"%string, {| kdm_base := "/a"; kdm_min := Some 3; kdm_max := None |})]
  = ex_align ["/a"; "/b"; "/c"]%string [].
Proof.
  apply (@align_ignores_unresolvable_constraints set_iter_first dft_abs_2 abspath_id
           ex_stat ex_decode for_cache_t for_cache_eqb cache_key_id ex_self 2%Z
           ["/a"; "/b"; "/c"]%string 2%Z 0%Z 1%Z 1000%Z 1%Z 0%Q
           [("/x"%string, {| kdm_base := "/a"; kdm_min := Some 3; kdm_max := None |})]
           EmptyString).
  intros kdm_key kdm [H|[]]. inversion H; subst. left. simpl.
  intros [E|[E|[E|[]]]]; discriminate.
Defined.

Lemma delays_without_constraints_are_direct_witness :
  exists delay samps_per_sec ftds,
    ex_delays ["/a"; "/b"; "/c"]%string [] = Ok delay
    /\ truediv (inject_Z 2) (inject_Z 2) = Ok samps_per_sec
    /\ nth 0 delay 0%Q = 0%Q
    /\ exists d, _find_delay set_iter_first (ftd ftds 0) (ftd ftds 2) None None = Ok d
                 /\ truediv (- inject_Z d) samps_per_sec = Ok (nth 2 delay 0%Q).
Proof.
  destruct (ex_delays ["/a"; "/b"; "/c"]%string []) as [delay|e] eqn:E;
    [|vm_compute in E; discriminate].
  destruct (@delays_without_constraints_are_direct set_iter_first dft_abs_2 abspath_id
              ex_stat ex_decode for_cache_t for_cache_eqb cache_key_id ex_self 2%Z
              ["/a"; "/b"; "/c"]%string 2%Z 0%Z 1%Z 1000%Z 1%Z 0%Q [] EmptyString
              ltac:(intros ? ? []) Dict.empty delay E)
    as (sps & ftds & Hsps & _ & _ & H0 & Hk).
  exists delay, sps, ftds. split; [reflexivity|]. split; [exact Hsps|].
  split; [exact H0|]. apply (Hk 2%nat). simpl; lia.
Defined.



(** ** The signature cache *)

Section SignatureCache.

Variable fft_abs : list Z -> list Q.
Variable os_stat : string -> file_stat.
Variable cache_key : Type.
Variable key_eqb : cache_key -> cache_key -> bool.
Variable make_cache_key : for_cache_t -> cache_key.
Variable self : SyncDetector.
Variables (sample_rate : Z) (files : list string).
Variables (fft_bin_size overlap box_height box_width samples_per_box : Z).
Variable max_misalignment : Q.
Variable afilter : string.

Local Abbreviation each := (fun decode =>
  @_each fft_abs os_stat decode cache_key key_eqb make_cache_key self sample_rate files
     fft_bin_size overlap box_height box_width samples_per_box max_misalignment afilter).

Hypothesis key_eqb_eq : forall a b, key_eqb a b = true <-> a = b.
Hypothesis caching : _dont_cache self = false.

(** X13: with caching on, a successful [_each] leaves every entry of the
    cache as it was, and a repeated call for the same file returns the same
    signature without changing the cache again, whatever the decoder would
    now give: the file is not decoded a second time. *)
Theorem each_is_cached (decode : exaud_args -> list Z * Z)
  (cache cache' : cache_t cache_key) (idx : nat) (ft : signature) :
  each decode cache idx = Ok (ft, cache') ->
  (forall k v, Dict.get key_eqb cache k = Some v -> Dict.get key_eqb cache' k = Some v)
  /\ forall decode', each decode' cache' idx = Ok (ft, cache').
Proof.
  unfold _each. rewrite caching. simpl negb. cbv iota.
  destruct (maxmisal_of sample_rate fft_bin_size overlap max_misalignment) as [mm|e];
    [|discriminate].
  cbn [bind].
  set (ck := cache_key_of os_stat make_cache_key fft_bin_size overlap box_height
               box_width samples_per_box
               {| ea_sample_rate := sample_rate;
                  ea_video_file := nth idx files EmptyString;
                  ea_duration := mm; ea_afilter := afilter |}).
  destruct (Dict.get key_eqb cache ck) as [cv|] eqn:Eget.
  - intros H; inversion H; subst. split; [auto|].
    intros decode'. rewrite Eget. reflexivity.
  - intros H. apply bind_Ok_inv in H as (cv & _ & H). inversion H; subst. split.
    + intros k v Hk. rewrite (DictFacts.get_set_other _ key_eqb_eq); [exact Hk|].
      intros E. subst k. congruence.
    + intros decode'. rewrite (DictFacts.get_set_same _ key_eqb_eq). reflexivity.
Qed.

End SignatureCache.

Lemma for_cache_eqb_eq (a b : for_cache_t) : for_cache_eqb a b = true <-> a = b.
Proof.
  assert (HQ : forall p q : Q, Q_eqb p q = true <-> p = q).
  { intros [pn pd] [qn qd]. unfold Q_eqb. simpl.
    rewrite andb_true_iff, Z.eqb_eq, Pos.eqb_eq. split.
    - intros [-> ->]; reflexivity.
    - intros H; inversion H; auto. }
  assert (HE : forall p q : exaud_args, exaud_eqb p q = true <-> p = q).
  { intros [a1 a2 a3 a4] [b1 b2 b3 b4]. unfold exaud_eqb. simpl.
    rewrite !andb_true_iff, Z.eqb_eq, !String.eqb_eq, HQ. split.
    - intros [[[-> ->] ->] ->]; reflexivity.
    - intros H; inversion H; auto. }
  destruct a as [a1 a2 a3 a4 a5 a6 a7], b as [b1 b2 b3 b4 b5 b6 b7].
  unfold for_cache_eqb. simpl.
  rewrite !andb_true_iff, !Z.eqb_eq, HE, HQ. split.
  - intros [[[[[[-> ->] ->] ->] ->] ->] ->]; reflexivity.
  - intros H; inversion H; repeat split; reflexivity.
Qed.

Lemma each_is_cached_witness :
  exists ft cache',
    _each dft_abs_2 ex_stat ex_decode for_cache_eqb cache_key_id
      {| _sample_rate := 2; _dont_cache := false |} 2 ["/a"; "/b"]%string
      2 0 1 1000 1 0 EmptyString Dict.empty 1 = Ok (ft, cache')
    /\ forall decode',
         _each dft_abs_2 ex_stat decode' for_cache_eqb cache_key_id
           {| _sample_rate := 2; _dont_cache := false |} 2 ["/a"; "/b"]%string
           2 0 1 1000 1 0 EmptyString cache' 1 = Ok (ft, cache').
Proof.
  destruct (_each dft_abs_2 ex_stat ex_decode for_cache_eqb cache_key_id
              {| _sample_rate := 2; _dont_cache := false |} 2 ["/a"; "/b"]%string
              2 0 1 1000 1 0 EmptyString Dict.empty 1) as [[ft cache']|e] eqn:E;
    [|vm_compute in E; discriminate].
  exists ft, cache'. split; [reflexivity|].
  exact (proj2 (@each_is_cached dft_abs_2 ex_stat for_cache_t for_cache_eqb cache_key_id
                  {| _sample_rate := 2; _dont_cache := false |} 2%Z ["/a"; "/b"]%string
                  2%Z 0%Z 1%Z 1000%Z 1%Z 0%Q EmptyString for_cache_eqb_eq eq_refl
                  ex_decode Dict.empty cache' 1%nat ft E)).
Defined.


(** ** A file aligned with itself *)

Section SameFileTwice.

Variable set_iter : list Z -> list Z.
Variable fft_abs : list Z -> list Q.
Variable abspath : string -> string.
Variable os_stat : string -> file_stat.
Variable decode : exaud_args -> list Z * Z.
Variable cache_key : Type.
Variable key_eqb : cache_key -> cache_key -> bool.
Variable make_cache_key : for_cache_t -> cache_key.
Variable self : SyncDetector.
Variable sample_rate : Z.
Variable f : string.
Variables (fft_bin_size overlap box_height box_width samples_per_box : Z).
Variable max_misalignment : Q.
Variable afilter : string.

Hypothesis set_iter_In : forall l k, In k (set_iter l) <-> In k l.
Hypothesis key_eqb_refl : forall k, key_eqb k k = true.

Local Abbreviation signatures2 :=
  (ftds_of fft_abs os_stat decode key_eqb make_cache_key self sample_rate [f; f]
     fft_bin_size overlap box_height box_width samples_per_box max_misalignment afilter).
Local Abbreviation align2 :=
  (@_align set_iter fft_abs abspath os_stat decode cache_key key_eqb make_cache_key self
     sample_rate [f; f] fft_bin_size overlap box_height box_width samples_per_box
     max_misalignment Dict.empty afilter).

(** Both signatures of the list [f; f] are the one extraction of [f]. *)
Lemma ftds_of_same_file (cache : cache_t cache_key) (ftds : list signature) :
  _dont_cache self = true \/ cache = Dict.empty ->
  signatures2 cache = Ok ftds ->
  exists mm rate ft,
    extract fft_abs decode fft_bin_size overlap box_height box_width samples_per_box
      {| ea_sample_rate := sample_rate; ea_video_file := f;
         ea_duration := mm; ea_afilter := afilter |} = Ok (rate, ft)
    /\ ftds = [ft; ft].
Proof.
  intros Hc H. unfold ftds_of in H. apply bind_Ok_inv in H as ([l c] & H & E).
  inversion E; subst; clear E. simpl in H.
  unfold _each in H. simpl nth in H.
  destruct (maxmisal_of sample_rate fft_bin_size overlap max_misalignment) as [mm|e];
    [|discriminate].
  cbn [bind] in H. exists mm.
  set (ea := {| ea_sample_rate := sample_rate; ea_video_file := f;
                ea_duration := mm; ea_afilter := afilter |}) in *.
  destruct (_dont_cache self) eqn:Edc; simpl negb in H; cbv iota in H.
  - destruct (extract fft_abs decode fft_bin_size overlap box_height box_width
                samples_per_box ea) as [[rate ft]|e] eqn:Ex; [|discriminate].
    cbn [bind snd fst app] in H. inversion H; subst. exists rate, ft. auto.
  - destruct Hc as [Hc|Hc]; [discriminate|]. subst cache. cbn [Dict.get] in H.
    change (Dict.get key_eqb Dict.empty
              (cache_key_of os_stat make_cache_key fft_bin_size overlap box_height
                 box_width samples_per_box ea)) with (@None (Z * signature)) in H.
    cbv iota in H.
    destruct (extract fft_abs decode fft_bin_size overlap box_height box_width
                samples_per_box ea) as [[rate ft]|e] eqn:Ex; [|discriminate].
    cbn [bind snd fst app] in H.
    unfold Dict.set, Dict.empty in H. simpl in H. rewrite key_eqb_refl in H.
    simpl in H. inversion H; subst. exists rate, ft. auto.
Qed.

(** X14: a file listed twice, aligned without constraints, starting from an
    empty cache or with caching off: whenever [_align] returns, no padding
    and no trimming is asked for either copy. *)
Theorem align_same_file_twice (cache : cache_t cache_key) (pad trim : list Q) :
  _dont_cache self = true \/ cache = Dict.empty ->
  align2 cache = Ok (pad, trim) ->
  Forall2 Qeq pad [0%Q; 0%Q] /\ Forall2 Qeq trim [0%Q; 0%Q].
Proof.
  intros Hc H. unfold _align in H. apply bind_Ok_inv in H as (delay & Hd & Hpt).
  apply (@delays_unresolvable_direct set_iter fft_abs abspath os_stat decode cache_key
           key_eqb make_cache_key self sample_rate [f; f] fft_bin_size overlap
           box_height box_width samples_per_box max_misalignment Dict.empty afilter)
    in Hd; [|intros k kdm []].
  destruct Hd as (sps & ftds & Hsps & Hft & Hlen & H0 & Hk).
  destruct (ftds_of_same_file Hc Hft) as (mm & rate & ft & Hex & ->).
  destruct (Hk 1%nat ltac:(simpl; lia)) as (d & Hfd & Hv).
  unfold ftd in Hfd. simpl nth in Hfd.
  assert (Hzero : d = 0%Z).
  { unfold extract in Hex.
    destruct (decode _) as [raw r]. apply bind_Ok_inv in Hex as (ft' & Hmk & E).
    inversion E; subst; clear E.
    destruct ft as [|kv ft0] eqn:Eft.
    - assert (Hn : _find_delay set_iter [] [] None None = Raise NoCorrelation).
      { apply (find_delay_NoCorrelation_iff set_iter [] [] None None set_iter_In).
        intros k [[] _]. }
      rewrite Hn in Hfd. discriminate.
    - rewrite <- Eft in *.
      pose proof (mk_freq_trans_summary_nonempty _ _ _ _ _ _ _ Hmk) as Hne.
      destruct (mk_freq_trans_summary_entries _ _ _ _ _ _ _ Hmk) as (js & _ & _ & Hnd & _).
      assert (Htimes : forall key l, Dict.get Z.eqb ft key = Some l -> NoDup l /\ l <> []).
      { intros key l Hget. split; [|exact (Hne _ _ Hget)].
        apply (@sig_entries_NoDup_times ft key l Hnd).
        apply (DictFacts.get_Some_In _ Z_eqb_eq). exact Hget. }
      assert (Hft0 : ft <> []) by (rewrite Eft; discriminate).
      pose proof (@find_delay_self_zero set_iter ft set_iter_In Htimes Hft0) as Hz.
      congruence. }
  subst d. apply truediv_Ok in Hv as (Hsps0 & Hv).
  simpl in Hlen.
  destruct delay as [|a [|b [|c delay]]]; simpl in Hlen; try discriminate.
  simpl in H0, Hv. subst a.
  assert (Hb : (b == 0)%Q).
  { rewrite Hv. change (- inject_Z 0)%Q with 0%Q. field. exact Hsps0. }
  clear Hv. unfold pad_trim in Hpt. simpl in Hpt. inversion Hpt; subst; clear Hpt.
  assert (Hm : (Qmin 0 b == 0)%Q) by (rewrite Hb; reflexivity).
  assert (Hmx : (Qmax (0 - Qmin 0 b) (b - Qmin 0 b) == 0)%Q)
    by (rewrite Hm, Hb; reflexivity).
  split; repeat constructor; rewrite ?Hmx, ?Hm, ?Hb; reflexivity.
Qed.

End SameFileTwice.

Lemma align_same_file_twice_witness :
  exists pad trim,
    ex_align ["/a"; "/a"]%string [] = Ok (pad, trim)
    /\ Forall2 Qeq pad [0%Q; 0%Q] /\ Forall2 Qeq trim [0%Q; 0%Q].
Proof.
  destruct (ex_align ["/a"; "/a"]%string []) as [[pad trim]|e] eqn:E;
    [|vm_compute in E; discriminate].
  exists pad, trim. split; [reflexivity|].
  unfold ex_align in E.
  refine (@align_same_file_twice _ _ _ _ _ _ _ _ _ _ _ _ _ _ _ _ _ _ _ _ _ _ _ _ E).
  - intros l k. unfold set_iter_first. apply nodup_In.
  - intros k. apply for_cache_eqb_eq. reflexivity.
  - left. reflexivity.
Defined.


(** ** Media informations *)

Section MediaInfoFacts.

Variable streams_t : Type.
Variable world : Type.
Variable communicate_get_media_info :
  string -> world -> result (media_info streams_t) * world.

Local Abbreviation known_in := (fun (st : infos_state streams_t world) fn inf =>
  Dict.get String.eqb (fst st) fn = Some inf).

Lemma _get_media_info_Ok (fn : string) (st st' : infos_state streams_t world)
  (inf : media_info streams_t) :
  _get_media_info communicate_get_media_info fn st = (Ok inf, st') ->
  known_in st' fn inf
  /\ forall k v, known_in st k v -> known_in st' k v.
Proof.
  unfold _get_media_info.
  destruct (Dict.get String.eqb (fst st) fn) as [inf0|] eqn:E.
  - intros H; inversion H; subst. auto.
  - destruct (communicate_get_media_info fn (snd st)) as [[inf0|e] w]; intros H;
      inversion H; subst; clear H. simpl. split.
    + apply (DictFacts.get_set_same _ String.eqb_eq).
    + intros k v Hk. rewrite (DictFacts.get_set_other _ String.eqb_eq); [exact Hk|].
      intros ->. congruence.
Qed.

Lemma get_media_info_Ok (files : list string) (st st' : infos_state streams_t world)
  (infos : list (media_info streams_t)) :
  get_media_info communicate_get_media_info files st = (Ok infos, st') ->
  Forall2 (known_in st') files infos
  /\ forall k v, known_in st k v -> known_in st' k v.
Proof.
  revert st st' infos. induction files as [|fn files IH]; intros st st' infos; simpl.
  - intros H; inversion H; subst. split; [constructor | auto].
  - destruct (_get_media_info communicate_get_media_info fn st) as [[inf|e] st1] eqn:E1;
      [|intros H; discriminate].
    destruct (get_media_info communicate_get_media_info files st1) as [[infs|e] st2] eqn:E2;
      intros H; inversion H; subst; clear H.
    apply _get_media_info_Ok in E1. destruct E1 as (Hfn & Hkeep1).
    apply IH in E2. destruct E2 as (Hall & Hkeep2). split.
    + constructor; [apply Hkeep2; exact Hfn | exact Hall].
    + intros k v Hk. apply Hkeep2, Hkeep1, Hk.
Qed.

Lemma Forall2_In_l {A B : Type} (R : A -> B -> Prop) (l : list A) (l' : list B) (x : A) :
  Forall2 R l l' -> In x l -> exists y, R x y.
Proof.
  induction 1 as [|a b l l' Hab _ IH]; simpl; [intros []|].
  intros [->|Hx]; [exists b; exact Hab | exact (IH Hx)].
Qed.

Lemma get_media_info_known (files : list string) (st : infos_state streams_t world)
  (infos : list (media_info streams_t)) :
  Forall2 (known_in st) files infos ->
  get_media_info communicate_get_media_info files st = (Ok infos, st).
Proof.
  induction 1 as [|fn inf files infos Hfn _ IH]; simpl; [reflexivity|].
  unfold _get_media_info. rewrite Hfn, IH. reflexivity.
Qed.

(** X15: when [get_media_info] returns, it returns one information per
    file, in the order of the files, each of them now held in
    [_orig_infos]; what [_orig_infos] held before is still there; and
    asking again for the same files, or for any of them in any order,
    gives the held informations without running ffprobe and without
    changing the state. *)
Theorem get_media_info_is_memoised (files : list string)
  (st st' : infos_state streams_t world) (infos : list (media_info streams_t)) :
  get_media_info communicate_get_media_info files st = (Ok infos, st') ->
  Forall2 (fun fn inf => Dict.get String.eqb (fst st') fn = Some inf) files infos
  /\ (forall fn inf, Dict.get String.eqb (fst st) fn = Some inf ->
                     Dict.get String.eqb (fst st') fn = Some inf)
  /\ get_media_info communicate_get_media_info files st' = (Ok infos, st')
  /\ forall files', incl files' files ->
       exists infos',
         get_media_info communicate_get_media_info files' st' = (Ok infos', st')
         /\ Forall2 (fun fn inf => Dict.get String.eqb (fst st') fn = Some inf)
                    files' infos'.
Proof.
  intros H. apply get_media_info_Ok in H. destruct H as (Hall & Hkeep).
  split; [exact Hall|]. split; [exact Hkeep|]. split.
  - apply get_media_info_known. exact Hall.
  - intros files' Hincl.
    assert (Hex : exists infos', Forall2 (known_in st') files' infos').
    { induction files' as [|fn files' IH].
      - exists []. constructor.
      - destruct IH as (infos' & IH); [intros x Hx; apply Hincl; right; exact Hx|].
        assert (Hfn : In fn files) by (apply Hincl; left; reflexivity).
        destruct (@Forall2_In_l _ _ _ _ _ fn Hall Hfn) as (inf & Hinf).
        exists (inf :: infos'). constructor; [exact Hinf | exact IH]. }
    destruct Hex as (infos' & Hex). exists infos'. split; [|exact Hex].
    apply get_media_info_known. exact Hex.
Qed.

End MediaInfoFacts.

Lemma get_media_info_is_memoised_witness :
  exists infos st',
    get_media_info ex_probe ["/a"; "/b"; "/a"]%string (Dict.empty, 0%nat) = (Ok infos, st')
    /\ snd st' = 2%nat
    /\ get_media_info ex_probe ["/a"; "/b"; "/a"]%string st' = (Ok infos, st').
Proof.
  destruct (get_media_info ex_probe ["/a"; "/b"; "/a"]%string (Dict.empty, 0%nat))
    as [[infos|e] st'] eqn:E; [|vm_compute in E; discriminate].
  exists infos, st'. split; [reflexivity|]. split.
  - vm_compute in E. inversion E. reflexivity.
  - exact (proj1 (proj2 (proj2 (@get_media_info_is_memoised unit nat ex_probe _ _ _ _ E)))).
Defined.


(** ** The edit list of [align] *)

Lemma for_each_collect {A B : Type} (body : list B -> A -> result (list B))
  (g : A -> result B) :
  (forall acc i, body acc i = (x <- g i ;; Ok (acc ++ [x]))) ->
  forall l acc res,
    for_each body l acc = Ok res ->
    exists xs, res = acc ++ xs /\ Forall2 (fun i x => g i = Ok x) l xs.
Proof.
  intros Hbody l. induction l as [|i l IH]; intros acc res H; simpl in H.
  - inversion H; subst. exists []. rewrite app_nil_r. split; [reflexivity | constructor].
  - apply bind_Ok_inv in H as (acc1 & H1 & H2). rewrite Hbody in H1.
    apply bind_Ok_inv in H1 as (x & Hx & E). inversion E; subst acc1; clear E.
    destruct (IH _ _ H2) as (xs & -> & Hxs). exists (x :: xs).
    rewrite <- app_assoc. split; [reflexivity|]. constructor; assumption.
Qed.

Lemma collect_map {A B : Type} (g : nat -> result B) (mk : A -> B) (z : list A) :
  forall start res,
    (forall i x, nth_error z i = Some x -> g (start + i)%nat = Ok (mk x)) ->
    Forall2 (fun i r => g i = Ok r) (seq start (length z)) res ->
    res = map mk z.
Proof.
  induction z as [|x z IH]; intros start res Hg H; simpl in H.
  - inversion H; reflexivity.
  - inversion H as [|i r l rs Hi Hrest]; subst. simpl. f_equal.
    + specialize (Hg 0%nat x eq_refl). rewrite Nat.add_0_r in Hg. congruence.
    + apply (IH (S start)); [|exact Hrest].
      intros i y Hy. specialize (Hg (S i) y Hy).
      rewrite Nat.add_succ_r in Hg. exact Hg.
Qed.

Lemma getitem_map {A B : Type} (f : A -> B) (z : list A) (i : nat) (x : A) :
  nth_error z i = Some x -> getitem (map f z) i = Ok (f x).
Proof.
  intros H. unfold getitem. rewrite nth_error_map, H. reflexivity.
Qed.

Lemma unzip3 {A B C : Type} (a : list A) (b : list B) (c : list C) :
  length a = length b -> length b = length c ->
  a = map (fun x => fst (fst x)) (combine (combine a b) c)
  /\ b = map (fun x => snd (fst x)) (combine (combine a b) c)
  /\ c = map snd (combine (combine a b) c)
  /\ length (combine (combine a b) c) = length a.
Proof.
  revert b c. induction a as [|x a IH]; intros [|y b] [|w c]; simpl; try discriminate.
  - auto.
  - intros H1 H2. injection H1 as H1. injection H2 as H2.
    destruct (IH b c H1 H2) as (Ha & Hb & Hc & Hl).
    repeat split; f_equal; assumption.
Qed.

Lemma in_combine_ex_r {A B : Type} (a : list A) (b : list B) (x : A) :
  length a = length b -> In x a -> exists y, In (x, y) (combine a b).
Proof.
  revert b. induction a as [|x0 a IH]; intros [|y b]; simpl; try discriminate;
    [intros _ []|].
  intros H [->|Hx].
  - exists y. left; reflexivity.
  - injection H as H. destruct (IH b H Hx) as (y' & Hy'). exists y'. right; exact Hy'.
Qed.

(** The two arrays of [_align], seen as one list of pairs. *)
Lemma pad_trim_pairs (delays pad_pre trim_pre : list Q) :
  pad_trim delays = Ok (pad_pre, trim_pre) ->
  length pad_pre = length delays /\ length trim_pre = length delays
  /\ exists span,
       (forall p t, In (p, t) (combine pad_pre trim_pre) ->
          (0 <= p)%Q /\ (0 <= t)%Q /\ (p + t == span)%Q)
       /\ (exists p t, In (p, t) (combine pad_pre trim_pre) /\ (p == 0)%Q)
       /\ (exists p t, In (p, t) (combine pad_pre trim_pre) /\ (t == 0)%Q).
Proof.
  unfold pad_trim. intros H.
  apply bind_Ok_inv in H as (m & Hm & H). apply bind_Ok_inv in H as (mx & Hmx & H).
  inversion H; subst; clear H. rewrite !length_map.
  split; [reflexivity|]. split; [reflexivity|].
  apply np_min_spec in Hm. destruct Hm as (Hm_in & Hm_le).
  apply np_max_spec in Hmx. destruct Hmx as (Hmx_in & Hmx_le).
  set (pad_pre := map (fun d => (d - m)%Q) delays) in *.
  assert (Hcomb : combine pad_pre (map (fun p => (- (p - mx))%Q) pad_pre)
                  = map (fun p => (p, (- (p - mx))%Q)) pad_pre).
  { rewrite <- (map_id pad_pre) at 1. apply combine_map_same. }
  rewrite Hcomb. exists mx. split; [|split].
  - intros p t Hin. apply in_map_iff in Hin. destruct Hin as (p' & E & Hp).
    inversion E; subst p' t; clear E.
    pose proof (Hmx_le _ Hp) as Hle.
    unfold pad_pre in Hp. apply in_map_iff in Hp. destruct Hp as (d & <- & Hd).
    pose proof (Hm_le _ Hd) as Hge. repeat split; lra.
  - exists (m - m)%Q, (- (m - m - mx))%Q. split; [|lra].
    apply in_map_iff. exists (m - m)%Q. split; [reflexivity|].
    unfold pad_pre. apply in_map_iff. exists m. auto.
  - exists mx, (- (mx - mx))%Q. split; [|lra].
    apply in_map_iff. exists mx. auto.
Qed.

Section EditList.

Variable streams_t : Type.

Local Abbreviation pad_of := (fun x : Q * Q * media_info streams_t => fst (fst x)).
Local Abbreviation trim_of := (fun x : Q * Q * media_info streams_t => snd (fst x)).
Local Abbreviation mk_result := (fun (mx mn : Q) (x : Q * Q * media_info streams_t) =>
  {| trim := trim_of x; pad := pad_of x; orig_duration := duration (snd x);
     trim_post := (duration (snd x) - trim_of x - mn)%Q;
     pad_post := (mx - (pad_of x + duration (snd x)))%Q;
     orig_streams := streams (snd x);
     orig_streams_summary := streams_summary (snd x) |}).

Lemma edit_list_zipped (files : list string) (z : list (Q * Q * media_info streams_t))
  (res : list (align_result streams_t)) :
  length z = length files ->
  edit_list files (map pad_of z) (map trim_of z) (map snd z) = Ok res ->
  exists mx mn,
    np_max (map (fun x => (pad_of x + duration (snd x))%Q) z) = Ok mx
    /\ np_min (map (fun x => (duration (snd x) - trim_of x)%Q) z) = Ok mn
    /\ res = map (mk_result mx mn) z.
Proof.
  intros Hlen H. unfold edit_list in H.
  unfold np_broadcast in H. rewrite !length_map, Nat.eqb_refl in H.
  rewrite !map_map in H. rewrite !combine_map_same, !map_map in H.
  cbn [bind fst snd] in H.
  apply bind_Ok_inv in H as (mx & Hmx & H).
  apply bind_Ok_inv in H as (mn & Hmn & H).
  exists mx, mn. split; [exact Hmx|]. split; [exact Hmn|].
  rewrite !map_map in H. cbn [fst snd] in H.
  set (g := fun i =>
               t <- getitem (map trim_of z) i ;;
               p <- getitem (map pad_of z) i ;;
               od <- getitem (map (fun x => duration (snd x)) z) i ;;
               tp <- getitem (map (fun x => (duration (snd x) - trim_of x - mn)%Q) z) i ;;
               pp <- getitem (map (fun x => (mx - (pad_of x + duration (snd x)))%Q) z) i ;;
               si <- getitem (map (fun x => (streams (snd x), streams_summary (snd x))) z) i ;;
               Ok {| trim := t; pad := p; orig_duration := od;
                     trim_post := tp; pad_post := pp;
                     orig_streams := fst si;
                     orig_streams_summary := snd si |}).
  assert (Hc : exists xs, res = [] ++ xs
                 /\ Forall2 (fun i x => g i = Ok x) (seq 0 (length files)) xs).
  { refine (@for_each_collect _ _ _ g _ _ _ _ H). intros acc i. unfold g.
    destruct (getitem (map trim_of z) i); [|reflexivity].
    destruct (getitem (map pad_of z) i); [|reflexivity].
    destruct (getitem (map (fun x => duration (snd x)) z) i); [|reflexivity].
    destruct (getitem (map (fun x => (duration (snd x) - trim_of x - mn)%Q) z) i);
      [|reflexivity].
    destruct (getitem (map (fun x => (mx - (pad_of x + duration (snd x)))%Q) z) i);
      [|reflexivity].
    destruct (getitem (map (fun x => (streams (snd x), streams_summary (snd x))) z) i);
      reflexivity. }
  destruct Hc as (xs & -> & Hall). simpl. rewrite <- Hlen in Hall.
  apply (@collect_map _ _ g (mk_result mx mn) z 0%nat xs); [|exact Hall].
  intros i x Hx. simpl. unfold g.
  rewrite !(getitem_map _ _ _ Hx). reflexivity.
Qed.

End EditList.


Section PublicAlign.

Variable streams_t : Type.
Variable world : Type.
Variable communicate_get_media_info :
  string -> world -> result (media_info streams_t) * world.
Variable set_iter : list Z -> list Z.
Variable fft_abs : list Z -> list Q.
Variable abspath : string -> string.
Variable os_stat : string -> file_stat.
Variable decode : exaud_args -> list Z * Z.
Variable cache_key : Type.
Variable key_eqb : cache_key -> cache_key -> bool.
Variable make_cache_key : for_cache_t -> cache_key.
Variable self : SyncDetector.

(** [_align] normalises one delay per file, or the single delay 0 when
    there is no file. *)
Lemma align_delays_length (sample_rate : Z) (files : list string)
  (fft_bin_size overlap box_height box_width samples_per_box : Z)
  (max_misalignment : Q) (known_delay_map : Dict.t string kdm_t) (afilter : string)
  (cache : cache_t cache_key) (pad_pre trim_pre : list Q) :
  _align set_iter fft_abs abspath os_stat decode key_eqb make_cache_key self
    sample_rate files fft_bin_size overlap box_height box_width samples_per_box
    max_misalignment known_delay_map afilter cache = Ok (pad_pre, trim_pre) ->
  exists delays,
    pad_trim delays = Ok (pad_pre, trim_pre)
    /\ length delays = S (length files - 1).
Proof.
  intros H. unfold _align in H. apply bind_Ok_inv in H as (delays & Hd & Hpt).
  exists delays. split; [exact Hpt|].
  apply delays_of_Ok_inv in Hd. destruct Hd as (sps & ftds & r2 & _ & _ & Hr & Ha).
  apply resolve_keys in Hr.
  exact (proj1 (result_array_spec _ _ Hr Ha)).
Qed.

(** What [align] guarantees about the list it returns. *)
Lemma align_edit_list_spec (files : list string)
  (fft_bin_size overlap box_height box_width samples_per_box : Z)
  (max_misalignment : Q) (known_delay_map : Dict.t string kdm_t) (afilter : string)
  (cache : cache_t cache_key) (st st' : infos_state streams_t world)
  (res : list (align_result streams_t)) :
  align communicate_get_media_info set_iter fft_abs abspath os_stat decode key_eqb
    make_cache_key self files fft_bin_size overlap box_height box_width
    samples_per_box max_misalignment known_delay_map afilter cache st = (Ok res, st') ->
  files <> []
  /\ Forall2 (fun fn r =>
                exists inf, Dict.get String.eqb (fst st') fn = Some inf
                  /\ orig_duration r = duration inf
                  /\ orig_streams r = streams inf
                  /\ orig_streams_summary r = streams_summary inf) files res
  /\ (exists span total kept,
        forall r, In r res ->
          (0 <= pad r)%Q /\ (0 <= trim r)%Q /\ (pad r + trim r == span)%Q
          /\ (0 <= pad_post r)%Q /\ (pad r + orig_duration r + pad_post r == total)%Q
          /\ (0 <= trim_post r)%Q
          /\ (orig_duration r - trim r - trim_post r == kept)%Q)
  /\ (exists r, In r res /\ (pad r == 0)%Q)
  /\ (exists r, In r res /\ (trim r == 0)%Q)
  /\ (exists r, In r res /\ (pad_post r == 0)%Q)
  /\ (exists r, In r res /\ (trim_post r == 0)%Q).
Proof.
  unfold align. intros H.
  destruct (_align set_iter fft_abs abspath os_stat decode key_eqb make_cache_key self
              (_sample_rate self) files fft_bin_size overlap box_height box_width
              samples_per_box max_misalignment known_delay_map afilter cache)
    as [[pad_pre trim_pre]|e] eqn:Ea; [|discriminate].
  destruct (get_media_info communicate_get_media_info files st) as [[infos|e] st1] eqn:Eg;
    [|discriminate].
  injection H as Hedit <-.
  apply align_delays_length in Ea. destruct Ea as (delays & Hpt & Hdl).
  apply pad_trim_pairs in Hpt.
  destruct Hpt as (Hlp & Hlt & span & Hpairs & Hpad0 & Htrim0).
  apply get_media_info_Ok in Eg. destruct Eg as (Hinfos & _).
  pose proof (Forall2_length Hinfos) as Hli.
  assert (Hne : files <> []).
  { intros ->. simpl in Hdl, Hli. destruct infos; [|discriminate].
    destruct pad_pre as [|p [|p' pad_pre]]; simpl in Hlp;
      [rewrite Hdl in Hlp; discriminate Hlp | | rewrite Hdl in Hlp; discriminate Hlp].
    unfold edit_list, np_broadcast in Hedit. simpl in Hedit. discriminate Hedit. }
  split; [exact Hne|].
  assert (Hn : S (length files - 1) = length files)
    by (destruct files; [congruence | simpl; lia]).
  rewrite Hn in Hdl. rewrite Hdl in Hlp, Hlt.
  set (z := combine (combine pad_pre trim_pre) infos).
  destruct (@unzip3 _ _ _ pad_pre trim_pre infos) as (Ha & Hb & Hc & Hl);
    [congruence | congruence |]. fold z in Ha, Hb, Hc, Hl.
  assert (Hedit' : edit_list files
                     (map (fun x : Q * Q * media_info streams_t => fst (fst x)) z)
                     (map (fun x : Q * Q * media_info streams_t => snd (fst x)) z)
                     (map snd z) = Ok res)
    by (rewrite <- Ha, <- Hb, <- Hc; exact Hedit).
  apply edit_list_zipped in Hedit'; [|congruence].
  destruct Hedit' as (mx & mn & Hmx & Hmn & Hres).
  apply np_max_spec in Hmx. destruct Hmx as (Hmx_in & Hmx_le).
  apply np_min_spec in Hmn. destruct Hmn as (Hmn_in & Hmn_le).
  assert (Hz : forall x, In x z -> In (fst x) (combine pad_pre trim_pre)).
  { intros [pt inf] Hx. exact (in_combine_l _ _ _ _ Hx). }
  assert (Hzex : forall pt, In pt (combine pad_pre trim_pre) -> exists inf, In (pt, inf) z).
  { intros pt Hpt. apply in_combine_ex_r; [|exact Hpt].
    rewrite length_combine. rewrite Hlp, Hlt, Hli. apply Nat.min_id. }
  split; [|split; [|split; [|split; [|split]]]].
  - rewrite Hc in Hinfos. rewrite Hres. clear - Hinfos.
    revert Hinfos. generalize z. clear z. intros z. revert files.
    induction z as [|x z IH]; intros files H; inversion H; subst; constructor.
    + exists (snd x). simpl. auto.
    + apply IH. assumption.
  - exists span, mx, mn. intros r Hr. rewrite Hres in Hr.
    apply in_map_iff in Hr. destruct Hr as (x & <- & Hx). simpl.
    destruct x as [[p t] inf] eqn:Ex. simpl.
    destruct (Hpairs p t (Hz _ Hx)) as (Hp & Ht & Hs).
    assert (H1 : (p + duration inf <= mx)%Q).
    { apply Hmx_le. apply in_map_iff. exists x. subst x. auto. }
    assert (H2 : (mn <= duration inf - t)%Q).
    { apply Hmn_le. apply in_map_iff. exists x. subst x. auto. }
    repeat split; try assumption; lra.
  - destruct Hpad0 as (p & t & Hin & Hp). destruct (Hzex _ Hin) as (inf & Hx).
    exists {| trim := t; pad := p; orig_duration := duration inf;
              trim_post := (duration inf - t - mn)%Q;
              pad_post := (mx - (p + duration inf))%Q;
              orig_streams := streams inf;
              orig_streams_summary := streams_summary inf |}.
    split; [|exact Hp]. rewrite Hres. apply in_map_iff. exists (p, t, inf). auto.
  - destruct Htrim0 as (p & t & Hin & Ht). destruct (Hzex _ Hin) as (inf & Hx).
    exists {| trim := t; pad := p; orig_duration := duration inf;
              trim_post := (duration inf - t - mn)%Q;
              pad_post := (mx - (p + duration inf))%Q;
              orig_streams := streams inf;
              orig_streams_summary := streams_summary inf |}.
    split; [|exact Ht]. rewrite Hres. apply in_map_iff. exists (p, t, inf). auto.
  - apply in_map_iff in Hmx_in. destruct Hmx_in as ([[p t] inf] & Hv & Hx). simpl in Hv.
    exists {| trim := t; pad := p; orig_duration := duration inf;
              trim_post := (duration inf - t - mn)%Q;
              pad_post := (mx - (p + duration inf))%Q;
              orig_streams := streams inf;
              orig_streams_summary := streams_summary inf |}.
    split; [|simpl; rewrite Hv; ring]. rewrite Hres. apply in_map_iff.
    exists (p, t, inf). auto.
  - apply in_map_iff in Hmn_in. destruct Hmn_in as ([[p t] inf] & Hv & Hx). simpl in Hv.
    exists {| trim := t; pad := p; orig_duration := duration inf;
              trim_post := (duration inf - t - mn)%Q;
              pad_post := (mx - (p + duration inf))%Q;
              orig_streams := streams inf;
              orig_streams_summary := streams_summary inf |}.
    split; [|simpl; rewrite Hv; ring]. rewrite Hres. apply in_map_iff.
    exists (p, t, inf). auto.
Qed.


End PublicAlign.



(** ** The summary of the streams *)

Section StreamSummary.

Variable streams_t : Type.

Local Abbreviation summary_of := (fun r : align_result streams_t => orig_streams_summary r).

Lemma summarize_snoc (l : list (align_result streams_t)) (r : align_result streams_t) :
  summarize_stream_infos (l ++ [r])
  = summarize_step (summarize_stream_infos l) r.
Proof.
  unfold summarize_stream_infos. rewrite fold_left_app. reflexivity.
Qed.

(** X17: [summarize_stream_infos] answers, for each of width, height,
    sample rate and frame rate, a value that is at least 0 and at least the
    value of every file, and that is 0 or the value of some file; and its
    [has_video] and [has_audio] hold, in the order of the files, whether the
    file has more than 0 video or audio streams. *)
Theorem summarize_stream_infos_maxima (l : list (align_result streams_t)) :
  let s := summarize_stream_infos l in
  ((0 <= Summary.max_width s)%Z
   /\ (forall r, In r l -> (max_resol_width (summary_of r) <= Summary.max_width s)%Z)
   /\ (Summary.max_width s = 0%Z
       \/ exists r, In r l /\ Summary.max_width s = max_resol_width (summary_of r)))
  /\ ((0 <= Summary.max_height s)%Z
      /\ (forall r, In r l -> (max_resol_height (summary_of r) <= Summary.max_height s)%Z)
      /\ (Summary.max_height s = 0%Z
          \/ exists r, In r l /\ Summary.max_height s = max_resol_height (summary_of r)))
  /\ ((0 <= Summary.max_sample_rate s)%Z
      /\ (forall r, In r l ->
            (max_sample_rate (summary_of r) <= Summary.max_sample_rate s)%Z)
      /\ (Summary.max_sample_rate s = 0%Z
          \/ exists r, In r l
               /\ Summary.max_sample_rate s = max_sample_rate (summary_of r)))
  /\ ((0 <= Summary.max_fps s)%Q
      /\ (forall r, In r l -> (max_fps (summary_of r) <= Summary.max_fps s)%Q)
      /\ (Summary.max_fps s = 0%Q
          \/ exists r, In r l /\ Summary.max_fps s = max_fps (summary_of r)))
  /\ Summary.has_video s = map (fun r => (0 <? num_video_streams (summary_of r))%Z) l
  /\ Summary.has_audio s = map (fun r => (0 <? num_audio_streams (summary_of r))%Z) l.
Proof.
  induction l as [|r l IH] using rev_ind.
  - simpl. repeat split; try lia; try lra; try (intros r []); left; reflexivity.
  - cbv zeta in *. rewrite summarize_snoc.
    set (s := summarize_stream_infos l) in *. clearbody s.
    destruct IH as ((Hw0 & Hw1 & Hw2) & (Hh0 & Hh1 & Hh2) & (Hs0 & Hs1 & Hs2)
                    & (Hf0 & Hf1 & Hf2) & Hv & Ha).
    unfold summarize_step; cbn [Summary.max_width Summary.max_height
      Summary.max_sample_rate Summary.max_fps Summary.has_video Summary.has_audio].
    assert (Hin : forall (P : align_result streams_t -> Prop),
              (forall x, In x l -> P x) -> P r -> forall x, In x (l ++ [r]) -> P x).
    { intros P Hl Hr x Hx. apply in_app_or in Hx. destruct Hx as [Hx|[<-|[]]]; auto. }
    assert (Hex : forall (P : align_result streams_t -> Prop),
              (exists x, In x l /\ P x) -> exists x, In x (l ++ [r]) /\ P x).
    { intros P (x & Hx & HP). exists x. split; [apply in_or_app; left; exact Hx | exact HP]. }
    assert (Hlast : In r (l ++ [r])) by (apply in_or_app; right; left; reflexivity).
    split; [|split; [|split; [|split; [|split]]]].
    + split; [lia|]. split.
      * apply Hin; [intros x Hx; specialize (Hw1 x Hx); lia | lia].
      * destruct (Z.max_spec (Summary.max_width s) (max_resol_width (summary_of r)))
          as [[_ E]|[_ E]]; rewrite E.
        -- right. exists r. auto.
        -- destruct Hw2 as [Hw2|Hw2]; [left; exact Hw2 | right; apply Hex; exact Hw2].
    + split; [lia|]. split.
      * apply Hin; [intros x Hx; specialize (Hh1 x Hx); lia | lia].
      * destruct (Z.max_spec (Summary.max_height s) (max_resol_height (summary_of r)))
          as [[_ E]|[_ E]]; rewrite E.
        -- right. exists r. auto.
        -- destruct Hh2 as [Hh2|Hh2]; [left; exact Hh2 | right; apply Hex; exact Hh2].
    + split; [lia|]. split.
      * apply Hin; [intros x Hx; specialize (Hs1 x Hx); lia | lia].
      * destruct (Z.max_spec (Summary.max_sample_rate s) (max_sample_rate (summary_of r)))
          as [[_ E]|[_ E]]; rewrite E.
        -- right. exists r. auto.
        -- destruct Hs2 as [Hs2|Hs2]; [left; exact Hs2 | right; apply Hex; exact Hs2].
    + destruct (Qmax_cases (Summary.max_fps s) (max_fps (summary_of r)))
        as [[E Hle]|[E Hle]]; rewrite E.
      * split; [exact Hf0|]. split.
        -- apply Hin; [exact Hf1 | exact Hle].
        -- destruct Hf2 as [Hf2|Hf2]; [left; exact Hf2 | right; apply Hex; exact Hf2].
      * split; [lra|]. split.
        -- apply Hin; [intros x Hx; specialize (Hf1 x Hx); lra | lra].
        -- right. exists r. auto.
    + rewrite Hv, map_app. reflexivity.
    + rewrite Ha, map_app. reflexivity.
Qed.

End StreamSummary.


(** ** The report of [main] *)

Lemma in_combine_ex_l {A B : Type} (a : list A) (b : list B) (y : B) :
  length a = length b -> In y b -> exists x, In (x, y) (combine a b).
Proof.
  revert b. induction a as [|x0 a IH]; intros [|y0 b]; simpl; try discriminate;
    [intros _ []|].
  intros H [->|Hy].
  - exists x0. left; reflexivity.
  - injection H as H. destruct (IH b H Hy) as (x & Hx). exists x. right; exact Hx.
Qed.

Lemma filter_length_lt {A : Type} (f : A -> bool) (l : list A) (x : A) :
  In x l -> f x = false -> (length (filter f l) < length l)%nat.
Proof.
  induction l as [|y l IH]; simpl; [intros []|].
  intros [->|Hx] Hf.
  - rewrite Hf. pose proof (filter_length_le f l). lia.
  - specialize (IH Hx Hf). destruct (f y); simpl; lia.
Qed.

Section Report.

Variable streams_t : Type.
Variable format_line : string -> Q -> Q -> string.

Local Abbreviation to_trim := (fun p : string * align_result streams_t =>
  negb (Qle_bool (trim (snd p)) 0)).
Local Abbreviation line_of := (fun p : string * align_result streams_t =>
  format_line (fst p) (trim (snd p)) (pad (snd p))).

Lemma report_loop (file_specs : list string) :
  forall (res pre : list (align_result streams_t)) (acc : list string),
    length res = length file_specs ->
    for_each
      (fun report (ip : nat * string) =>
         r <- getitem (pre ++ res) (fst ip) ;;
         if negb (negb (Qle_bool (trim r) 0)) then Ok report
         else Ok (report ++ [format_line (snd ip) (trim r) (pad r)]))
      (combine (seq (length pre) (length file_specs)) file_specs) acc
    = Ok (acc ++ map line_of (filter to_trim (combine file_specs res))).
Proof.
  induction file_specs as [|fn file_specs IH]; intros [|r res] pre acc Hlen;
    simpl in Hlen; try discriminate.
  - simpl. rewrite app_nil_r. reflexivity.
  - injection Hlen as Hlen. cbn [length seq combine for_each fst snd].
    assert (Hget : getitem (pre ++ r :: res) (length pre) = Ok r).
    { unfold getitem. rewrite nth_error_app2 by lia. rewrite Nat.sub_diag. reflexivity. }
    rewrite Hget. cbn [bind].
    specialize (IH res (pre ++ [r])).
    rewrite length_app in IH. simpl in IH. rewrite Nat.add_1_r in IH.
    rewrite <- app_assoc in IH. simpl in IH.
    cbn [filter fst snd]. destruct (Qle_bool (trim r) 0); cbn [negb bind].
    + rewrite (IH acc Hlen). reflexivity.
    + rewrite (IH _ Hlen). cbn [map fst snd]. rewrite <- app_assoc. reflexivity.
Qed.

(** The report has one line for each file whose [trim] is more than 0, in
    the order of the files. *)
Lemma report_of_spec (file_specs : list string) (res : list (align_result streams_t)) :
  length res = length file_specs ->
  report_of format_line file_specs res
  = Ok (map line_of (filter to_trim (combine file_specs res))).
Proof.
  intros Hlen. unfold report_of.
  exact (@report_loop file_specs res [] [] Hlen).
Qed.

Variable world : Type.
Variable communicate_get_media_info :
  string -> world -> result (media_info streams_t) * world.
Variable set_iter : list Z -> list Z.
Variable fft_abs : list Z -> list Q.
Variable abspath : string -> string.
Variable os_stat : string -> file_stat.
Variable decode : exaud_args -> list Z * Z.
Variable cache_key : Type.
Variable key_eqb : cache_key -> cache_key -> bool.
Variable make_cache_key : for_cache_t -> cache_key.
Variable self : SyncDetector.

(** X18: the report that [main] makes of what [align] returns has one line
    for each file whose [trim] is more than 0, in the order of the files.
    It never has a line for every file.  When some [pad] is not 0 it has a
    line, and when every [pad] is 0 it has none and [main] prints that the
    files are in sync already. *)
Theorem report_of_align (files : list string)
  (fft_bin_size overlap box_height box_width samples_per_box : Z)
  (max_misalignment : Q) (known_delay_map : Dict.t string kdm_t) (afilter : string)
  (cache : cache_t cache_key) (st st' : infos_state streams_t world)
  (res : list (align_result streams_t)) :
  align communicate_get_media_info set_iter fft_abs abspath os_stat decode key_eqb
    make_cache_key self files fft_bin_size overlap box_height box_width
    samples_per_box max_misalignment known_delay_map afilter cache st = (Ok res, st') ->
  exists report,
    report_of format_line files res = Ok report
    /\ report
       = map (fun p => format_line (fst p) (trim (snd p)) (pad (snd p)))
           (filter (fun p => negb (Qle_bool (trim (snd p)) 0)) (combine files res))
    /\ (length report < length files)%nat
    /\ ((exists r, In r res /\ ~ (pad r == 0)%Q) -> report <> [])
    /\ ((forall r, In r res -> (pad r == 0)%Q) ->
        report_text report = "files are in sync already"%string).
Proof.
  intros H. apply align_edit_list_spec in H.
  destruct H as (_ & Hall & (span & total & kept & Hres) & Hpad0 & Htrim0 & _).
  pose proof (Forall2_length Hall) as Hlen. symmetry in Hlen.
  exists (map line_of (filter to_trim (combine files res))).
  split; [apply report_of_spec; exact Hlen|]. split; [reflexivity|].
  assert (Hcl : length (combine files res) = length files)
    by (rewrite length_combine, Hlen; apply Nat.min_id).
  split; [|split].
  - rewrite length_map. destruct Htrim0 as (r & Hr & Ht).
    destruct (@in_combine_ex_l _ _ files res r (eq_sym Hlen) Hr) as (fn & Hin).
    rewrite <- Hcl. apply (filter_length_lt _ _ _ Hin). simpl.
    assert (Hle : Qle_bool (trim r) 0 = true) by (apply Qle_bool_iff; lra).
    rewrite Hle. reflexivity.
  - intros (r & Hr & Hp) E.
    destruct Hpad0 as (r0 & Hr0 & Hp0).
    destruct (Hres r Hr) as (Hrp & Hrt & Hrs & _).
    destruct (Hres r0 Hr0) as (_ & Hr0t & Hr0s & _).
    (* [r0] is not padded, so its [trim] is the whole span, which is more
       than 0 since [r] is padded *)
    destruct (@in_combine_ex_l _ _ files res r0 (eq_sym Hlen) Hr0) as (fn & Hin).
    assert (Hf : to_trim (fn, r0) = true).
    { simpl. destruct (Qle_bool (trim r0) 0) eqn:Eb; [|reflexivity].
      apply Qle_bool_iff in Eb. exfalso. apply Hp. lra. }
    assert (Hin' : In (fn, r0) (filter to_trim (combine files res)))
      by (apply filter_In; split; assumption).
    apply (in_map line_of) in Hin'. rewrite E in Hin'. exact Hin'.
  - intros Hp.
    assert (Hnone : filter to_trim (combine files res) = []).
    { destruct Htrim0 as (r0 & Hr0 & Ht0).
      destruct (Hres r0 Hr0) as (_ & _ & Hr0s & _).
      pose proof (Hp r0 Hr0) as Hp0.
      destruct (filter to_trim (combine files res)) as [|[fn r] l] eqn:E; [reflexivity|].
      assert (Hin : In (fn, r) (filter to_trim (combine files res)))
        by (rewrite E; left; reflexivity).
      apply filter_In in Hin. destruct Hin as (Hin & Hf). simpl in Hf.
      apply in_combine_r in Hin.
      destruct (Hres r Hin) as (_ & _ & Hrs & _).
      pose proof (Hp r Hin) as Hpr.
      assert (Hle : Qle_bool (trim r) 0 = true) by (apply Qle_bool_iff; lra).
      rewrite Hle in Hf. discriminate. }
    rewrite Hnone. reflexivity.
Qed.

End Report.

Lemma report_of_align_witness :
  exists res st' report,
    ex_public_align ["/a"; "/b"; "/c"]%string [] = (Ok res, st')
    /\ report_of ex_format_line ["/a"; "/b"; "/c"]%string res = Ok report
    /\ (length report < 3)%nat.
Proof.
  destruct (ex_public_align ["/a"; "/b"; "/c"]%string []) as [[res|e] st'] eqn:E;
    [|vm_compute in E; discriminate].
  unfold ex_public_align in E.
  destruct (@report_of_align unit ex_format_line _ _ _ _ _ _ _ _ _ _ _ _ _ _ _ _ _ _ _ _ _ _ _ _ E)
    as (report & Hrep & _ & Hlt & _).
  exists res, st', report. split; [reflexivity|]. split; [exact Hrep | exact Hlt].
Defined.


(** ** Constraints that name two files of the run *)

Section KnownDelays.

Variable set_iter : list Z -> list Z.
Variable abspath : string -> string.
Variable files : list string.
Variable known_delay_map : Dict.t string kdm_t.
Variable ftds : list signature.
Variable samps_per_sec : Q.

(** The entry [(ib, it) -> v] is what some constraint of the map gives. *)
Local Abbreviation from_constraint := (fun (ib it : nat) (v : Q) =>
  exists kdm_key kdm d,
    In (kdm_key, kdm) known_delay_map
    /\ index String.eqb files (abspath kdm_key) = Ok it
    /\ index String.eqb files (abspath (kdm_base kdm)) = Ok ib
    /\ _find_delay set_iter (ftd ftds ib) (ftd ftds it)
         (scale_bound (kdm_min kdm) samps_per_sec)
         (scale_bound (kdm_max kdm) samps_per_sec) = Ok d
    /\ truediv (- inject_Z d) samps_per_sec = Ok v).




End KnownDelays.



Section ConstrainedDelays.

Variable set_iter : list Z -> list Z.
Variable fft_abs : list Z -> list Q.
Variable abspath : string -> string.
Variable os_stat : string -> file_stat.
Variable decode : exaud_args -> list Z * Z.
Variable cache_key : Type.
Variable key_eqb : cache_key -> cache_key -> bool.
Variable make_cache_key : for_cache_t -> cache_key.
Variable self : SyncDetector.
Variables (sample_rate : Z) (files : list string).
Variables (fft_bin_size overlap box_height box_width samples_per_box : Z).
Variable max_misalignment : Q.
Variable afilter : string.

Local Abbreviation align := (fun known =>
  @_align set_iter fft_abs abspath os_stat decode cache_key key_eqb make_cache_key
     self sample_rate files fft_bin_size overlap box_height box_width samples_per_box
     max_misalignment known afilter).
Local Abbreviation delays := (fun known =>
  @delays_of set_iter fft_abs abspath os_stat decode cache_key key_eqb make_cache_key
     self sample_rate files fft_bin_size overlap box_height box_width samples_per_box
     max_misalignment known afilter).
Local Abbreviation signatures :=
  (@ftds_of fft_abs os_stat decode cache_key key_eqb make_cache_key
     self sample_rate files fft_bin_size overlap box_height box_width samples_per_box
     max_misalignment afilter).




End ConstrainedDelays.




(** ** Chain propagation of one constraint *)



Section SingleChain.

Variable set_iter : list Z -> list Z.
Variable abspath : string -> string.
Variable files : list string.
Variable known_delay_map : Dict.t string kdm_t.
Variable ftds : list signature.
Variable samps_per_sec : Q.

Variables ib it : nat.
Variable v : Q.
Hypothesis ib_range : (0 < ib < length files)%nat.
Hypothesis it_range : (0 < it < length files)%nat.
Hypothesis ib_it : ib <> it.

Local Abbreviation r1 := ([((ib, it), v)] : Dict.t (nat * nat) Q).

(** The delay of file [k] against file 0, computed without bounds. *)
Local Abbreviation direct := (fun (k : nat) (a : Q) =>
  exists d, _find_delay set_iter (ftd ftds 0) (ftd ftds k) None None = Ok d
            /\ truediv (- inject_Z d) samps_per_sec = Ok a).



Hypothesis only_constraint :
  known_delays set_iter abspath files known_delay_map ftds samps_per_sec = Ok r1.



End SingleChain.



(** ** Caching and the signatures of a run *)

Section CacheTransparency.

Variable fft_abs : list Z -> list Q.
Variable os_stat : string -> file_stat.
Variable decode : exaud_args -> list Z * Z.
Variable cache_key : Type.
Variable key_eqb : cache_key -> cache_key -> bool.
Variable make_cache_key : for_cache_t -> cache_key.
Variables (rate_of_self sample_rate : Z) (files : list string).
Variables (fft_bin_size overlap box_height box_width samples_per_box : Z).
Variable max_misalignment : Q.
Variable afilter : string.

Hypothesis key_eqb_eq : forall a b, key_eqb a b = true <-> a = b.
Hypothesis make_cache_key_inj : forall a b, make_cache_key a = make_cache_key b -> a = b.

Local Abbreviation extract' :=
  (extract fft_abs decode fft_bin_size overlap box_height box_width samples_per_box).
Local Abbreviation key_of :=
  (cache_key_of os_stat make_cache_key fft_bin_size overlap box_height box_width
     samples_per_box).
Local Abbreviation each_with := (fun dont_cache =>
  @_each fft_abs os_stat decode cache_key key_eqb make_cache_key
     {| _sample_rate := rate_of_self; _dont_cache := dont_cache |} sample_rate files
     fft_bin_size overlap box_height box_width samples_per_box max_misalignment afilter).
Local Abbreviation signatures_with := (fun dont_cache =>
  @ftds_of fft_abs os_stat decode cache_key key_eqb make_cache_key
     {| _sample_rate := rate_of_self; _dont_cache := dont_cache |} sample_rate files
     fft_bin_size overlap box_height box_width samples_per_box max_misalignment afilter).

(** Every entry of the cache is what extraction gives now for the
    arguments of its key. *)
Local Abbreviation up_to_date := (fun cache : cache_t cache_key =>
  forall exaud cv,
    Dict.get key_eqb cache (key_of exaud) = Some cv -> extract' exaud = Ok cv).

Lemma each_cached_or_not (c1 c2 : cache_t cache_key) (idx : nat) :
  up_to_date c1 ->
  match each_with false c1 idx, each_with true c2 idx with
  | Ok (ft1, c1'), Ok (ft2, _) => ft1 = ft2 /\ up_to_date c1'
  | Raise e1, Raise e2 => e1 = e2
  | _, _ => False
  end.
Proof.
  intros Hc1. unfold _each. cbn [_dont_cache negb].
  destruct (maxmisal_of sample_rate fft_bin_size overlap max_misalignment) as [mm|e];
    cbn [bind]; [|reflexivity].
  set (ea := {| ea_sample_rate := sample_rate; ea_video_file := nth idx files EmptyString;
                ea_duration := mm; ea_afilter := afilter |}).
  destruct (Dict.get key_eqb c1 (key_of ea)) as [cv|] eqn:Eget.
  - rewrite (Hc1 _ _ Eget). cbn [bind]. split; [reflexivity | exact Hc1].
  - destruct (extract' ea) as [cv|e] eqn:Ex; cbn [bind]; [|reflexivity].
    split; [reflexivity|]. intros exaud cv' Hget.
    destruct (key_eqb (key_of ea) (key_of exaud)) eqn:Ek.
    + apply key_eqb_eq in Ek. rewrite <- Ek in Hget.
      rewrite (DictFacts.get_set_same _ key_eqb_eq) in Hget. inversion Hget; subst cv'.
      unfold cache_key_of in Ek. apply make_cache_key_inj in Ek.
      apply (f_equal fc_exaud) in Ek. cbn [fc_exaud] in Ek. rewrite <- Ek. exact Ex.
    + rewrite (DictFacts.get_set_other _ key_eqb_eq) in Hget.
      * exact (Hc1 _ _ Hget).
      * intros E. rewrite E in Ek.
        rewrite (proj2 (key_eqb_eq _ _) eq_refl) in Ek. discriminate.
Qed.

(** X22: cache keys being compared by equality and different arguments
    having different keys, the signatures of a run that starts from a
    cache whose entries are up to date are the signatures of the same run
    with caching off, and the run raises what that run raises. *)
Theorem caching_does_not_change_signatures (c1 c2 : cache_t cache_key) :
  (forall exaud cv,
     Dict.get key_eqb c1 (key_of exaud) = Some cv -> extract' exaud = Ok cv) ->
  signatures_with false c1 = signatures_with true c2.
Proof.
  intros Hc1. unfold ftds_of.
  match goal with
  | |- bind (for_each ?b1 ?l (_, _)) ?k = bind (for_each ?b2 _ (_, _)) _ =>
      assert (Hg : forall l' acc c1' c2',
                 up_to_date c1' ->
                 bind (for_each b1 l' (acc, c1')) k = bind (for_each b2 l' (acc, c2')) k)
  end.
  { induction l' as [|idx l' IH]; intros acc c1' c2' Hc1';
      cbn [for_each bind fst snd]; [reflexivity|].
    pose proof (each_cached_or_not c2' idx Hc1') as Hstep.
    destruct (each_with false c1' idx) as [[ft1 c1'']|e1];
      destruct (each_with true c2' idx) as [[ft2 c2'']|e2]; cbn [bind fst snd];
      try contradiction.
    - destruct Hstep as (<- & Hc1''). apply IH. exact Hc1''.
    - subst e2. reflexivity. }
  apply Hg. exact Hc1.
Qed.

End CacheTransparency.

Lemma caching_does_not_change_signatures_witness :
  ftds_of dft_abs_2 ex_stat ex_decode for_cache_eqb cache_key_id
    {| _sample_rate := 2; _dont_cache := false |} 2 ["/a"; "/b"; "/a"]%string
    2 0 1 1000 1 0 EmptyString Dict.empty
  = ftds_of dft_abs_2 ex_stat ex_decode for_cache_eqb cache_key_id
      {| _sample_rate := 2; _dont_cache := true |} 2 ["/a"; "/b"; "/a"]%string
      2 0 1 1000 1 0 EmptyString Dict.empty.
Proof.
  apply (@caching_does_not_change_signatures dft_abs_2 ex_stat ex_decode for_cache_t
           for_cache_eqb cache_key_id 2%Z 2%Z ["/a"; "/b"; "/a"]%string
           2%Z 0%Z 1%Z 1000%Z 1%Z 0%Q EmptyString for_cache_eqb_eq).
  - intros a b H. exact H.
  - intros exaud cv H. discriminate H.
Defined.
